(** * Sacred Poker: the tournament engine of the page component, embedded
      and verified

    The engine is the game logic of the tournament version of
    [app/page.tsx]: TypeScript functions over one mutable [GameState]
    object: the hand evaluator ([evaluateFiveCardHand], [evaluateHand],
    [compareHands]), the betting round ([isBettingComplete],
    [getNextActivePlayer], [handlePlayerAction], [executeAIAction]), phase
    advance with the showdown payout ([advancePhase]) and dealer rotation
    ([getNextDealerIndex]).

    Conventions of the embedding.
    - JavaScript numbers that hold chips, bets, card values and categories
      are integers ([Z]); array indices are [nat].
    - [{ ...game }] is a shallow copy: the copy and the original share the
      [players] array and every player object in it.  The embedding keeps
      one [players] list per state and performs every field assignment on
      it by index ([alter]); a local name bound to a player object
      ([player], [activePlayer], [winner]) is an index into that list, so
      a read through the name after an assignment sees the assigned value.
    - An array read out of range yields [undefined]; it is [None] of
      [list (option _)] for cards, and a property read on [undefined]
      throws a TypeError: the function then yields [None] and no state.
    - Logging ([addToLog]) and the React setters are presentation and are
      left out. *)

From Stdlib Require Import ZArith Bool String Lia.
From stdpp Require Import base option list relations.
From stdpp Require Import pretty.

Local Open Scope Z_scope.

(** ** Cards *)

Inductive Suit := Spades | Hearts | Diamonds | Clubs.

#[global] Instance Suit_eq_dec : EqDecision Suit.
Proof. solve_decision. Defined.

Module Card.
Record t := mk { rank : string; suit : Suit; value : Z }.
End Card.
Abbreviation Card := Card.t.

(** [RANKS] and [SUITS]; [createDeck] gives the card of rank index [i] the
    value [i + 2]. *)
Definition RANKS : list string :=
  ["2"; "3"; "4"; "5"; "6"; "7"; "8"; "9"; "T"; "J"; "Q"; "K"; "A"]%string.
Definition SUITS : list Suit := [Spades; Hearts; Diamonds; Clubs].

(** The deck of [createDeck] before [shuffleDeck] permutes it. *)
Definition orderedDeck : list Card :=
  flat_map (fun s => imap (fun index r => Card.mk r s (Z.of_nat index + 2)) RANKS) SUITS.

(** ** Evaluated hands *)

Module Hand.
Record t := mk { rank : Z; name : string; kickers : list Z; highCard : Z }.
End Hand.
Abbreviation HandEval := Hand.t.

(** ** Array.prototype.sort with a comparator

    The sort is stable, and [x] is placed before [y] when [cmp x y <= 0]
    for an [x] that came first.  Insertion from the right end gives exactly
    that order whenever the comparator is consistent. *)
Section Sort.
Context {A : Type} (cmp : A -> A -> Z).

Fixpoint sortInsert (x : A) (l : list A) : list A :=
  match l with
  | [] => [x]
  | y :: ys => if cmp x y <=? 0 then x :: y :: ys else y :: sortInsert x ys
  end.

Fixpoint jsSort (l : list A) : list A :=
  match l with
  | [] => []
  | x :: xs => sortInsert x (jsSort xs)
  end.
End Sort.

(** ** Rank counting

    [rankCounts] is an object keyed by card value.  Its keys are
    non-negative integers (card values are 2 to 14), which JavaScript
    enumerates in ascending order; the table is an association list kept
    in ascending key order. *)
Definition RankCounts := list (Z * Z).

Fixpoint getCount (m : RankCounts) (k : Z) : option Z :=
  match m with
  | [] => None
  | (k', c) :: m' => if k =? k' then Some c else getCount m' k
  end.

(** [rankCounts[v] = (rankCounts[v] || 0) + 1] *)
Fixpoint bump (v : Z) (m : RankCounts) : RankCounts :=
  match m with
  | [] => [(v, 1)]
  | (k, c) :: m' =>
      if v =? k then (k, (if c =? 0 then 0 else c) + 1) :: m'
      else if v <? k then (v, 1) :: (k, c) :: m'
      else (k, c) :: bump v m'
  end.

(** [Object.keys(rankCounts).find(k => rankCounts[parseInt(k)] === n)] *)
Definition findKey (n : Z) (m : RankCounts) : option Z :=
  find (fun k => match getCount m k with Some c => c =? n | None => false end)
       (map fst m).

(** [Math.max(...xs)] and [Math.min(...xs)]; on the empty list JavaScript
    gives an infinity, which is [None] here. *)
Definition maxOf (xs : list Z) : option Z :=
  match xs with [] => None | x :: r => Some (fold_left Z.max r x) end.
Definition minOf (xs : list Z) : option Z :=
  match xs with [] => None | x :: r => Some (fold_left Z.min r x) end.

(** The cards of an array when none of them is [undefined]. *)
Fixpoint definedCards (cards : list (option Card)) : option (list Card) :=
  match cards with
  | [] => Some []
  | None :: _ => None
  | Some c :: r => cs ← definedCards r; Some (c :: cs)
  end.

Definition includes (v : Z) (values : list Z) : bool := existsb (Z.eqb v) values.

(** [values[i] - values[j] === d]; a missing entry makes the difference
    NaN and the test false. *)
Definition diffIs (values : list Z) (i j : nat) (d : Z) : bool :=
  match values !! i, values !! j with
  | Some a, Some b => a - b =? d
  | _, _ => false
  end.

(** [counts[i] === n] *)
Definition countIs (counts : list Z) (i : nat) (n : Z) : bool :=
  match counts !! i with Some c => c =? n | None => false end.

(** ** evaluateFiveCardHand

    An [undefined] card makes [sorted.forEach] throw at [card.value], and
    an empty array makes [sorted[0].value] throw: both are [None].  Where
    the source would compute with NaN or an infinity ([parseInt] of a key
    that [find] did not return, [Math.max] of no pairs) the model also
    gives [None]; the guards on [counts] keep those branches from being
    reached. *)
Definition evaluateFiveCardHand (cards : list (option Card)) : option HandEval :=
  cs ← definedCards cards;
  let sorted := jsSort (fun a b => Card.value b - Card.value a) cs in
  let rankCounts := fold_left (fun m card => bump (Card.value card) m) sorted [] in
  let suits := remove_dups (map Card.suit sorted) in
  let isFlush := (length suits =? 1)%nat in
  let values := map Card.value sorted in
  let regular := diffIs values 0 4 4 && (length (remove_dups values) =? 5)%nat in
  let wheel := negb regular && includes 14 values && includes 2 values &&
               includes 3 values && includes 4 values && includes 5 values in
  let isStraight := regular || wheel in
  let straightHigh := if regular then default 0 (values !! 0%nat)
                      else if wheel then 5 else 0 in
  let counts := jsSort (fun a b => b - a) (map snd rankCounts) in
  let pairs := jsSort (fun a b => b - a)
                 (map fst (filter (fun e => 2 <= snd e) rankCounts)) in
  first ← sorted !! 0%nat;
  let highCard := Card.value first in
  let kickers := values in
  if isStraight && isFlush then
    if straightHigh =? 14 then Some (Hand.mk 9 "Royal Flush" [] 14)
    else Some (Hand.mk 8 "Straight Flush" [straightHigh] straightHigh)
  else if countIs counts 0 4 then
    quads ← findKey 4 rankCounts;
    Some (Hand.mk 7 "Four of a Kind" [quads] quads)
  else if countIs counts 0 3 && countIs counts 1 2 then
    trips ← findKey 3 rankCounts;
    pair ← findKey 2 rankCounts;
    Some (Hand.mk 6 "Full House" [trips; pair] trips)
  else if isFlush then Some (Hand.mk 5 "Flush" kickers highCard)
  else if isStraight then Some (Hand.mk 4 "Straight" [straightHigh] straightHigh)
  else if countIs counts 0 3 then
    trips ← findKey 3 rankCounts;
    Some (Hand.mk 3 "Three of a Kind" [trips] trips)
  else if countIs counts 0 2 && countIs counts 1 2 then
    highPair ← maxOf pairs;
    lowPair ← minOf pairs;
    Some (Hand.mk 2 "Two Pair" [highPair; lowPair] highPair)
  else if countIs counts 0 2 then
    pair ← pairs !! 0%nat;
    Some (Hand.mk 1 "Pair" [pair] pair)
  else Some (Hand.mk 0 "High Card" kickers highCard).

(** ** compareHands

    [hand1.kickers[i] || 0] reads a missing entry, and a 0 entry, as 0. *)
Definition kickerAt (ks : list Z) (i : nat) : Z :=
  match ks !! i with
  | Some k => if k =? 0 then 0 else k
  | None => 0
  end.

(** The [for] loop over [i < Math.max(len1, len2)]: [fuel] is the number of
    iterations left. *)
Fixpoint kickerLoop (fuel i : nat) (ks1 ks2 : list Z) : Z :=
  match fuel with
  | O => 0
  | S fuel' =>
      let k1 := kickerAt ks1 i in
      let k2 := kickerAt ks2 i in
      if negb (k1 =? k2) then k2 - k1
      else kickerLoop fuel' (S i) ks1 ks2
  end.

Definition compareHands (hand1 hand2 : HandEval) : Z :=
  if negb (Hand.rank hand1 =? Hand.rank hand2) then
    Hand.rank hand2 - Hand.rank hand1
  else
    kickerLoop (Nat.max (length (Hand.kickers hand1)) (length (Hand.kickers hand2)))
               0 (Hand.kickers hand1) (Hand.kickers hand2).

(** ** evaluateHand

    The five nested loops over [i < j < k < l < m] visit the 5-element
    index sets in lexicographic order; [combos 5 cards] lists the
    corresponding sub-arrays in that order. *)
Fixpoint combos {A : Type} (k : nat) (l : list A) {struct l} : list (list A) :=
  match k, l with
  | O, _ => [[]]
  | S _, [] => []
  | S k', x :: xs => map (cons x) (combos k' xs) ++ combos k xs
  end.

Definition noHand : HandEval := Hand.mk 0 "High Card" [] 0.

(** The loop body: evaluate the subset and keep it when [bestHand] is
    [null] or the subset compares as stronger. *)
Fixpoint bestOf (subsets : list (list (option Card))) (bestHand : option HandEval)
  : option (option HandEval) :=
  match subsets with
  | [] => Some bestHand
  | hand :: rest =>
      evaluation ← evaluateFiveCardHand hand;
      match bestHand with
      | None => bestOf rest (Some evaluation)
      | Some b =>
          if compareHands evaluation b <? 0 then bestOf rest (Some evaluation)
          else bestOf rest bestHand
      end
  end.

Definition evaluateHand (cards : list (option Card)) : option HandEval :=
  if (length cards <? 5)%nat then Some noHand
  else
    bestHand ← bestOf (combos 5 cards) None;
    Some (default noHand bestHand).

(** ** Seats and the table *)

Module Player.
Record t := mk {
  id : string;
  name : string;
  chips : Z;
  hand : list (option Card);
  bet : Z;
  folded : bool;
  allIn : bool;
  position : nat;
  connected : bool;
  hasActed : bool;
  eliminated : bool
}.

(** Field assignments [p.chips = v], [p.bet = v], ... *)
Definition setChips (v : Z) (p : t) : t :=
  mk (id p) (name p) v (hand p) (bet p) (folded p) (allIn p) (position p)
     (connected p) (hasActed p) (eliminated p).
Definition setBet (v : Z) (p : t) : t :=
  mk (id p) (name p) (chips p) (hand p) v (folded p) (allIn p) (position p)
     (connected p) (hasActed p) (eliminated p).
Definition setFolded (v : bool) (p : t) : t :=
  mk (id p) (name p) (chips p) (hand p) (bet p) v (allIn p) (position p)
     (connected p) (hasActed p) (eliminated p).
Definition setAllIn (v : bool) (p : t) : t :=
  mk (id p) (name p) (chips p) (hand p) (bet p) (folded p) v (position p)
     (connected p) (hasActed p) (eliminated p).
Definition setHasActed (v : bool) (p : t) : t :=
  mk (id p) (name p) (chips p) (hand p) (bet p) (folded p) (allIn p) (position p)
     (connected p) v (eliminated p).
End Player.
Abbreviation Player := Player.t.

Inductive Phase :=
  waiting | preflop | flop | turn | river | showdown | tournament_complete.

#[global] Instance Phase_eq_dec : EqDecision Phase.
Proof. solve_decision. Defined.

Inductive Mode := standard | oracle | silent | ritual | nobluff.

(** [winner] and [tournamentWinner] hold a reference to a player object of
    the [players] array: the index of that object. *)
Module Game.
Record t := mk {
  id : string;
  players : list Player;
  communityCards : list (option Card);
  pot : Z;
  currentBet : Z;
  phase : Phase;
  activePlayerIndex : nat;
  dealerIndex : nat;
  smallBlind : Z;
  bigBlind : Z;
  mode : Mode;
  winner : option nat;
  tournamentWinner : option nat;
  deck : list Card;
  deckIndex : nat;
  bettingComplete : bool;
  handNumber : Z
}.

Definition setPlayers (v : list Player) (g : t) : t :=
  mk (id g) v (communityCards g) (pot g) (currentBet g) (phase g)
     (activePlayerIndex g) (dealerIndex g) (smallBlind g) (bigBlind g) (mode g)
     (winner g) (tournamentWinner g) (deck g) (deckIndex g) (bettingComplete g)
     (handNumber g).
Definition setCommunityCards (v : list (option Card)) (g : t) : t :=
  mk (id g) (players g) v (pot g) (currentBet g) (phase g)
     (activePlayerIndex g) (dealerIndex g) (smallBlind g) (bigBlind g) (mode g)
     (winner g) (tournamentWinner g) (deck g) (deckIndex g) (bettingComplete g)
     (handNumber g).
Definition setPot (v : Z) (g : t) : t :=
  mk (id g) (players g) (communityCards g) v (currentBet g) (phase g)
     (activePlayerIndex g) (dealerIndex g) (smallBlind g) (bigBlind g) (mode g)
     (winner g) (tournamentWinner g) (deck g) (deckIndex g) (bettingComplete g)
     (handNumber g).
Definition setCurrentBet (v : Z) (g : t) : t :=
  mk (id g) (players g) (communityCards g) (pot g) v (phase g)
     (activePlayerIndex g) (dealerIndex g) (smallBlind g) (bigBlind g) (mode g)
     (winner g) (tournamentWinner g) (deck g) (deckIndex g) (bettingComplete g)
     (handNumber g).
Definition setPhase (v : Phase) (g : t) : t :=
  mk (id g) (players g) (communityCards g) (pot g) (currentBet g) v
     (activePlayerIndex g) (dealerIndex g) (smallBlind g) (bigBlind g) (mode g)
     (winner g) (tournamentWinner g) (deck g) (deckIndex g) (bettingComplete g)
     (handNumber g).
Definition setActivePlayerIndex (v : nat) (g : t) : t :=
  mk (id g) (players g) (communityCards g) (pot g) (currentBet g) (phase g)
     v (dealerIndex g) (smallBlind g) (bigBlind g) (mode g)
     (winner g) (tournamentWinner g) (deck g) (deckIndex g) (bettingComplete g)
     (handNumber g).
Definition setWinner (v : option nat) (g : t) : t :=
  mk (id g) (players g) (communityCards g) (pot g) (currentBet g) (phase g)
     (activePlayerIndex g) (dealerIndex g) (smallBlind g) (bigBlind g) (mode g)
     v (tournamentWinner g) (deck g) (deckIndex g) (bettingComplete g)
     (handNumber g).
Definition setDeckIndex (v : nat) (g : t) : t :=
  mk (id g) (players g) (communityCards g) (pot g) (currentBet g) (phase g)
     (activePlayerIndex g) (dealerIndex g) (smallBlind g) (bigBlind g) (mode g)
     (winner g) (tournamentWinner g) (deck g) v (bettingComplete g)
     (handNumber g).
Definition setBettingComplete (v : bool) (g : t) : t :=
  mk (id g) (players g) (communityCards g) (pot g) (currentBet g) (phase g)
     (activePlayerIndex g) (dealerIndex g) (smallBlind g) (bigBlind g) (mode g)
     (winner g) (tournamentWinner g) (deck g) (deckIndex g) v
     (handNumber g).
End Game.
Abbreviation GameState := Game.t.

Import Player Game.

(** ** Array helpers *)

(** [xs.findIndex(f)]; [None] stands for the result -1. *)
Fixpoint findIndex {A : Type} (f : A -> bool) (l : list A) : option nat :=
  match l with
  | [] => None
  | x :: r => if f x then Some O else S <$> findIndex f r
  end.

(** [players.filter(f)] as the array of the references it holds: the
    indices, in order, of the player objects that satisfy [f]. *)
Fixpoint refsFrom (f : Player -> bool) (i : nat) (ps : list Player) : list nat :=
  match ps with
  | [] => []
  | p :: r => if f p then i :: refsFrom f (S i) r else refsFrom f (S i) r
  end.
Definition refs (f : Player -> bool) (ps : list Player) : list nat := refsFrom f 0 ps.

(** [players.reduce((sum, p) => sum + p.bet, 0)] *)
Definition totalBetsOf (ps : list Player) : Z :=
  fold_left (fun sum p => sum + bet p) ps 0.

(** ** Round closure and the circular scans *)

(** [!p.folded && !p.allIn && !p.eliminated] *)
Definition canAct (p : Player) : bool :=
  negb (folded p) && negb (allIn p) && negb (eliminated p).

(** [!p.folded && !p.eliminated] *)
Definition inHand (p : Player) : bool := negb (folded p) && negb (eliminated p).

Definition isBettingComplete (game : GameState) : bool :=
  let activePlayers := List.filter canAct (players game) in
  if (length activePlayers <=? 1)%nat then true
  else
    let allActed := forallb hasActed activePlayers in
    let allMatchCurrentBet :=
      forallb (fun player => (bet player =? currentBet game) || allIn player)
              activePlayers in
    allActed && allMatchCurrentBet.

(** What a bounded scan did: it found a seat after [attempts] failed
    probes, ran out of attempts, or read a seat outside the array (a
    TypeError in the source). *)
Inductive Scan :=
| Found (index attempts : nat)
| Exhausted (attempts : nat)
| ReadOutside.

(** The loop [while (attempts < players.length) { ... attempts++ }] shared
    in shape by [getNextActivePlayer] and [getNextDealerIndex]; [left] is
    [players.length - attempts], and [qualifies] is the test that returns
    the probed index. *)
Fixpoint scanLoop (qualifies : Player -> bool) (ps : list Player)
         (left next attempts : nat) : Scan :=
  match left with
  | O => Exhausted attempts
  | S left' =>
      match ps !! next with
      | None => ReadOutside
      | Some player =>
          if qualifies player then Found next attempts
          else scanLoop qualifies ps left' ((next + 1) mod length ps) (S attempts)
      end
  end.

Definition scanResult (fallback : nat) (s : Scan) : nat :=
  match s with
  | Found index _ => index
  | Exhausted _ => fallback
  | ReadOutside => fallback
  end.

Definition activeScan (game : GameState) : Scan :=
  scanLoop canAct (players game) (length (players game))
           ((activePlayerIndex game + 1) mod length (players game)) 0.

Definition getNextActivePlayer (game : GameState) : nat :=
  scanResult (activePlayerIndex game) (activeScan game).

Definition dealerScan (game : GameState) : Scan :=
  scanLoop (fun p => negb (eliminated p)) (players game) (length (players game))
           ((dealerIndex game + 1) mod length (players game)) 0.

Definition getNextDealerIndex (game : GameState) : nat :=
  scanResult (dealerIndex game) (dealerScan game).

(** ** Player actions

    The [switch] bodies of [handlePlayerAction] and [executeAIAction].  The
    local [player] (or [activePlayer]) is the object at [playerIndex] of
    the shared array, so [player.chips] read after
    [newGame.players[playerIndex].chips -= ...] is the debited stack. *)

Inductive Action := fold | call | raise | allin.

(** [newGame.players[playerIndex].f = v] *)
Definition assign (playerIndex : nat) (f : Player -> Player) (game : GameState)
  : GameState :=
  setPlayers (alter f playerIndex (players game)) game.

(** [newGame.players.forEach((p, i) => { if (i !== playerIndex && !p.folded
    && !p.allIn && !p.eliminated) p.hasActed = false })] *)
Definition reopenRound (playerIndex : nat) (game : GameState) : GameState :=
  setPlayers
    (imap (fun i p => if negb (i =? playerIndex)%nat && canAct p
                      then setHasActed false p else p)
          (players game))
    game.

Definition doFold (playerIndex : nat) (game : GameState) : option GameState :=
  _ ← players game !! playerIndex;
  let g1 := assign playerIndex (setFolded true) game in
  let g2 := assign playerIndex (setHasActed true) g1 in
  Some g2.

Definition doCall (playerIndex : nat) (game : GameState) : option GameState :=
  player ← players game !! playerIndex;
  let callAmount := Z.min (currentBet game - bet player) (chips player) in
  let g1 := assign playerIndex (fun p => setChips (chips p - callAmount) p) game in
  let g2 := assign playerIndex (fun p => setBet (bet p + callAmount) p) g1 in
  let g3 := assign playerIndex (setHasActed true) g2 in
  player' ← players g3 !! playerIndex;
  if callAmount =? chips player' then Some (assign playerIndex (setAllIn true) g3)
  else Some g3.

(** [amount && amount > game.currentBet]: an absent amount and 0 are falsy. *)
Definition raiseAccepted (amount : option Z) (game : GameState) : option Z :=
  match amount with
  | Some a => if negb (a =? 0) && (currentBet game <? a) then Some a else None
  | None => None
  end.

(** The raise of both paths; [Math.floor] in [executeAIAction] is the
    identity on the integer amounts the policy produces. *)
Definition doRaise (playerIndex : nat) (amount : option Z) (game : GameState)
  : option GameState :=
  match raiseAccepted amount game with
  | None => Some game
  | Some a =>
      player ← players game !! playerIndex;
      let totalBet := Z.min a (chips player + bet player) in
      let additionalBet := totalBet - bet player in
      let g1 := assign playerIndex (fun p => setChips (chips p - additionalBet) p) game in
      let g2 := assign playerIndex (setBet totalBet) g1 in
      let g3 := assign playerIndex (setHasActed true) g2 in
      let g4 := setCurrentBet totalBet g3 in
      let g5 := reopenRound playerIndex g4 in
      player' ← players g5 !! playerIndex;
      if additionalBet =? chips player' then Some (assign playerIndex (setAllIn true) g5)
      else Some g5
  end.

Definition doAllIn (playerIndex : nat) (game : GameState) : option GameState :=
  player ← players game !! playerIndex;
  let allInAmount := chips player + bet player in
  let g1 := assign playerIndex (setChips 0) game in
  let g2 := assign playerIndex (setBet allInAmount) g1 in
  let g3 := assign playerIndex (setAllIn true) g2 in
  let g4 := assign playerIndex (setHasActed true) g3 in
  if currentBet game <? allInAmount
  then Some (reopenRound playerIndex (setCurrentBet allInAmount g4))
  else Some g4.

(** The [switch] of [handlePlayerAction]. *)
Definition playerSwitch (action : Action) (amount : option Z) (playerIndex : nat)
           (game : GameState) : option GameState :=
  match action with
  | fold => doFold playerIndex game
  | call => doCall playerIndex game
  | raise => doRaise playerIndex amount game
  | allin => doAllIn playerIndex game
  end.

(** The tail of [handlePlayerAction]: recompute the round-closed flag and
    pass the turn when the round is still open. *)
Definition closeOrPass (newGame : GameState) : GameState :=
  let g1 := setBettingComplete (isBettingComplete newGame) newGame in
  if negb (bettingComplete g1)
  then setActivePlayerIndex (getNextActivePlayer g1) g1
  else g1.

(** [handlePlayerAction(action, amount)] for the human seat [playerName].
    A refused call returns before [setGame], leaving the state as it was. *)
Definition handlePlayerAction (playerName : string) (action : Action)
           (amount : option Z) (game : GameState) : option GameState :=
  if String.eqb playerName "" then Some game
  else
    match findIndex (fun p => String.eqb (name p) playerName) (players game) with
    | None => Some game
    | Some playerIndex =>
        if negb (playerIndex =? activePlayerIndex game)%nat then Some game
        else
          newGame ← playerSwitch action amount playerIndex game;
          Some (closeOrPass newGame)
    end.

(** ** The policy-driven action *)

Record Decision := mkDecision { action : Action; amount : option Z }.

(** The [switch] of [executeAIAction]; it has no case for an all-in. *)
Definition aiSwitch (decision : Decision) (playerIndex : nat) (game : GameState)
  : option GameState :=
  match action decision with
  | fold => doFold playerIndex game
  | call => doCall playerIndex game
  | raise => doRaise playerIndex (amount decision) game
  | allin => Some game
  end.

(** The seat that takes the pot early: the only one left that is neither
    folded nor eliminated, once the round is closed. *)
Definition earlyWinner (newGame : GameState) : option nat :=
  if bettingComplete newGame then
    match refs inHand (players newGame) with
    | [winner] => Some winner
    | _ => None
    end
  else None.

(** The early-win block of [executeAIAction]. *)
Definition payEarly (winner : nat) (newGame : GameState) : GameState :=
  let totalBets := totalBetsOf (players newGame) in
  let winAmount := pot newGame + totalBets in
  let g1 := assign winner (fun p => setChips (chips p + winAmount) p) newGame in
  let g2 := setWinner (Some winner) g1 in
  let g3 := setPot winAmount g2 in
  let g4 := setPhase showdown g3 in
  let g5 := setBettingComplete true g4 in
  let g6 := setCurrentBet 0 g5 in
  setPlayers (map (setBet 0) (players g6)) g6.

Section Policy.
(** [makeAIDecision]: floating-point strength estimates and [Math.random]
    decide the action, so the policy is a parameter here.  It only reads
    the state; [None] is the TypeError it throws on a seat without hole
    cards. *)
Variable makeAIDecision : Player -> GameState -> option Decision.

(** [executeAIAction] up to and including
    [newGame.bettingComplete = isBettingComplete(newGame)]. *)
Definition aiActed (gameState : GameState) : option GameState :=
  activePlayer ← players gameState !! activePlayerIndex gameState;
  decision ← makeAIDecision activePlayer gameState;
  let playerIndex := activePlayerIndex gameState in
  newGame ← aiSwitch decision playerIndex gameState;
  Some (setBettingComplete (isBettingComplete newGame) newGame).

(** The rest of [executeAIAction]: pay the early winner and return, or
    pass the turn when the round is still open. *)
Definition aiFinish (newGame : GameState) : GameState :=
  match earlyWinner newGame with
  | Some winner => payEarly winner newGame
  | None =>
      if negb (bettingComplete newGame)
      then setActivePlayerIndex (getNextActivePlayer newGame) newGame
      else newGame
  end.

Definition executeAIAction (gameState : GameState) : option GameState :=
  newGame ← aiActed gameState;
  Some (aiFinish newGame).
End Policy.

(** ** Phase advance and showdown *)

(** One entry of [handEvaluations]: the seat reference and the evaluation
    of its hole cards with the board. *)
Definition evaluateSeat (game : GameState) (i : nat) : option (nat * HandEval) :=
  player ← players game !! i;
  h ← evaluateHand (hand player ++ communityCards game);
  Some (i, h).

(** [p.chips += v] for the object referenced by [i] *)
Definition credit (v : Z) (game : GameState) (i : nat) : GameState :=
  assign i (fun p => setChips (chips p + v) p) game.

(** [newGame.winner = w; newGame.winner.chips += newGame.pot] *)
Definition payWinner (w : nat) (newGame : GameState) : GameState :=
  credit (pot newGame) (setWinner (Some w) newGame) w.

(** [handEvaluations] after [handEvaluations.sort((a, b) =>
    compareHands(a.hand, b.hand))]. *)
Definition rankSeats (newGame : GameState) (activePlayers : list nat)
  : option (list (nat * HandEval)) :=
  handEvaluations ← mapM (evaluateSeat newGame) activePlayers;
  Some (jsSort (fun a b => compareHands (snd a) (snd b)) handEvaluations).

(** [handEvaluations.filter(h => compareHands(h.hand, winner.hand) === 0)
    .map(h => h.player)] *)
Definition tiedWith (winner : nat * HandEval) (sorted : list (nat * HandEval))
  : list nat :=
  map fst (List.filter (fun h => compareHands (snd h) (snd winner) =? 0) sorted).

(** The split: [Math.floor(pot / tiedPlayers.length)] to each tied seat,
    then [pot = 0] and [winner = undefined].  The pot is not negative and
    the divisor is positive, so the floor of the quotient is [/] of [Z]. *)
Definition splitPot (tiedPlayers : list nat) (newGame : GameState) : GameState :=
  let splitAmount := pot newGame / Z.of_nat (length tiedPlayers) in
  let g1 := fold_left (credit splitAmount) tiedPlayers newGame in
  setWinner None (setPot 0 g1).

(** The [case 'river'] payout.  With no seat left in the hand
    [handEvaluations] is empty and [winner.player] throws. *)
Definition payShowdown (newGame : GameState) : option GameState :=
  let activePlayers := refs inHand (players newGame) in
  match activePlayers with
  | [only] => Some (payWinner only newGame)
  | _ =>
      sorted ← rankSeats newGame activePlayers;
      winner ← sorted !! 0%nat;
      match sorted !! 1%nat with
      | Some second =>
          if compareHands (snd winner) (snd second) =? 0
          then Some (splitPot (tiedWith winner sorted) newGame)
          else Some (payWinner (fst winner) newGame)
      | None => Some (payWinner (fst winner) newGame)
      end
  end.

(** [activePlayers[(dealerPosition + 1) % activePlayers.length]?.index ||
    activePlayers[0].index] over the seats that are not eliminated.  A
    dealer that is not among them gives position -1, hence slot 0; index 0
    is falsy and falls through to the first entry. *)
Definition firstToAct (newGame : GameState) : option nat :=
  let activePlayers := refs (fun p => negb (eliminated p)) (players newGame) in
  let dealerPosition :=
    findIndex (fun index => (index =? dealerIndex newGame)%nat) activePlayers in
  let slot := match dealerPosition with Some d => S d | None => O end in
  match activePlayers with
  | [] => None
  | first :: _ =>
      match activePlayers !! (slot mod length activePlayers)%nat with
      | Some index => if (index =? 0)%nat then Some first else Some index
      | None => Some first
      end
  end.

(** [while (players[active].folded || players[active].eliminated)
      active = getNextActivePlayer(newGame)];
    [None] when the fuel runs out. *)
Fixpoint settleLoop (fuel : nat) (newGame : GameState) : option GameState :=
  player ← players newGame !! activePlayerIndex newGame;
  if folded player || eliminated player then
    match fuel with
    | O => None
    | S fuel' =>
        settleLoop fuel' (setActivePlayerIndex (getNextActivePlayer newGame) newGame)
    end
  else Some newGame.

(** The [switch] on the phase. *)
Definition dealPhase (game newGame : GameState) : option GameState :=
  let i := deckIndex newGame in
  match phase game with
  | preflop =>
      Some (setPhase flop
             (setDeckIndex (i + 3)
               (setCommunityCards
                  [deck newGame !! i; deck newGame !! S i; deck newGame !! S (S i)]
                  newGame)))
  | flop =>
      Some (setPhase turn
             (setDeckIndex (i + 1)
               (setCommunityCards (communityCards newGame ++ [deck newGame !! i])
                  newGame)))
  | turn =>
      Some (setPhase river
             (setDeckIndex (i + 1)
               (setCommunityCards (communityCards newGame ++ [deck newGame !! i])
                  newGame)))
  | river =>
      paid ← payShowdown (setPhase showdown newGame);
      Some (setBettingComplete true paid)
  | _ => Some newGame
  end.

(** The bets of the round move into the pot and every seat's [bet] and
    [hasActed] are cleared. *)
Definition collectBets (game : GameState) : GameState :=
  let totalBets := totalBetsOf (players game) in
  let g1 := setPot (pot game + totalBets) game in
  let g2 := setPlayers (map (fun p => setHasActed false (setBet 0 p)) (players g1)) g1 in
  let g3 := setCurrentBet 0 g2 in
  setBettingComplete false g3.

(** [advancePhase]; a request while the round is open is refused and
    leaves the state as it was.  The closing [while] runs on the fuel of
    one seat cycle; [settleLoop_fuel] shows that more fuel changes
    nothing, so a [None] from it is a loop that does not end. *)
Definition advancePhase (game : GameState) : option GameState :=
  if negb (bettingComplete game) && negb (bool_decide (phase game = showdown))
  then Some game
  else
    newGame ← dealPhase game (collectBets game);
    if bool_decide (phase newGame = showdown) then Some newGame
    else
      first ← firstToAct newGame;
      settleLoop (length (players newGame)) (setActivePlayerIndex first newGame).

(** ** The auto-play effect

    The body of the [useEffect] that drives the seats the user does not
    play, for a state [game] on which it runs, and the state update its
    timer performs on the state [prevGame] it then finds.  [playerName]
    is the name the user typed. *)

(** The guard both start with: [phase === 'showdown' || phase ===
    'tournament_complete' || game.bettingComplete || game.winner]. *)
Definition handOver (game : GameState) : bool :=
  bool_decide (phase game = showdown) ||
  bool_decide (phase game = tournament_complete) ||
  bettingComplete game ||
  match winner game with Some _ => true | None => false end.

(** What the effect arranges: nothing, [setTimeout(() => advancePhase(),
    1000)], or the timer of the policy move. *)
Inductive Scheduled := nothingScheduled | advanceScheduled | policyScheduled.

(** The effect.  [activePlayer] is first used at [activePlayer.name];
    [None] is the TypeError of that read when the index names no seat. *)
Definition autoPlay (playerName : string) (game : GameState) : option Scheduled :=
  if handOver game then Some nothingScheduled
  else if bettingComplete game &&
          negb (bool_decide (phase game = showdown)) &&
          negb (bool_decide (phase game = tournament_complete)) &&
          negb (match winner game with Some _ => true | None => false end)
  then Some advanceScheduled
  else
    activePlayer ← players game !! activePlayerIndex game;
    let isHumanPlayer := String.eqb (name activePlayer) playerName in
    if negb isHumanPlayer && negb (folded activePlayer) && negb (allIn activePlayer) &&
       negb (eliminated activePlayer) && negb (hasActed activePlayer)
    then Some policyScheduled
    else Some nothingScheduled.

(** The updater passed to [setGame] when the timer fires. *)
Definition policyTick (makeAIDecision : Player -> GameState -> option Decision)
           (playerName : string) (prevGame : GameState) : option GameState :=
  if handOver prevGame then Some prevGame
  else
    currentActivePlayer ← players prevGame !! activePlayerIndex prevGame;
    if hasActed currentActivePlayer || folded currentActivePlayer ||
       allIn currentActivePlayer || eliminated currentActivePlayer ||
       String.eqb (name currentActivePlayer) playerName
    then Some prevGame
    else executeAIAction makeAIDecision prevGame.

(** ** Chip totals *)

(** Chips in front of the seats: stacks plus live bets. *)
Definition seatChips (ps : list Player) : Z :=
  fold_left (fun sum p => sum + (chips p + bet p)) ps 0.

(** Stacks, live bets and the pot. *)
Definition totalChips (game : GameState) : Z :=
  seatChips (players game) + pot game.

(** ** The deck

    [shuffleDeck] draws [j = Math.floor(Math.random() * (i + 1))] once for
    every [i] from the last index down to 1.  The random source is the
    parameter [draw]: [draw i] is the index drawn at step [i], which the
    floor of a number of [[0, 1)] times [i + 1] keeps within [0 .. i]. *)

(** [[a[i], a[j]] = [a[j], a[i]]] for two indices of the array. *)
Definition swap {A : Type} (i j : nat) (l : list A) : list A :=
  match l !! i, l !! j with
  | Some x, Some y => <[j := x]> (<[i := y]> l)
  | _, _ => l
  end.

(** The loop [for (let i = ...; i > 0; i--)] from index [i] down. *)
Fixpoint shuffleFrom {A : Type} (draw : nat -> nat) (i : nat) (shuffled : list A)
  : list A :=
  match i with
  | O => shuffled
  | S i' => shuffleFrom draw i' (swap i (draw i) shuffled)
  end.

Definition shuffleDeck {A : Type} (draw : nat -> nat) (deck : list A) : list A :=
  shuffleFrom draw (length deck - 1) deck.

Definition createDeck (draw : nat -> nat) : list Card := shuffleDeck draw orderedDeck.

(** ** The names at the table

    [generatePlayerNames]: the five generic names with the name the user
    typed spliced in at [userPosition], which the source draws as
    [Math.floor(Math.random() * 6)]. *)
Definition genericNames : list string :=
  ["Player 1"; "Player 2"; "Player 3"; "Player 4"; "Player 5"]%string.

(** [allNames.splice(userPosition, 0, customName)] on a copy of the
    generic names. *)
Definition generatePlayerNames (userPosition : nat) (customName : string)
  : list string :=
  take userPosition genericNames ++ customName :: drop userPosition genericNames.

(** ** Starting a tournament and a hand *)

(** [initializeGame(playerNames, mode)]; [stamp] is the text of
    [Date.now()] and [draw] the random source of the shuffle. *)
Definition initializeGame (stamp : string) (draw : nat -> nat)
           (playerNames : list string) (mode_ : Mode) : GameState :=
  let players_ :=
    imap (fun index name_ =>
            Player.mk (String.append "player_" (pretty index)) name_ 1000 [] 0
                      false false index true false false)
         playerNames in
  Game.mk (String.append "game_" stamp) players_ [] 0 0 waiting 0 0 10 20 mode_
          None None (createDeck draw) 0 false 1.

(** [{ ...player, eliminated: true }] *)
Definition setEliminated (v : bool) (p : Player) : Player :=
  Player.mk (Player.id p) (name p) (chips p) (hand p) (bet p) (folded p) (allIn p)
            (position p) (connected p) (hasActed p) v.

Definition checkForEliminations (game : GameState) : GameState :=
  setPlayers
    (map (fun player =>
            if (chips player =? 0) && negb (eliminated player)
            then setEliminated true player else player)
         (players game))
    game.

Definition checkTournamentComplete (game : GameState) : bool :=
  let activePlayers := List.filter (fun p => negb (eliminated p)) (players game) in
  (length activePlayers =? 1)%nat.

(** The object literal of the [map] in [dealCards]: a fresh hand, no bet,
    no flags, folded exactly when eliminated. *)
Definition dealtSeat (holeCards : list (option Card)) (player : Player) : Player :=
  Player.mk (Player.id player) (name player) (chips player) holeCards 0
            (eliminated player) false (position player) (connected player) false
            (eliminated player).

(** [newGame.players.map(...)] with its two [newGame.deckIndex++] per seat
    that is not eliminated: the new seats and the cursor after them. *)
Fixpoint dealHands (deck_ : list Card) (cursor : nat) (ps : list Player)
  : list Player * nat :=
  match ps with
  | [] => ([], cursor)
  | player :: rest =>
      if eliminated player then
        let '(rest', cursor') := dealHands deck_ cursor rest in
        (dealtSeat [] player :: rest', cursor')
      else
        let '(rest', cursor') := dealHands deck_ (S (S cursor)) rest in
        (dealtSeat [deck_ !! cursor; deck_ !! S cursor] player :: rest', cursor')
  end.

Definition setDealerIndex (v : nat) (g : GameState) : GameState :=
  Game.mk (Game.id g) (players g) (communityCards g) (pot g) (currentBet g) (phase g)
          (activePlayerIndex g) v (smallBlind g) (bigBlind g) (mode g)
          (winner g) (tournamentWinner g) (deck g) (deckIndex g) (bettingComplete g)
          (handNumber g).
Definition setDeck (v : list Card) (g : GameState) : GameState :=
  Game.mk (Game.id g) (players g) (communityCards g) (pot g) (currentBet g) (phase g)
          (activePlayerIndex g) (dealerIndex g) (smallBlind g) (bigBlind g) (mode g)
          (winner g) (tournamentWinner g) v (deckIndex g) (bettingComplete g)
          (handNumber g).
Definition setHandNumber (v : Z) (g : GameState) : GameState :=
  Game.mk (Game.id g) (players g) (communityCards g) (pot g) (currentBet g) (phase g)
          (activePlayerIndex g) (dealerIndex g) (smallBlind g) (bigBlind g) (mode g)
          (winner g) (tournamentWinner g) (deck g) (deckIndex g) (bettingComplete g)
          v.
Definition setTournamentWinner (v : option nat) (g : GameState) : GameState :=
  Game.mk (Game.id g) (players g) (communityCards g) (pot g) (currentBet g) (phase g)
          (activePlayerIndex g) (dealerIndex g) (smallBlind g) (bigBlind g) (mode g)
          (winner g) v (deck g) (deckIndex g) (bettingComplete g)
          (handNumber g).

(** [(dealerPosition + k) % activePlayers.length], where [findIndex] gave
    [dealerPosition] or -1 ([None]); [k] is 1, 2 or 3. *)
Definition seatSlot (dealerPosition : option nat) (k len : nat) : nat :=
  match dealerPosition with
  | Some d => (d + k) mod len
  | None => (k - 1) mod len
  end.

(** [dealCards].  With fewer than two seats left the function returns
    after the deal, without blinds.  The reads [activePlayers[slot].index]
    of the two blind seats are in range once there are two seats; [None]
    stands for the TypeError of a read that is not. *)
Definition dealCards (game : GameState) : option GameState :=
  let '(seats, cursor) := dealHands (deck game) (deckIndex game) (players game) in
  let newGame := setDeckIndex cursor (setPlayers seats game) in
  let activePlayers := refs (fun p => negb (eliminated p)) (players newGame) in
  if (length activePlayers <? 2)%nat then Some newGame
  else
    let dealerPosition :=
      findIndex (fun index => (index =? dealerIndex newGame)%nat) activePlayers in
    let len := length activePlayers in
    smallBlindIndex ← activePlayers !! seatSlot dealerPosition 1 len;
    bigBlindIndex ← activePlayers !! seatSlot dealerPosition 2 len;
    smallBlindSeat ← players newGame !! smallBlindIndex;
    bigBlindSeat ← players newGame !! bigBlindIndex;
    let sbAmount := Z.min (smallBlind newGame) (chips smallBlindSeat) in
    let bbAmount := Z.min (bigBlind newGame) (chips bigBlindSeat) in
    let g1 := assign smallBlindIndex (fun p => setChips (chips p - sbAmount) p) newGame in
    let g2 := assign smallBlindIndex (setBet sbAmount) g1 in
    let g3 := assign bigBlindIndex (fun p => setChips (chips p - bbAmount) p) g2 in
    let g4 := assign bigBlindIndex (setBet bbAmount) g3 in
    let g5 := assign smallBlindIndex
                (fun p => if chips p =? 0 then setAllIn true p else p) g4 in
    let g6 := assign bigBlindIndex
                (fun p => if chips p =? 0 then setAllIn true p else p) g5 in
    let g7 := assign smallBlindIndex (setHasActed false) g6 in
    let g8 := assign bigBlindIndex (setHasActed true) g7 in
    let g9 := setPot 0 g8 in
    first ← activePlayers !! 0%nat;
    let toAct :=
      match activePlayers !! seatSlot dealerPosition 3 len with
      | Some index => if (index =? 0)%nat then first else index
      | None => first
      end in
    Some (setBettingComplete false
            (setCurrentBet bbAmount
               (setActivePlayerIndex toAct (setPhase preflop g9)))).

(** [startNewHand]; [draw] is the random source of the new deck.  The
    tournament winner is a reference to a seat: its index. *)
Definition startNewHand (draw : nat -> nat) (game : GameState) : option GameState :=
  let gameWithEliminations := checkForEliminations game in
  if checkTournamentComplete gameWithEliminations then
    let tournamentWinner_ :=
      findIndex (fun p => negb (eliminated p)) (players gameWithEliminations) in
    Some (setBettingComplete true
            (setTournamentWinner tournamentWinner_
               (setPhase tournament_complete gameWithEliminations)))
  else
    let newDealerIndex := getNextDealerIndex gameWithEliminations in
    let newGame :=
      setHandNumber (handNumber gameWithEliminations + 1)
        (setWinner None
           (setCurrentBet 0
              (setPot 0
                 (setCommunityCards []
                    (setDeckIndex 0
                       (setDeck (createDeck draw)
                          (setDealerIndex newDealerIndex gameWithEliminations))))))) in
    dealCards newGame.

(** [startNewGame]: a fresh table, dealt. *)
Definition startNewGame (stamp : string) (draw : nat -> nat)
           (playerNames : list string) (mode_ : Mode) : option GameState :=
  dealCards (initializeGame stamp draw playerNames mode_).

(** ** The event log

    [addToLog]: [[...prev.slice(-49), logEntry]], the entry being the
    message behind its time stamp in brackets. *)
Definition sliceLast {A : Type} (n : nat) (l : list A) : list A :=
  drop (length l - n) l.

Definition addToLog (timestamp message : string) (prev : list string) : list string :=
  sliceLast 49 prev ++
  [String.append "[" (String.append timestamp (String.append "] " message))].

(** * Notions used by the statements *)

(** Seat reads a scan performed. *)
Definition probes (s : Scan) : nat :=
  match s with
  | Found _ attempts => S attempts
  | Exhausted attempts => attempts
  | ReadOutside => O
  end.

(** The facts about one scan of [ps] started after index [from]. *)
Definition boundedScan (qualifies : Player -> bool) (ps : list Player)
           (from : nat) (s : Scan) : Prop :=
  s <> ReadOutside /\
  (probes s <= length ps)%nat /\
  (forall index a, s = Found index a ->
     (index < length ps)%nat /\
     exists p, ps !! index = Some p /\ qualifies p = true) /\
  (Forall (fun p => qualifies p = false) ps -> scanResult from s = from).

(** The kicker sequence as [compareHands] reads it: entry [i], with 0
    past the end. *)
Definition kickerSeq (h : HandEval) (i : nat) : Z := kickerAt (Hand.kickers h) i.

(** [j] is the first position at which two kicker sequences differ. *)
Definition firstDifference (h1 h2 : HandEval) (j : nat) : Prop :=
  (forall i, (i < j)%nat -> kickerSeq h1 i = kickerSeq h2 i) /\
  kickerSeq h1 j <> kickerSeq h2 j.

(** What a seat holds in front of it: stack plus live bet. *)
Definition holding (p : Player) : Z := chips p + bet p.

(** A sorted array: every entry is not after any later entry. *)
Fixpoint ordered {A : Type} (cmp : A -> A -> Z) (l : list A) : Prop :=
  match l with
  | [] => True
  | x :: r => Forall (fun y => cmp x y <= 0) r /\ ordered cmp r
  end.

(** Seat [i] is still in the hand and its hole cards with the board
    evaluate to [h]. *)
Definition seatHand (g : GameState) (i : nat) (h : HandEval) : Prop :=
  exists p, players g !! i = Some p /\ inHand p = true /\
            evaluateHand (hand p ++ communityCards g) = Some h.

(** Seat [i] is in the hand and no seat in the hand holds a stronger hand. *)
Definition bestSeat (g : GameState) (i : nat) : Prop :=
  exists h, seatHand g i h /\
            forall j hj, seatHand g j hj -> compareHands h hj <= 0.

(** The comparator of the showdown sort. *)
Definition byHand (a b : nat * HandEval) : Z := compareHands (snd a) (snd b).

(** One move of a hand before any payout: an action of the human seat
    (accepted or refused), an action of the policy that does not end in an
    early win, or a phase advance other than the one out of the river. *)
Inductive bettingStep (policy : Player -> GameState -> option Decision)
  : GameState -> GameState -> Prop :=
| humanActs (playerName : string) (a : Action) (amt : option Z) (g g' : GameState) :
    handlePlayerAction playerName a amt g = Some g' ->
    bettingStep policy g g'
| policyActs (g s : GameState) :
    aiActed policy g = Some s -> earlyWinner s = None ->
    bettingStep policy g (aiFinish s)
| phaseAdvances (g g' : GameState) :
    phase g <> river -> advancePhase g = Some g' ->
    bettingStep policy g g'.

(** What a raise to [a] by seat [i] does, from state [g] to state [g']:
    the raiser's bet becomes [min a (chips + bet)], its stack pays the
    difference, it has acted, and nothing else of it changes except
    possibly the all-in flag; the current bet is that total; every other
    seat keeps all its fields, but for [hasActed], which is cleared when
    the seat can still act. *)
Definition raiseContract (i : nat) (a : Z) (g g' : GameState) : Prop :=
  exists p p',
    players g !! i = Some p /\ players g' !! i = Some p' /\
    let totalBet := Z.min a (chips p + bet p) in
    bet p' = totalBet /\
    chips p' = chips p - (totalBet - bet p) /\
    hasActed p' = true /\
    setAllIn (allIn p) p' = setHasActed true (setBet totalBet
                              (setChips (chips p - (totalBet - bet p)) p)) /\
    currentBet g' = totalBet /\
    length (players g') = length (players g) /\
    forall j q, j <> i -> players g !! j = Some q ->
      players g' !! j = Some (if canAct q then setHasActed false q else q).

(** * Tables used as examples *)

Definition card (r : string) (s : Suit) (v : Z) : option Card := Some (Card.mk r s v).

(** A connected seat that is not all-in and not eliminated. *)
Definition seatOf (who : string) (at_ : nat) (stack wager : Z) (isFolded acted : bool)
           (holeCards : list (option Card)) : Player :=
  Player.mk who who stack holeCards wager isFolded false at_ true acted false.

(** A table of the standard mode with blinds 10/20 and the dealer at seat
    [dealer]. *)
Definition tableOf (seats : list Player) (board : list (option Card))
           (inPot toMatch : Z) (ph : Phase) (active dealer : nat) (closed : bool)
  : GameState :=
  Game.mk "game" seats board inPot toMatch ph active dealer 10 20 standard
          None None orderedDeck 0 closed 1.

(** The two Two Pair hands of the evaluator table. *)
Definition kingsAndQueens : list (option Card) :=
  [card "K" Clubs 13; card "K" Diamonds 13; card "Q" Clubs 12; card "Q" Diamonds 12;
   card "2" Hearts 2].
Definition kingsAndJacks : list (option Card) :=
  [card "K" Clubs 13; card "K" Diamonds 13; card "J" Clubs 11; card "J" Diamonds 11;
   card "A" Hearts 14].

(** Three seats before the flop, dealer at seat 0: seat 1 posted the small
    blind, seat 2 the big blind, and "Hero" at seat 0 is to act. *)
Definition threeHanded : GameState :=
  tableOf [seatOf "Hero" 0 1000 0 false false [];
           seatOf "Player 1" 1 990 10 false false [];
           seatOf "Player 2" 2 980 20 false true []]
          [] 0 20 preflop 0 0 false.

(** Later in that round: "Hero" had raised to 60, seat 1 folded its small
    blind and seat 2 re-raised to 200, so "Hero" is to act again. *)
Definition headsUpLeft : GameState :=
  tableOf [seatOf "Hero" 0 940 60 false false [];
           seatOf "Player 1" 1 990 10 true true [];
           seatOf "Player 2" 2 800 200 false true []]
          [] 0 200 preflop 0 0 false.

(** Two seats before the flop, dealer at seat 0: "Hero" posted the big
    blind and has [stack] chips behind, seat 1 raised to 510, and "Hero"
    is to act. *)
Definition facingRaise (stack : Z) : GameState :=
  tableOf [seatOf "Hero" 0 stack 20 false false [];
           seatOf "Player 1" 1 490 510 false true []]
          [] 0 510 preflop 0 0 false.

(** The scenario of six seats with stacks of 1000: dealer at seat 1, seat
    2 posted the small blind, seat 3 the big blind, seat 4 is to act. *)
Definition sixHanded : GameState :=
  tableOf [seatOf "Player 0" 0 1000 0 false false [];
           seatOf "Player 1" 1 1000 0 false false [];
           seatOf "Player 2" 2 990 10 false false [];
           seatOf "Player 3" 3 980 20 false true [];
           seatOf "Hero" 4 1000 0 false false [];
           seatOf "Player 5" 5 1000 0 false false []]
          [] 0 20 preflop 4 1 false.

(** The river with the round closed and 75 chips in the pot: seats 0 and 1
    both play ace-king-jack-nine-seven with the board, seat 2 has folded. *)
Definition riverBoard : list (option Card) :=
  [card "2" Clubs 2; card "7" Diamonds 7; card "9" Hearts 9; card "J" Spades 11;
   card "K" Clubs 13].
Definition riverTie : GameState :=
  tableOf [seatOf "Hero" 0 975 0 false true [card "A" Spades 14; card "3" Hearts 3];
           seatOf "Player 1" 1 975 0 false true [card "A" Hearts 14; card "3" Diamonds 3];
           seatOf "Player 2" 2 975 0 true true [card "4" Hearts 4; card "3" Clubs 3]]
          riverBoard 75 0 river 0 2 true.

(** The same river when seat 1 holds a pair of kings instead. *)
Definition riverWin : GameState :=
  tableOf [seatOf "Hero" 0 975 0 false true [card "A" Spades 14; card "3" Hearts 3];
           seatOf "Player 1" 1 975 0 false true [card "K" Hearts 13; card "3" Diamonds 3];
           seatOf "Player 2" 2 975 0 true true [card "4" Hearts 4; card "3" Clubs 3]]
          riverBoard 75 0 river 0 2 true.

(** Policies that always answer the same. *)
Definition alwaysFold : Player -> GameState -> option Decision :=
  fun _ _ => Some (mkDecision fold None).
Definition alwaysCall : Player -> GameState -> option Decision :=
  fun _ _ => Some (mkDecision call None).
Definition alwaysRaiseTo (a : Z) : Player -> GameState -> option Decision :=
  fun _ _ => Some (mkDecision raise (Some a)).

(** Three seats before the flop with the round closed at 20 each, dealer
    at seat 0. *)
Definition closedPreflop : GameState :=
  tableOf [seatOf "Hero" 0 980 20 false true [];
           seatOf "Player 1" 1 980 20 false true [];
           seatOf "Player 2" 2 980 20 false true []]
          [] 0 20 preflop 0 0 true.

(** Three seats before the flop, dealer at seat 0, where seats 0 and 2
    came with 20 chips each: seat 2 is all-in on the big blind, seat 0 went
    all-in over it, and "Hero" at seat 1 then folded the small blind,
    which closed the round. *)
Definition allInAroundFold : GameState :=
  tableOf [setAllIn true (seatOf "Player 0" 0 0 20 false true []);
           seatOf "Hero" 1 990 10 true true [];
           setAllIn true (seatOf "Player 2" 2 0 20 false true [])]
          [] 0 20 preflop 1 0 true.

(** A table of three as [initializeGame] makes it, with a random source
    that leaves the deck in order. *)
Definition freshTable : GameState :=
  initializeGame "0" (fun i => i) ["Hero"; "Player 1"; "Player 2"]%string standard.

(** After the showdown of [riverWin]: seat 1 has taken the pot. *)
Definition afterShowdown : GameState :=
  tableOf [seatOf "Hero" 0 975 0 false true [card "A" Spades 14; card "3" Hearts 3];
           seatOf "Player 1" 1 1050 0 false true [card "K" Hearts 13; card "3" Diamonds 3];
           seatOf "Player 2" 2 975 0 true true [card "4" Hearts 4; card "3" Clubs 3]]
          riverBoard 0 0 showdown 0 2 true.

(** After a showdown that left all the chips at seat 0; seat 2 had folded. *)
Definition heroTookAll : GameState :=
  tableOf [seatOf "Hero" 0 3000 0 false true [];
           seatOf "Player 1" 1 0 0 false true [];
           seatOf "Player 2" 2 0 0 true true []]
          riverBoard 0 0 showdown 0 2 true.

(** Two hands with a pair of kings: beside it one has an ace, the other
    nothing above a seven. *)
Definition kingsWithAce : list (option Card) :=
  [card "K" Clubs 13; card "K" Diamonds 13; card "A" Hearts 14; card "5" Spades 5;
   card "3" Clubs 3].
Definition kingsWithSeven : list (option Card) :=
  [card "K" Hearts 13; card "K" Spades 13; card "7" Diamonds 7; card "4" Clubs 4;
   card "2" Spades 2].

(** The seven cards of seat 1 at [riverWin]. *)
Definition sevenCards : list (option Card) :=
  [card "K" Hearts 13; card "3" Diamonds 3] ++ riverBoard.

(** Heads-up before the flop, dealer "Hero" at seat 0, both seats all-in
    for 1000 and the round closed. *)
Definition allInHeadsUp : GameState :=
  tableOf [setAllIn true (seatOf "Hero" 0 0 1000 false true []);
           setAllIn true (seatOf "Player 1" 1 0 1000 false true [])]
          [] 0 1000 preflop 0 0 true.

(** The raise [makeAIDecision] answers with a premium hand,
    [Math.floor(Math.min(currentBet + Math.max(bigBlind * 2,
    currentPot * 0.3), chips + bet))], for a seat whose stack and bet
    together do not exceed the bet to match: the minimum is then
    [chips + bet]. *)
Definition shortStackRaise : Player -> GameState -> option Decision :=
  fun player _ => Some (mkDecision raise (Some (chips player + bet player))).

(** Six seats before the flop at hand 7, dealer "Hero" at seat 0.  Seat
    1 posted the small blind from a stack of 110 and holds a pair of aces,
    seat 2 posted the big blind, seats 3, 4 and 5 folded, "Hero" raised
    to 510, and seat 1 is to act. *)
Definition shortStackFacingRaise : GameState :=
  setHandNumber 7
    (tableOf [seatOf "Hero" 0 1380 510 false true [];
              seatOf "Player 1" 1 100 10 false false
                     [card "A" Spades 14; card "A" Hearts 14];
              seatOf "Player 2" 2 980 20 false false [];
              seatOf "Player 3" 3 1000 0 true true [];
              seatOf "Player 4" 4 1000 0 true true [];
              seatOf "Player 5" 5 1000 0 true true []]
             [] 0 510 preflop 1 0 false).

(** * Notions used by the further properties *)

(** The seat [k] places after [from], going round a table of [n] seats. *)
Definition seatAfter (from k n : nat) : nat := (from + 1 + k) mod n.

(** Seat [i] is the first seat after [from], going round the table, that
    satisfies [qualifies]. *)
Definition nearestAfter (qualifies : Player -> bool) (ps : list Player)
           (from i : nat) : Prop :=
  exists a,
    (a < length ps)%nat /\ i = seatAfter from a (length ps) /\
    (exists p, ps !! i = Some p /\ qualifies p = true) /\
    forall k p, (k < a)%nat -> ps !! seatAfter from k (length ps) = Some p ->
                qualifies p = false.

(** From [g] to [g'] every seat other than [i] keeps all its fields,
    except that [hasActed] may have been cleared. *)
Definition othersKept (i : nat) (g g' : GameState) : Prop :=
  length (players g') = length (players g) /\
  forall j q, j <> i -> players g !! j = Some q ->
    exists q', players g' !! j = Some q' /\
               setHasActed (hasActed q) q' = q /\
               (hasActed q' = true -> hasActed q = true).

(** The human seat [playerName] is the seat to act. *)
Definition hasTurn (playerName : string) (g : GameState) : Prop :=
  playerName <> ""%string /\
  findIndex (fun p => String.eqb (name p) playerName) (players g)
    = Some (activePlayerIndex g).

(** From [g] to [g'] nothing of the table changed but, possibly, the
    seats, the current bet, the round-closed flag and the turn. *)
Definition tableKept (g g' : GameState) : Prop :=
  communityCards g' = communityCards g /\ pot g' = pot g /\ phase g' = phase g /\
  dealerIndex g' = dealerIndex g /\ smallBlind g' = smallBlind g /\
  bigBlind g' = bigBlind g /\ winner g' = winner g /\
  tournamentWinner g' = tournamentWinner g /\ deck g' = deck g /\
  deckIndex g' = deckIndex g /\ handNumber g' = handNumber g.

(** How many cards the advance out of a phase deals. *)
Definition dealtCount (ph : Phase) : nat :=
  match ph with
  | preflop => 3
  | flop => 1
  | turn => 1
  | _ => 0
  end.

(** The phase after an accepted advance. *)
Definition nextPhase (ph : Phase) : Phase :=
  match ph with
  | preflop => flop
  | flop => turn
  | turn => river
  | river => showdown
  | other => other
  end.

(** [n] deck entries from the cursor [i] on, as [deck[i]] reads them. *)
Definition deckSlice (deck_ : list Card) (i n : nat) : list (option Card) :=
  map (fun k => deck_ !! k) (seq i n).

(** The state of [advancePhase] on entry to its closing [while]: bets
    collected, cards dealt, the turn at the first seat after the dealer. *)
Definition beforeSettle (g s : GameState) : Prop :=
  exists dealt first,
    dealPhase g (collectBets g) = Some dealt /\
    phase dealt <> showdown /\
    firstToAct dealt = Some first /\
    s = setActivePlayerIndex first dealt.

(** [!p.eliminated] *)
Definition notEliminated (p : Player) : bool := negb (eliminated p).

(** The seats still in the tournament, in seat order. *)
Definition stillIn (ps : list Player) : list nat := refs notEliminated ps.

(** The sum of the stacks. *)
Definition stacksOf (ps : list Player) : Z :=
  fold_left (fun sum p => sum + chips p) ps 0.

(** The hole cards dealt to the [k]-th seat still in the tournament when
    the cursor starts at [c]. *)
Definition holeCards (deck_ : list Card) (c k : nat) : list (option Card) :=
  [deck_ !! (c + 2 * k)%nat; deck_ !! S (c + 2 * k)].

(** [q] is [p] as [dealCards] leaves a seat that posts [blind]: the stack
    pays the smaller of the blind and itself into the bet, the seat is
    all-in exactly when nothing is left, [hasActed] is [acted], and the
    rest is as dealt. *)
Definition postedBlind (blind : Z) (acted : bool) (p q : Player) : Prop :=
  let amount := Z.min blind (chips p) in
  bet q = amount /\ chips q = chips p - amount /\
  allIn q = (chips p - amount =? 0) /\ hasActed q = acted /\
  folded q = false /\ eliminated q = false.

(** A seat that is in the tournament after [checkForEliminations]: not
    eliminated before, and with chips. *)
Definition survives (p : Player) : bool :=
  negb (eliminated p) && negb (chips p =? 0).

(** The keys of a rank table go up strictly, the order in which
    JavaScript enumerates the integer keys of an object. *)
Fixpoint keysAscend (m : RankCounts) : Prop :=
  match m with
  | [] => True
  | e :: m' => Forall (fun e' => fst e < fst e') m' /\ keysAscend m'
  end.

(** How many of the cards have the value [v]. *)
Definition occurrences (v : Z) (cs : list Card) : Z :=
  Z.of_nat (length (List.filter (fun c => Card.value c =? v) cs)).

(** The card values of a hand from the highest down, as [sorted] has
    them. *)
Definition valuesDown (cs : list Card) : list Z :=
  map Card.value (jsSort (fun a b => Card.value b - Card.value a) cs).

(** [rankCounts] after the [forEach] over [cards], from the table [m]. *)
Definition countRanks (cards : list Card) (m : RankCounts) : RankCounts :=
  fold_left (fun m card => bump (Card.value card) m) cards m.

(** Cards are compared field by field. *)
#[global] Instance Card_eq_dec : EqDecision Card.
Proof.
  intros [r1 s1 v1] [r2 s2 v2].
  destruct (String.string_dec r1 r2) as [->|N]; [|right; congruence].
  destruct (decide (s1 = s2)) as [->|N]; [|right; congruence].
  destruct (Z.eq_dec v1 v2) as [->|N]; [left; reflexivity | right; congruence].
Defined.

(** * Properties *)

(** ** Round closure *)

Lemma canAct_not_allIn (p : Player) : canAct p = true -> allIn p = false.
Proof.
  unfold canAct. destruct (folded p), (allIn p), (eliminated p); simpl; congruence.
Qed.

Lemma forallb_match_bet (cb : Z) (l : list Player) :
  Forall (fun p => canAct p = true) l ->
  forallb (fun p => (bet p =? cb) || allIn p) l = true <->
  Forall (fun p => bet p = cb) l.
Proof.
  induction 1 as [|p l Hp _ IH]; simpl.
  - split; [constructor | reflexivity].
  - rewrite andb_true_iff, IH, Forall_cons, (canAct_not_allIn p Hp), orb_false_r.
    rewrite Z.eqb_eq. reflexivity.
Qed.

Lemma forallb_hasActed (l : list Player) :
  forallb hasActed l = true <-> Forall (fun p => hasActed p = true) l.
Proof.
  induction l as [|p l IH]; simpl.
  - split; [constructor | reflexivity].
  - rewrite andb_true_iff, IH, Forall_cons. reflexivity.
Qed.

Lemma filter_all_canAct (ps : list Player) :
  Forall (fun p => canAct p = true) (List.filter canAct ps).
Proof.
  induction ps as [|p ps IH]; simpl; [constructor|].
  destruct (canAct p) eqn:E; [constructor|]; assumption.
Qed.

(** C5.  The round is reported closed exactly when at most one seat can
    still act (not folded, not all-in, not eliminated), or every such seat
    has acted and has a bet equal to the current bet. *)
Theorem isBettingComplete_iff (game : GameState) :
  let contenders := List.filter canAct (players game) in
  isBettingComplete game = true <->
  (length contenders <= 1)%nat \/
  (Forall (fun p => hasActed p = true) contenders /\
   Forall (fun p => bet p = currentBet game) contenders).
Proof.
  cbv zeta. unfold isBettingComplete.
  pose proof (filter_all_canAct (players game)) as Hall.
  revert Hall. generalize (List.filter canAct (players game)) as contenders.
  intros contenders Hall.
  destruct (Nat.leb_spec (length contenders) 1) as [Hle|Hgt].
  - split; [left; exact Hle | reflexivity].
  - rewrite andb_true_iff, forallb_hasActed, (forallb_match_bet _ _ Hall).
    split; [intros H; right; exact H | intros [H|H]; [lia | exact H]].
Qed.

(** ** The circular scans *)

Lemma scanLoop_inv (qualifies : Player -> bool) (ps : list Player) :
  forall left next attempts : nat,
    (next < length ps)%nat ->
    match scanLoop qualifies ps left next attempts with
    | Found index a =>
        (index < length ps)%nat /\ (attempts <= a < attempts + left)%nat /\
        exists p, ps !! index = Some p /\ qualifies p = true
    | Exhausted a => a = (attempts + left)%nat
    | ReadOutside => False
    end.
Proof.
  induction left as [|left IH]; intros next attempts Hnext; simpl.
  - lia.
  - destruct (lookup_lt_is_Some_2 ps next Hnext) as [p Hp]. rewrite Hp.
    destruct (qualifies p) eqn:Hq.
    + split; [exact Hnext|]. split; [lia|]. exists p. split; assumption.
    + assert (Hlt : ((next + 1) mod length ps < length ps)%nat)
        by (apply Nat.mod_upper_bound; lia).
      specialize (IH _ (S attempts) Hlt).
      destruct (scanLoop qualifies ps left _ (S attempts)) as [i a| a|].
      * destruct IH as (Hi & Ha & Hex). split; [exact Hi|]. split; [lia|exact Hex].
      * lia.
      * exact IH.
Qed.

Lemma scanLoop_none (qualifies : Player -> bool) (ps : list Player) :
  Forall (fun p => qualifies p = false) ps ->
  forall left next attempts : nat,
    (next < length ps)%nat ->
    scanLoop qualifies ps left next attempts = Exhausted (attempts + left).
Proof.
  intros Hall. induction left as [|left IH]; intros next attempts Hnext; simpl.
  - f_equal. lia.
  - destruct (lookup_lt_is_Some_2 ps next Hnext) as [p Hp]. rewrite Hp.
    rewrite (proj1 (Forall_lookup _ ps) Hall next p Hp).
    rewrite IH by (apply Nat.mod_upper_bound; lia). f_equal. lia.
Qed.

Lemma scanLoop_bounded (qualifies : Player -> bool) (ps : list Player) (from : nat) :
  boundedScan qualifies ps from
    (scanLoop qualifies ps (length ps) ((from + 1) mod length ps) 0).
Proof.
  unfold boundedScan. destruct ps as [|p0 ps'].
  - simpl. repeat split; try discriminate; try lia.
  - set (ps := p0 :: ps').
    assert (Hlt : ((from + 1) mod length ps < length ps)%nat)
      by (apply Nat.mod_upper_bound; discriminate).
    pose proof (scanLoop_inv qualifies ps (length ps) _ 0%nat Hlt) as Hinv.
    split; [|split; [|split]].
    + intros E. rewrite E in Hinv. exact Hinv.
    + destruct (scanLoop qualifies ps (length ps) _ 0%nat); simpl; simpl in Hinv; lia.
    + intros index a E. rewrite E in Hinv. destruct Hinv as (Hi & _ & Hex).
      split; assumption.
    + intros Hall. rewrite (scanLoop_none _ _ Hall _ _ _ Hlt). reflexivity.
Qed.

(** C9.  The next-active-seat scan and the dealer-rotation scan never read
    outside the seat array, probe at most as many seats as the table has
    (one full cycle), return only a seat that qualifies, and return the
    index they started from when no seat qualifies. *)
Theorem circular_scans_bounded (game : GameState) :
  boundedScan canAct (players game) (activePlayerIndex game) (activeScan game) /\
  boundedScan (fun p => negb (eliminated p)) (players game) (dealerIndex game)
              (dealerScan game) /\
  (Forall (fun p => canAct p = false) (players game) ->
   getNextActivePlayer game = activePlayerIndex game) /\
  (Forall (fun p => eliminated p = true) (players game) ->
   getNextDealerIndex game = dealerIndex game).
Proof.
  pose proof (scanLoop_bounded canAct (players game) (activePlayerIndex game)) as Ha.
  pose proof (scanLoop_bounded (fun p => negb (eliminated p)) (players game)
                               (dealerIndex game)) as Hd.
  split; [exact Ha|]. split; [exact Hd|]. split.
  - intros Hall. apply Ha. exact Hall.
  - intros Hall. apply Hd. eapply Forall_impl; [exact Hall|].
    intros p Hp. simpl. rewrite Hp. reflexivity.
Qed.

(** ** The comparator *)

Lemma kickerLoop_char (ks1 ks2 : list Z) :
  forall fuel i : nat,
    (kickerLoop fuel i ks1 ks2 = 0 /\
     forall j, (i <= j < i + fuel)%nat -> kickerAt ks1 j = kickerAt ks2 j) \/
    (exists j, (i <= j < i + fuel)%nat /\
       (forall j', (i <= j' < j)%nat -> kickerAt ks1 j' = kickerAt ks2 j') /\
       kickerAt ks1 j <> kickerAt ks2 j /\
       kickerLoop fuel i ks1 ks2 = kickerAt ks2 j - kickerAt ks1 j).
Proof.
  induction fuel as [|fuel IH]; intros i; simpl.
  - left. split; [reflexivity | intros j Hj; lia].
  - destruct (Z.eqb_spec (kickerAt ks1 i) (kickerAt ks2 i)) as [E|N]; simpl.
    + destruct (IH (S i)) as [[H0 Hall] | (j & Hj & Hbefore & Hne & Hres)].
      * left. split; [exact H0|]. intros j Hj.
        destruct (Nat.eq_dec j i) as [->|]; [exact E | apply Hall; lia].
      * right. exists j. split; [lia|]. split; [|split; assumption].
        intros j' Hj'. destruct (Nat.eq_dec j' i) as [->|]; [exact E | apply Hbefore; lia].
    + right. exists i. split; [lia|]. split; [intros j' Hj'; lia|]. split; [exact N | reflexivity].
Qed.

Lemma kickerAt_past (ks : list Z) (j : nat) :
  (length ks <= j)%nat -> kickerAt ks j = 0.
Proof.
  intros H. unfold kickerAt. rewrite (lookup_ge_None_2 ks j H). reflexivity.
Qed.

(** On equal categories the result is decided by the first difference of
    the kicker sequences, and is 0 when there is none. *)
Lemma compareHands_same_rank (h1 h2 : HandEval) :
  Hand.rank h1 = Hand.rank h2 ->
  (compareHands h1 h2 = 0 /\ forall j, kickerSeq h1 j = kickerSeq h2 j) \/
  (exists j, firstDifference h1 h2 j /\
             compareHands h1 h2 = kickerSeq h2 j - kickerSeq h1 j).
Proof.
  intros Hr. unfold compareHands, firstDifference, kickerSeq.
  rewrite Hr, Z.eqb_refl. simpl.
  set (n := Nat.max (length (Hand.kickers h1)) (length (Hand.kickers h2))).
  destruct (kickerLoop_char (Hand.kickers h1) (Hand.kickers h2) n 0)
    as [[H0 Hall] | (j & Hj & Hbefore & Hne & Hres)].
  - left. split; [exact H0|]. intros j.
    destruct (Nat.lt_ge_cases j n) as [Hlt|Hge]; [apply Hall; lia|].
    rewrite !kickerAt_past by lia. reflexivity.
  - right. exists j. split; [split|]; [|exact Hne|exact Hres].
    intros i Hi. apply Hbefore. lia.
Qed.

Lemma compareHands_diff_rank (h1 h2 : HandEval) :
  Hand.rank h1 <> Hand.rank h2 ->
  compareHands h1 h2 = Hand.rank h2 - Hand.rank h1.
Proof.
  intros Hr. unfold compareHands.
  destruct (Z.eqb_spec (Hand.rank h1) (Hand.rank h2)); [contradiction | reflexivity].
Qed.

Lemma firstDifference_unique (h1 h2 : HandEval) (j j' : nat) :
  firstDifference h1 h2 j -> firstDifference h1 h2 j' -> j = j'.
Proof.
  intros [Hb Hn] [Hb' Hn'].
  destruct (Nat.lt_trichotomy j j') as [H|[H|H]]; [|exact H|].
  - exfalso. apply Hn. apply Hb'. exact H.
  - exfalso. apply Hn'. apply Hb. exact H.
Qed.

(** The sign of a comparison, read off the category and the kicker
    sequences. *)
Lemma compareHands_neg_iff (h1 h2 : HandEval) :
  compareHands h1 h2 < 0 <->
  Hand.rank h2 < Hand.rank h1 \/
  (Hand.rank h1 = Hand.rank h2 /\
   exists j, firstDifference h1 h2 j /\ kickerSeq h2 j < kickerSeq h1 j).
Proof.
  destruct (Z.eq_dec (Hand.rank h1) (Hand.rank h2)) as [E|N].
  - destruct (compareHands_same_rank h1 h2 E) as [[H0 Hall] | (j & Hfd & Hres)].
    + rewrite H0. split; [lia|]. intros [H|(_ & j & [_ Hn] & _)]; [lia|].
      exfalso. apply Hn. apply Hall.
    + rewrite Hres. split.
      * intros H. right. split; [exact E|]. exists j. split; [exact Hfd | lia].
      * intros [H|(_ & j' & Hfd' & Hlt)]; [lia|].
        rewrite (firstDifference_unique _ _ _ _ Hfd Hfd'). lia.
  - rewrite (compareHands_diff_rank h1 h2 N). split.
    + intros H. left. lia.
    + intros [H|[H _]]; [lia | contradiction].
Qed.

Lemma compareHands_zero_iff (h1 h2 : HandEval) :
  compareHands h1 h2 = 0 <->
  Hand.rank h1 = Hand.rank h2 /\ forall j, kickerSeq h1 j = kickerSeq h2 j.
Proof.
  destruct (Z.eq_dec (Hand.rank h1) (Hand.rank h2)) as [E|N].
  - destruct (compareHands_same_rank h1 h2 E) as [[H0 Hall] | (j & [Hb Hn] & Hres)].
    + split; [intros _; split; assumption | intros _; exact H0].
    + rewrite Hres. split; [intros H; exfalso; apply Hn; lia|].
      intros [_ Hall]. exfalso. apply Hn. apply Hall.
  - rewrite (compareHands_diff_rank h1 h2 N). split; [lia | intros [H _]; contradiction].
Qed.

Lemma compareHands_antisym (h1 h2 : HandEval) :
  compareHands h2 h1 = - compareHands h1 h2.
Proof.
  destruct (Z.eq_dec (Hand.rank h1) (Hand.rank h2)) as [E|N].
  - destruct (compareHands_same_rank h1 h2 E) as [[H0 Hall] | (j & Hfd & Hres)].
    + rewrite H0. apply compareHands_zero_iff. split; [congruence|].
      intros j. symmetry. apply Hall.
    + destruct (compareHands_same_rank h2 h1 (eq_sym E))
        as [[_ Hall] | (j' & Hfd' & Hres')].
      * exfalso. destruct Hfd as [_ Hn]. apply Hn. symmetry. apply Hall.
      * assert (j' = j) as ->.
        { apply (firstDifference_unique h1 h2); [|exact Hfd].
          destruct Hfd' as [Hb Hn]. split; [intros i Hi; symmetry; apply Hb; exact Hi|].
          intros Heq. apply Hn. symmetry. exact Heq. }
        rewrite Hres, Hres'. lia.
  - rewrite (compareHands_diff_rank h1 h2 N).
    rewrite (compareHands_diff_rank h2 h1) by congruence. lia.
Qed.

Lemma compareHands_neg_trans (h1 h2 h3 : HandEval) :
  compareHands h1 h2 < 0 -> compareHands h2 h3 < 0 -> compareHands h1 h3 < 0.
Proof.
  rewrite !compareHands_neg_iff.
  intros [H12|(E12 & j & [Hb Hn] & Hlt)] [H23|(E23 & k & [Hb' Hn'] & Hlt')].
  - left. lia.
  - left. lia.
  - left. lia.
  - right. split; [congruence|].
    destruct (Nat.lt_trichotomy j k) as [H|[H|H]].
    + exists j. split; [split|].
      * intros i Hi. rewrite Hb by exact Hi. apply Hb'. lia.
      * rewrite <- (Hb' j H). exact Hn.
      * rewrite <- (Hb' j H). exact Hlt.
    + subst k. exists j. split; [split|].
      * intros i Hi. rewrite Hb by exact Hi. apply Hb'. exact Hi.
      * lia.
      * lia.
    + exists k. split; [split|].
      * intros i Hi. rewrite Hb by lia. apply Hb'. exact Hi.
      * rewrite (Hb k H). exact Hn'.
      * rewrite (Hb k H). exact Hlt'.
Qed.

Lemma compareHands_zero_l (h1 h2 h3 : HandEval) :
  compareHands h1 h2 = 0 -> compareHands h1 h3 = compareHands h2 h3.
Proof.
  rewrite compareHands_zero_iff. intros [E Hall].
  destruct (Z.eq_dec (Hand.rank h2) (Hand.rank h3)) as [E'|N].
  - destruct (compareHands_same_rank h2 h3 E') as [[H0 Hall'] | (j & [Hb Hn] & Hres)].
    + rewrite H0. apply compareHands_zero_iff. split; [congruence|].
      intros j. rewrite Hall. apply Hall'.
    + destruct (compareHands_same_rank h1 h3 (eq_trans E E'))
        as [[_ Hall'] | (j' & Hfd' & Hres')].
      * exfalso. apply Hn. rewrite <- Hall. apply Hall'.
      * assert (j' = j) as ->.
        { apply (firstDifference_unique h1 h3); [exact Hfd'|]. split.
          - intros i Hi. rewrite Hall. apply Hb. exact Hi.
          - rewrite Hall. exact Hn. }
        rewrite Hres, Hres', Hall. reflexivity.
  - rewrite (compareHands_diff_rank h2 h3 N).
    rewrite (compareHands_diff_rank h1 h3) by congruence. lia.
Qed.

Lemma compareHands_le_trans (h1 h2 h3 : HandEval) :
  compareHands h1 h2 <= 0 -> compareHands h2 h3 <= 0 -> compareHands h1 h3 <= 0.
Proof.
  intros H12 H23.
  destruct (Z.eq_dec (compareHands h1 h2) 0) as [E|N].
  - rewrite (compareHands_zero_l h1 h2 h3 E). exact H23.
  - destruct (Z.eq_dec (compareHands h2 h3) 0) as [E'|N'].
    + pose proof (compareHands_antisym h2 h3) as A23.
      pose proof (compareHands_antisym h1 h3) as A13.
      pose proof (compareHands_antisym h1 h2) as A12.
      assert (E3 : compareHands h3 h2 = 0) by lia.
      pose proof (compareHands_zero_l h3 h2 h1 E3) as Hz. lia.
    + pose proof (compareHands_neg_trans h1 h2 h3). lia.
Qed.


(** ** Sums over the seats *)

Lemma fold_left_sum_acc {A : Type} (f : A -> Z) (l : list A) (a : Z) :
  fold_left (fun sum p => sum + f p) l a = a + fold_left (fun sum p => sum + f p) l 0.
Proof.
  revert a. induction l as [|x l IH]; intros a; simpl; [lia|].
  rewrite (IH (a + f x)), (IH (0 + f x)). lia.
Qed.

Lemma seatChips_cons (p : Player) (ps : list Player) :
  seatChips (p :: ps) = holding p + seatChips ps.
Proof.
  unfold seatChips, holding. simpl.
  rewrite (fold_left_sum_acc (fun p => chips p + bet p)). lia.
Qed.

Lemma totalBetsOf_cons (p : Player) (ps : list Player) :
  totalBetsOf (p :: ps) = bet p + totalBetsOf ps.
Proof.
  unfold totalBetsOf. simpl. rewrite (fold_left_sum_acc bet). lia.
Qed.

Lemma seatChips_alter (f : Player -> Player) (ps : list Player) (i : nat) (p : Player) :
  ps !! i = Some p ->
  seatChips (alter f i ps) = seatChips ps + holding (f p) - holding p.
Proof.
  revert i. induction ps as [|q ps IH]; intros [|i] H; simpl in H; try discriminate.
  - injection H as ->. simpl. rewrite !seatChips_cons. lia.
  - change (alter f (S i) (q :: ps)) with (q :: alter f i ps).
    rewrite !seatChips_cons, (IH i H). lia.
Qed.

Lemma alter_outside {A : Type} (f : A -> A) (l : list A) (i : nat) :
  l !! i = None -> alter f i l = l.
Proof.
  revert i. induction l as [|x l IH]; intros [|i] H; simpl in H; try discriminate;
    try reflexivity.
  change (alter f (S i) (x :: l)) with (x :: alter f i l). rewrite (IH i H). reflexivity.
Qed.

Lemma seatChips_imap (f : nat -> Player -> Player) (ps : list Player) :
  (forall i p, holding (f i p) = holding p) ->
  seatChips (imap f ps) = seatChips ps.
Proof.
  revert f. induction ps as [|q ps IH]; intros f Hf; [reflexivity|].
  rewrite imap_cons, !seatChips_cons, Hf, IH; [reflexivity|].
  intros i p. apply Hf.
Qed.

Lemma seatChips_clear_bets (f : Player -> Player) (ps : list Player) :
  (forall p, chips (f p) = chips p /\ bet (f p) = 0) ->
  seatChips (map f ps) = seatChips ps - totalBetsOf ps /\
  totalBetsOf (map f ps) = 0.
Proof.
  intros Hf. induction ps as [|q ps [IH1 IH2]]; [split; reflexivity|].
  simpl. rewrite !seatChips_cons, !totalBetsOf_cons, IH1, IH2.
  unfold holding. destruct (Hf q) as [-> ->]. lia.
Qed.

(** ** Field assignments on the shared seat objects *)

Lemma assign_lookup (i : nat) (f : Player -> Player) (g : GameState) (p : Player) :
  players g !! i = Some p -> players (assign i f g) !! i = Some (f p).
Proof.
  intros H. simpl. rewrite list_lookup_alter_eq, H. reflexivity.
Qed.

Lemma assign_lookup_ne (i j : nat) (f : Player -> Player) (g : GameState) :
  i <> j -> players (assign i f g) !! j = players g !! j.
Proof.
  intros H. simpl. apply list_lookup_alter_ne. exact H.
Qed.

Lemma assign_total (i : nat) (f : Player -> Player) (g : GameState) (p : Player) :
  players g !! i = Some p ->
  totalChips (assign i f g) = totalChips g + holding (f p) - holding p.
Proof.
  intros H. unfold totalChips. simpl. rewrite (seatChips_alter f _ i p H). lia.
Qed.

Lemma reopenRound_lookup (i j : nat) (g : GameState) :
  players (reopenRound i g) !! j =
  (fun p => if negb (j =? i)%nat && canAct p then setHasActed false p else p)
    <$> players g !! j.
Proof.
  simpl. apply list_lookup_imap.
Qed.

Lemma reopenRound_total (i : nat) (g : GameState) :
  totalChips (reopenRound i g) = totalChips g.
Proof.
  unfold totalChips. simpl. rewrite seatChips_imap; [reflexivity|].
  intros j p. destruct (negb (j =? i)%nat && canAct p); reflexivity.
Qed.

(** ** Chips are only moved by an action

    Each assignment is followed through the shared seat object: the
    lookup after it, and the change of the total. *)

Lemma doFold_total (i : nat) (g g' : GameState) :
  doFold i g = Some g' -> totalChips g' = totalChips g.
Proof.
  unfold doFold. destruct (players g !! i) as [p|] eqn:H; [|discriminate].
  cbn [mbind option_bind]. intros [= <-].
  pose proof (assign_lookup i (setFolded true) g p H) as H1.
  rewrite (assign_total i _ _ _ H1), (assign_total i _ _ _ H).
  unfold holding. simpl. lia.
Qed.

Lemma doCall_total (i : nat) (g g' : GameState) :
  doCall i g = Some g' -> totalChips g' = totalChips g.
Proof.
  unfold doCall. destruct (players g !! i) as [p|] eqn:H; [|discriminate].
  cbn [mbind option_bind]. set (a := Z.min (currentBet g - bet p) (chips p)).
  set (g1 := assign i (fun q => setChips (chips q - a) q) g).
  set (g2 := assign i (fun q => setBet (bet q + a) q) g1).
  set (g3 := assign i (setHasActed true) g2).
  pose proof (assign_lookup i _ g p H : players g1 !! i = Some _) as H1.
  pose proof (assign_lookup i _ g1 _ H1 : players g2 !! i = Some _) as H2.
  pose proof (assign_lookup i _ g2 _ H2 : players g3 !! i = Some _) as H3.
  assert (T3 : totalChips g3 = totalChips g).
  { unfold g3. rewrite (assign_total i _ _ _ H2).
    unfold g2. rewrite (assign_total i _ _ _ H1).
    unfold g1. rewrite (assign_total i _ _ _ H).
    unfold holding. simpl. lia. }
  rewrite H3. cbn [mbind option_bind].
  destruct (a =? _); intros [= <-]; [|exact T3].
  rewrite (assign_total i _ _ _ H3), T3. unfold holding. simpl. lia.
Qed.

Lemma doRaise_total (i : nat) (amount : option Z) (g g' : GameState) :
  doRaise i amount g = Some g' -> totalChips g' = totalChips g.
Proof.
  unfold doRaise. destruct (raiseAccepted amount g) as [a|]; [|intros [= <-]; reflexivity].
  destruct (players g !! i) as [p|] eqn:H; [|discriminate].
  cbn [mbind option_bind]. set (t := Z.min a (chips p + bet p)).
  set (g1 := assign i (fun q => setChips (chips q - (t - bet p)) q) g).
  set (g2 := assign i (setBet t) g1).
  set (g3 := assign i (setHasActed true) g2).
  set (g5 := reopenRound i (setCurrentBet t g3)).
  pose proof (assign_lookup i _ g p H : players g1 !! i = Some _) as H1.
  pose proof (assign_lookup i _ g1 _ H1 : players g2 !! i = Some _) as H2.
  pose proof (assign_lookup i _ g2 _ H2 : players g3 !! i = Some _) as H3.
  assert (T5 : totalChips g5 = totalChips g).
  { unfold g5. rewrite reopenRound_total.
    change (totalChips (setCurrentBet t g3)) with (totalChips g3).
    unfold g3. rewrite (assign_total i _ _ _ H2).
    unfold g2. rewrite (assign_total i _ _ _ H1).
    unfold g1. rewrite (assign_total i _ _ _ H).
    unfold holding. simpl. lia. }
  assert (H5 : exists q, players g5 !! i = Some q).
  { unfold g5. rewrite reopenRound_lookup.
    change (players (setCurrentBet t g3)) with (players g3). rewrite H3. eauto. }
  destruct H5 as [q H5]. rewrite H5. cbn [mbind option_bind].
  destruct (t - bet p =? chips q); intros [= <-]; [|exact T5].
  rewrite (assign_total i _ _ _ H5), T5. unfold holding. simpl. lia.
Qed.

Lemma doAllIn_total (i : nat) (g g' : GameState) :
  doAllIn i g = Some g' -> totalChips g' = totalChips g.
Proof.
  unfold doAllIn. destruct (players g !! i) as [p|] eqn:H; [|discriminate].
  cbn [mbind option_bind]. set (t := chips p + bet p).
  set (g1 := assign i (setChips 0) g).
  set (g2 := assign i (setBet t) g1).
  set (g3 := assign i (setAllIn true) g2).
  set (g4 := assign i (setHasActed true) g3).
  pose proof (assign_lookup i _ g p H : players g1 !! i = Some _) as H1.
  pose proof (assign_lookup i _ g1 _ H1 : players g2 !! i = Some _) as H2.
  pose proof (assign_lookup i _ g2 _ H2 : players g3 !! i = Some _) as H3.
  assert (T4 : totalChips g4 = totalChips g).
  { unfold g4. rewrite (assign_total i _ _ _ H3).
    unfold g3. rewrite (assign_total i _ _ _ H2).
    unfold g2. rewrite (assign_total i _ _ _ H1).
    unfold g1. rewrite (assign_total i _ _ _ H).
    unfold holding, t. simpl. lia. }
  destruct (currentBet g <? t); intros [= <-]; [|exact T4].
  rewrite reopenRound_total. exact T4.
Qed.

Lemma playerSwitch_total (a : Action) (amount : option Z) (i : nat) (g g' : GameState) :
  playerSwitch a amount i g = Some g' -> totalChips g' = totalChips g.
Proof.
  destruct a; simpl.
  - apply doFold_total.
  - apply doCall_total.
  - apply doRaise_total.
  - apply doAllIn_total.
Qed.

Lemma aiSwitch_total (d : Decision) (i : nat) (g g' : GameState) :
  aiSwitch d i g = Some g' -> totalChips g' = totalChips g.
Proof.
  unfold aiSwitch. destruct (action d).
  - apply doFold_total.
  - apply doCall_total.
  - apply doRaise_total.
  - intros [= <-]. reflexivity.
Qed.

Lemma closeOrPass_total (g : GameState) : totalChips (closeOrPass g) = totalChips g.
Proof.
  unfold closeOrPass. simpl. destruct (isBettingComplete g); reflexivity.
Qed.

Lemma closeOrPass_keeps (g : GameState) :
  players (closeOrPass g) = players g /\ pot (closeOrPass g) = pot g /\
  currentBet (closeOrPass g) = currentBet g /\ phase (closeOrPass g) = phase g /\
  winner (closeOrPass g) = winner g.
Proof.
  unfold closeOrPass. simpl. destruct (isBettingComplete g); simpl; repeat split.
Qed.

Lemma handlePlayerAction_total (playerName : string) (a : Action) (amount : option Z)
      (g g' : GameState) :
  handlePlayerAction playerName a amount g = Some g' -> totalChips g' = totalChips g.
Proof.
  unfold handlePlayerAction.
  destruct (String.eqb playerName ""); [intros [= <-]; reflexivity|].
  destruct (findIndex _ (players g)) as [i|]; [|intros [= <-]; reflexivity].
  destruct (negb (i =? activePlayerIndex g)%nat); [intros [= <-]; reflexivity|].
  destruct (playerSwitch a amount i g) as [s|] eqn:Hs; [|discriminate].
  simpl. intros [= <-]. rewrite closeOrPass_total.
  exact (playerSwitch_total _ _ _ _ _ Hs).
Qed.

(** ** Seat references *)

Lemma elem_of_refsFrom (f : Player -> bool) (ps : list Player) :
  forall (k i : nat),
    i ∈ refsFrom f k ps <->
    exists j p, i = (k + j)%nat /\ ps !! j = Some p /\ f p = true.
Proof.
  induction ps as [|q ps IH]; intros k i; simpl.
  - split; [intros H; inversion H | intros (j & p & _ & H & _); discriminate].
  - assert (Hrec : i ∈ refsFrom f (S k) ps <->
                   exists j p, i = (k + S j)%nat /\ ps !! j = Some p /\ f p = true).
    { rewrite IH. split; intros (j & p & E & H); exists j, p; (split; [lia | exact H]). }
    destruct (f q) eqn:Hq.
    + rewrite elem_of_cons, Hrec. split.
      * intros [->|(j & p & E & H)].
        -- exists 0%nat, q. split; [lia|]. split; [reflexivity | exact Hq].
        -- exists (S j), p. split; [exact E | exact H].
      * intros ([|j] & p & E & H & Hp).
        -- left. lia.
        -- right. exists j, p. split; [exact E|]. split; [exact H | exact Hp].
    + rewrite Hrec. split.
      * intros (j & p & E & H). exists (S j), p. split; [exact E | exact H].
      * intros ([|j] & p & E & H & Hp).
        -- simpl in H. injection H as ->. congruence.
        -- exists j, p. split; [exact E|]. split; [exact H | exact Hp].
Qed.

Lemma elem_of_refs (f : Player -> bool) (ps : list Player) (i : nat) :
  i ∈ refs f ps <-> exists p, ps !! i = Some p /\ f p = true.
Proof.
  unfold refs. rewrite elem_of_refsFrom. split.
  - intros (j & p & -> & H). exists p. exact H.
  - intros (p & H). exists i, p. split; [reflexivity | exact H].
Qed.

Lemma NoDup_refsFrom (f : Player -> bool) (ps : list Player) (k : nat) :
  NoDup (refsFrom f k ps).
Proof.
  revert k. induction ps as [|q ps IH]; intros k; simpl; [constructor|].
  destruct (f q); [|apply IH].
  constructor; [|apply IH].
  rewrite elem_of_refsFrom. intros (j & p & E & _). lia.
Qed.

(** ** The early win of the policy path *)

Lemma totalBetsOf_alter (f : Player -> Player) (ps : list Player) (i : nat) :
  (forall p, bet (f p) = bet p) -> totalBetsOf (alter f i ps) = totalBetsOf ps.
Proof.
  intros Hf. revert i. induction ps as [|q ps IH]; intros [|i]; try reflexivity.
  - simpl. rewrite !totalBetsOf_cons, Hf. reflexivity.
  - change (alter f (S i) (q :: ps)) with (q :: alter f i ps).
    rewrite !totalBetsOf_cons, IH. reflexivity.
Qed.

Lemma earlyWinner_seat (s : GameState) (w : nat) :
  earlyWinner s = Some w ->
  bettingComplete s = true /\ refs inHand (players s) = [w] /\
  exists p, players s !! w = Some p /\ inHand p = true.
Proof.
  unfold earlyWinner. destruct (bettingComplete s); [|discriminate].
  destruct (refs inHand (players s)) as [|w' [|? ?]] eqn:E; try discriminate.
  intros [= ->]. split; [reflexivity|]. split; [reflexivity|].
  apply elem_of_refs. rewrite E. apply elem_of_cons. left. reflexivity.
Qed.

(** After the early payout the winner holds the former pot and every live
    bet on top of its stack; all bets are cleared; the [pot] field keeps
    the amount paid. *)
Lemma payEarly_effect (w : nat) (s : GameState) (p : Player) :
  players s !! w = Some p ->
  let paid := pot s + totalBetsOf (players s) in
  seatChips (players (payEarly w s)) = totalChips s /\
  totalBetsOf (players (payEarly w s)) = 0 /\
  pot (payEarly w s) = paid /\
  phase (payEarly w s) = showdown /\
  winner (payEarly w s) = Some w /\
  (exists p', players (payEarly w s) !! w = Some p' /\ chips p' = chips p + paid) /\
  (forall j q, j <> w -> players s !! j = Some q ->
     exists q', players (payEarly w s) !! j = Some q' /\ chips q' = chips q).
Proof.
  intros H paid. unfold payEarly. simpl.
  set (ps1 := alter (fun q => setChips (chips q + (pot s + totalBetsOf (players s))) q)
                    w (players s)).
  destruct (seatChips_clear_bets (setBet 0) ps1) as [Hs Hb];
    [intros q; split; reflexivity|].
  split; [|split; [exact Hb|]].
  - rewrite Hs. unfold ps1.
    rewrite (seatChips_alter _ _ w p H), totalBetsOf_alter by reflexivity.
    unfold totalChips, holding. simpl. lia.
  - split; [reflexivity|]. split; [reflexivity|]. split; [reflexivity|]. split.
    + eexists. split.
      * rewrite list_lookup_fmap. unfold ps1. rewrite list_lookup_alter_eq, H. reflexivity.
      * reflexivity.
    + intros j q Hj Hq. eexists. split.
      * rewrite list_lookup_fmap. unfold ps1.
        rewrite list_lookup_alter_ne by congruence. rewrite Hq. reflexivity.
      * reflexivity.
Qed.

Lemma aiActed_total (policy : Player -> GameState -> option Decision)
      (g s : GameState) :
  aiActed policy g = Some s -> totalChips s = totalChips g.
Proof.
  unfold aiActed.
  destruct (players g !! activePlayerIndex g) as [p|]; [|discriminate].
  cbn [mbind option_bind].
  destruct (policy p g) as [d|]; [|discriminate]. cbn [mbind option_bind].
  destruct (aiSwitch d (activePlayerIndex g) g) as [n|] eqn:Hn; [|discriminate].
  cbn [mbind option_bind]. intros [= <-].
  exact (aiSwitch_total _ _ _ _ Hn).
Qed.

Lemma aiFinish_no_winner (s : GameState) :
  earlyWinner s = None ->
  totalChips (aiFinish s) = totalChips s /\ players (aiFinish s) = players s /\
  pot (aiFinish s) = pot s /\ currentBet (aiFinish s) = currentBet s /\
  phase (aiFinish s) = phase s.
Proof.
  intros H. unfold aiFinish. rewrite H.
  destruct (negb (bettingComplete s)); repeat split.
Qed.

(** ** The sort *)

Section SortFacts.
Context {A : Type} (cmp : A -> A -> Z).

Lemma sortInsert_perm (x : A) (l : list A) : sortInsert cmp x l ≡ₚ x :: l.
Proof.
  induction l as [|y l IH]; simpl; [reflexivity|].
  destruct (cmp x y <=? 0); [reflexivity|].
  rewrite IH. apply perm_swap.
Qed.

Lemma jsSort_perm (l : list A) : jsSort cmp l ≡ₚ l.
Proof.
  induction l as [|x l IH]; simpl; [reflexivity|].
  rewrite sortInsert_perm, IH. reflexivity.
Qed.

(** A consistent comparator: swapping the arguments flips the sign, and
    "not after" is transitive. *)
Hypothesis cmp_flip : forall x y, cmp y x = - cmp x y.
Hypothesis cmp_trans : forall x y z, cmp x y <= 0 -> cmp y z <= 0 -> cmp x z <= 0.

Lemma sortInsert_ordered (x : A) (l : list A) :
  ordered cmp l -> ordered cmp (sortInsert cmp x l).
Proof.
  induction l as [|y l IH]; simpl; [intros _; split; [constructor | exact I]|].
  intros [Hy Hl]. destruct (Z.leb_spec (cmp x y) 0) as [Hle|Hgt].
  - simpl. split; [|split; assumption].
    constructor; [exact Hle|].
    eapply Forall_impl; [exact Hy|]. intros z Hz. simpl in Hz.
    exact (cmp_trans x y z Hle Hz).
  - simpl. split; [|exact (IH Hl)].
    rewrite (sortInsert_perm x l). constructor; [|exact Hy].
    rewrite (cmp_flip x y). lia.
Qed.

Lemma jsSort_ordered (l : list A) : ordered cmp (jsSort cmp l).
Proof.
  induction l as [|x l IH]; simpl; [exact I|].
  apply sortInsert_ordered. exact IH.
Qed.
End SortFacts.

(** ** Crediting seats *)

Lemma credit_keeps (v : Z) (s : GameState) (i : nat) :
  pot (credit v s i) = pot s /\ phase (credit v s i) = phase s /\
  winner (credit v s i) = winner s /\
  length (players (credit v s i)) = length (players s).
Proof.
  unfold credit, assign. simpl. rewrite length_alter. repeat split.
Qed.

Lemma credit_seatChips (v : Z) (s : GameState) (i : nat) (p : Player) :
  players s !! i = Some p ->
  seatChips (players (credit v s i)) = seatChips (players s) + v.
Proof.
  intros H. unfold credit, assign. simpl.
  rewrite (seatChips_alter _ _ i p H). unfold holding. simpl. lia.
Qed.

(** Crediting [v] to each seat of a duplicate-free list of references. *)
Lemma credit_all (v : Z) (l : list nat) :
  forall s : GameState,
    NoDup l -> (forall i, i ∈ l -> is_Some (players s !! i)) ->
    let s' := fold_left (credit v) l s in
    seatChips (players s') = seatChips (players s) + v * Z.of_nat (length l) /\
    pot s' = pot s /\ phase s' = phase s /\ winner s' = winner s /\
    length (players s') = length (players s) /\
    forall i p, players s !! i = Some p ->
      players s' !! i =
      Some (if bool_decide (i ∈ l) then setChips (chips p + v) p else p).
Proof.
  induction l as [|a l IH]; intros s Hnd Hval; cbv zeta; cbn [fold_left length].
  - split; [lia|]. repeat split. intros i p H.
    rewrite bool_decide_eq_false_2; [exact H | apply not_elem_of_nil].
  - apply NoDup_cons in Hnd as [Ha Hnd].
    destruct (Hval a) as [pa Hpa]; [apply elem_of_cons; left; reflexivity|].
    destruct (credit_keeps v s a) as (Kp & Kph & Kw & Kl).
    assert (Hval' : forall i, i ∈ l -> is_Some (players (credit v s a) !! i)).
    { intros i Hi. apply lookup_lt_is_Some. rewrite Kl. apply lookup_lt_is_Some.
      apply Hval. apply elem_of_cons. right. exact Hi. }
    destruct (IH (credit v s a) Hnd Hval') as (Is & Ip & Iph & Iw & Il & Ilk).
    split; [rewrite Is, (credit_seatChips v s a pa Hpa); lia|].
    split; [congruence|]. split; [congruence|]. split; [congruence|].
    split; [congruence|].
    intros i p H. destruct (decide (i = a)) as [->|N].
    + rewrite (Ilk a (setChips (chips p + v) p)).
      * rewrite bool_decide_eq_false_2 by exact Ha.
        rewrite bool_decide_eq_true_2 by (apply elem_of_cons; left; reflexivity).
        reflexivity.
      * unfold credit. rewrite (assign_lookup a _ s p H). reflexivity.
    + rewrite (Ilk i p).
      * destruct (decide (i ∈ l)) as [Hi|Hi].
        -- rewrite !bool_decide_eq_true_2;
             [reflexivity | apply elem_of_cons; right; exact Hi | exact Hi].
        -- rewrite !bool_decide_eq_false_2; [reflexivity | | exact Hi].
           rewrite elem_of_cons. intros [E|E]; [exact (N E) | exact (Hi E)].
      * unfold credit. rewrite assign_lookup_ne by congruence. exact H.
Qed.

(** ** The showdown ranking *)

Lemma byHand_flip (x y : nat * HandEval) : byHand y x = - byHand x y.
Proof. apply compareHands_antisym. Qed.

Lemma byHand_trans (x y z : nat * HandEval) :
  byHand x y <= 0 -> byHand y z <= 0 -> byHand x z <= 0.
Proof. apply compareHands_le_trans. Qed.

Lemma evaluateSeat_Some (s : GameState) (i : nat) (x : nat * HandEval) :
  evaluateSeat s i = Some x ->
  fst x = i /\
  exists p, players s !! i = Some p /\
            evaluateHand (hand p ++ communityCards s) = Some (snd x).
Proof.
  unfold evaluateSeat. destruct (players s !! i) as [p|]; [|discriminate].
  cbn [mbind option_bind].
  destruct (evaluateHand (hand p ++ communityCards s)) as [h|] eqn:E; [|discriminate].
  cbn [mbind option_bind]. intros [= <-]. split; [reflexivity|].
  exists p. split; [reflexivity | exact E].
Qed.

Lemma mapM_evaluateSeat (s : GameState) (acts : list nat) (evals : list (nat * HandEval)) :
  mapM (evaluateSeat s) acts = Some evals ->
  map fst evals = acts /\ Forall (fun x => evaluateSeat s (fst x) = Some x) evals.
Proof.
  intros H. apply mapM_Some in H.
  induction H as [|i x acts evals Hx _ [IH1 IH2]]; [split; [reflexivity|constructor]|].
  destruct (evaluateSeat_Some s i x Hx) as [E _].
  simpl. split; [congruence|]. constructor; [rewrite E; exact Hx | exact IH2].
Qed.

Lemma rankSeats_Some (s : GameState) (acts : list nat) (sorted : list (nat * HandEval)) :
  rankSeats s acts = Some sorted ->
  map fst sorted ≡ₚ acts /\ ordered byHand sorted /\
  Forall (fun x => evaluateSeat s (fst x) = Some x) sorted.
Proof.
  unfold rankSeats. destruct (mapM (evaluateSeat s) acts) as [evals|] eqn:E; [|discriminate].
  cbn [mbind option_bind]. intros [= <-].
  destruct (mapM_evaluateSeat s acts evals E) as [Hfst Hall].
  pose proof (jsSort_perm byHand evals) as Hperm.
  split; [|split].
  - rewrite <- Hfst. change (map fst) with (fmap (M := list) (@fst nat HandEval)).
    rewrite Hperm. reflexivity.
  - apply (jsSort_ordered byHand byHand_flip byHand_trans).
  - change (Forall (fun x => evaluateSeat s (fst x) = Some x) (jsSort byHand evals)).
    rewrite Hperm. exact Hall.
Qed.

(** The two ways the showdown pays: one seat takes the pot (it is alone in
    the hand, or first of the ranking with no tie behind it), or the seats
    tied with the first of the ranking split it. *)
Lemma payShowdown_inv (s paid : GameState) :
  payShowdown s = Some paid ->
  (exists w p,
      players s !! w = Some p /\ paid = payWinner w s /\
      (refs inHand (players s) = [w] \/
       exists sorted x rest,
         rankSeats s (refs inHand (players s)) = Some sorted /\
         sorted = x :: rest /\ w = fst x /\
         forall second rest', rest = second :: rest' ->
                              compareHands (snd x) (snd second) <> 0)) \/
  (exists sorted x second rest',
      rankSeats s (refs inHand (players s)) = Some sorted /\
      sorted = x :: second :: rest' /\
      compareHands (snd x) (snd second) = 0 /\
      paid = splitPot (tiedWith x sorted) s).
Proof.
  unfold payShowdown. generalize (eq_refl (refs inHand (players s))).
  generalize (refs inHand (players s)) at 1 3 4 5 as acts. intros acts Hacts.
  assert (Hrank :
    (sorted ← rankSeats s acts;
     winner ← sorted !! 0%nat;
     match sorted !! 1%nat with
     | Some second =>
         if compareHands (snd winner) (snd second) =? 0
         then Some (splitPot (tiedWith winner sorted) s)
         else Some (payWinner (fst winner) s)
     | None => Some (payWinner (fst winner) s)
     end) = Some paid ->
    (exists w p,
        players s !! w = Some p /\ paid = payWinner w s /\
        (acts = [w] \/
         exists sorted x rest,
           rankSeats s acts = Some sorted /\
           sorted = x :: rest /\ w = fst x /\
           forall second rest', rest = second :: rest' ->
                                compareHands (snd x) (snd second) <> 0)) \/
    (exists sorted x second rest',
        rankSeats s acts = Some sorted /\
        sorted = x :: second :: rest' /\
        compareHands (snd x) (snd second) = 0 /\
        paid = splitPot (tiedWith x sorted) s)).
  { destruct (rankSeats s acts) as [sorted|] eqn:Hr; [|discriminate].
    cbn [mbind option_bind].
    destruct sorted as [|x rest]; [discriminate|].
    cbn [mbind option_bind lookup list_lookup].
    destruct (rankSeats_Some s acts _ Hr) as (_ & _ & Hall).
    assert (Hvalid : exists p, players s !! fst x = Some p).
    { apply Forall_cons in Hall as [Hx _].
      destruct (evaluateSeat_Some s _ _ Hx) as (_ & p & Hp & _). eauto. }
    destruct Hvalid as [p Hp].
    destruct rest as [|second rest'].
    - intros [= <-]. left. exists (fst x), p. split; [exact Hp|]. split; [reflexivity|].
      right. exists [x], x, []. repeat split. intros ? ? [=].
    - cbn [lookup list_lookup].
      destruct (Z.eqb_spec (compareHands (snd x) (snd second)) 0) as [E|N];
        intros [= <-].
      + right. exists (x :: second :: rest'), x, second, rest'. repeat split.
        exact E.
      + left. exists (fst x), p. split; [exact Hp|]. split; [reflexivity|].
        right. exists (x :: second :: rest'), x, (second :: rest'). repeat split.
        intros ? ? [= <- <-]. exact N. }
  destruct acts as [|a [|b r]].
  - rewrite <- Hacts. exact Hrank.
  - intros [= <-]. left.
    assert (Ha : a ∈ refs inHand (players s))
      by (rewrite <- Hacts; apply elem_of_cons; left; reflexivity).
    apply elem_of_refs in Ha as (p & Hp & _). exists a, p.
    split; [exact Hp|]. split; [reflexivity|]. left. symmetry. exact Hacts.
  - rewrite <- Hacts. exact Hrank.
Qed.

(** ** Phase advance *)

Lemma collectBets_total (g : GameState) : totalChips (collectBets g) = totalChips g.
Proof.
  unfold collectBets, totalChips. simpl.
  destruct (seatChips_clear_bets (fun p => setHasActed false (setBet 0 p)) (players g))
    as [Hs _]; [intros p; split; reflexivity|].
  rewrite Hs. lia.
Qed.

Lemma collectBets_fields (g : GameState) :
  players (collectBets g) = map (fun p => setHasActed false (setBet 0 p)) (players g) /\
  pot (collectBets g) = pot g + totalBetsOf (players g) /\
  phase (collectBets g) = phase g /\
  communityCards (collectBets g) = communityCards g.
Proof. repeat split. Qed.

Lemma settleLoop_keeps (fuel : nat) :
  forall s s' : GameState,
    settleLoop fuel s = Some s' ->
    players s' = players s /\ pot s' = pot s /\ phase s' = phase s /\
    currentBet s' = currentBet s /\ winner s' = winner s.
Proof.
  induction fuel as [|fuel IH]; intros s s'; simpl;
    destruct (players s !! activePlayerIndex s) as [p|]; try discriminate;
    cbn [mbind option_bind]; destruct (folded p || eliminated p); try discriminate;
    try (intros [= <-]; repeat split).
  intros H. destruct (IH _ _ H) as (? & ? & ? & ? & ?). repeat split; assumption.
Qed.

(** After one turn of [getNextActivePlayer] the closing loop has its
    answer: the seat reached can act, or the scan found nobody and the
    index no longer moves. *)
Lemma settleLoop_after_step (s : GameState) (fuel : nat) :
  let s1 := setActivePlayerIndex (getNextActivePlayer s) s in
  settleLoop fuel s1 = settleLoop 0 s1.
Proof.
  intros s1.
  destruct (players s1 !! activePlayerIndex s1) as [p1|] eqn:H1;
    [|destruct fuel; cbn [settleLoop]; rewrite H1; reflexivity].
  destruct (folded p1 || eliminated p1) eqn:Hf;
    [|destruct fuel; cbn [settleLoop]; rewrite H1; cbn [mbind option_bind];
      rewrite Hf; reflexivity].
  assert (Hsame : getNextActivePlayer s = activePlayerIndex s).
  { unfold getNextActivePlayer.
    pose proof (scanLoop_bounded canAct (players s) (activePlayerIndex s))
      as (_ & _ & Hfound & _).
    fold (activeScan s) in Hfound.
    destruct (activeScan s) as [i a| a|] eqn:Hscan; try reflexivity.
    exfalso. destruct (Hfound i a eq_refl) as (_ & q & Hq & Hcan).
    assert (E : getNextActivePlayer s = i)
      by (unfold getNextActivePlayer; rewrite Hscan; reflexivity).
    unfold s1 in H1. simpl in H1. rewrite E, Hq in H1. injection H1 as ->.
    unfold canAct in Hcan.
    destruct (folded p1), (eliminated p1), (allIn p1); simpl in *; discriminate. }
  assert (Es : s1 = s) by (unfold s1; rewrite Hsame; destruct s; reflexivity).
  assert (Es1 : setActivePlayerIndex (getNextActivePlayer s1) s1 = s1)
    by (rewrite Es; exact Es).
  induction fuel as [|fuel IH]; [reflexivity|].
  cbn [settleLoop]. rewrite H1. cbn [mbind option_bind]. rewrite Hf, Es1, IH.
  cbn [settleLoop]. rewrite H1. cbn [mbind option_bind]. rewrite Hf. reflexivity.
Qed.

(** More fuel than one step gives the same answer, so a closing loop that
    runs out of fuel is one that never stops. *)
Lemma settleLoop_fuel (fuel : nat) (s : GameState) :
  settleLoop (S fuel) s = settleLoop 1 s.
Proof.
  cbn [settleLoop]. destruct (players s !! activePlayerIndex s) as [p|]; [|reflexivity].
  cbn [mbind option_bind]. destruct (folded p || eliminated p); [|reflexivity].
  apply settleLoop_after_step.
Qed.

Lemma dealPhase_betting (g newGame dealt : GameState) :
  phase g <> river ->
  dealPhase g newGame = Some dealt ->
  players dealt = players newGame /\ pot dealt = pot newGame.
Proof.
  intros Hph. unfold dealPhase. destruct (phase g); try contradiction;
    intros [= <-]; split; reflexivity.
Qed.

Lemma advancePhase_total (g g' : GameState) :
  phase g <> river -> advancePhase g = Some g' -> totalChips g' = totalChips g.
Proof.
  intros Hph. unfold advancePhase.
  destruct (negb (bettingComplete g) && negb (bool_decide (phase g = showdown)));
    [intros [= <-]; reflexivity|].
  destruct (dealPhase g (collectBets g)) as [d|] eqn:Hd; [|discriminate].
  cbn [mbind option_bind].
  destruct (dealPhase_betting _ _ _ Hph Hd) as [Hp Hpot].
  assert (Td : totalChips d = totalChips g).
  { rewrite <- (collectBets_total g). unfold totalChips. rewrite Hp, Hpot. reflexivity. }
  destruct (bool_decide (phase d = showdown)); [intros [= <-]; exact Td|].
  destruct (firstToAct d) as [f|]; [|discriminate]. cbn [mbind option_bind].
  intros H. destruct (settleLoop_keeps _ _ _ H) as (Kp & Kpot & _).
  rewrite <- Td. unfold totalChips. rewrite Kp, Kpot. reflexivity.
Qed.

Lemma payWinner_fields (w : nat) (s : GameState) :
  phase (payWinner w s) = phase s /\ pot (payWinner w s) = pot s /\
  winner (payWinner w s) = Some w.
Proof. repeat split. Qed.

Lemma credit_fold_keeps (v : Z) (l : list nat) :
  forall s : GameState,
    pot (fold_left (credit v) l s) = pot s /\
    phase (fold_left (credit v) l s) = phase s /\
    length (players (fold_left (credit v) l s)) = length (players s).
Proof.
  induction l as [|a l IH]; intros s; simpl; [repeat split|].
  destruct (IH (credit v s a)) as (Hp & Hph & Hl).
  destruct (credit_keeps v s a) as (Kp & Kph & _ & Kl).
  repeat split; congruence.
Qed.

Lemma payShowdown_phase (s paid : GameState) :
  payShowdown s = Some paid -> phase paid = phase s.
Proof.
  intros H. destruct (payShowdown_inv s paid H)
    as [(w & p & _ & -> & _) | (sorted & w & second & rest & _ & _ & _ & ->)].
  - reflexivity.
  - unfold splitPot. simpl. apply credit_fold_keeps.
Qed.

Lemma advancePhase_river (g g' : GameState) :
  phase g = river -> bettingComplete g = true -> advancePhase g = Some g' ->
  exists paid,
    payShowdown (setPhase showdown (collectBets g)) = Some paid /\
    g' = setBettingComplete true paid.
Proof.
  intros Hph Hbc. unfold advancePhase, dealPhase. rewrite Hph, Hbc. simpl negb.
  cbn [andb].
  destruct (payShowdown (setPhase showdown (collectBets g))) as [paid|] eqn:Hpay;
    [|discriminate].
  cbn [mbind option_bind].
  assert (Hshow : phase (setBettingComplete true paid) = showdown).
  { simpl. rewrite (payShowdown_phase _ _ Hpay). reflexivity. }
  rewrite bool_decide_eq_true_2 by exact Hshow.
  intros [= <-]. exists paid. split; reflexivity.
Qed.

(** ** Who is tied at the showdown *)

Lemma elem_of_filter_bool {A : Type} (P : A -> bool) (l : list A) (x : A) :
  x ∈ List.filter P l <-> x ∈ l /\ P x = true.
Proof.
  rewrite !list_elem_of_In. apply filter_In.
Qed.

Lemma NoDup_map_filter {A B : Type} (f : A -> B) (P : A -> bool) (l : list A) :
  NoDup (map f l) -> NoDup (map f (List.filter P l)).
Proof.
  induction l as [|x l IH]; simpl; [intros _; constructor|].
  intros H. apply NoDup_cons in H as [Hx Hl].
  destruct (P x); [|exact (IH Hl)].
  simpl. apply NoDup_cons. split; [|exact (IH Hl)].
  intros Hin. apply Hx.
  apply list_elem_of_In in Hin. apply in_map_iff in Hin as (y & Ey & Hy).
  apply filter_In in Hy as [Hy _].
  apply list_elem_of_In. apply in_map_iff. exists y. split; assumption.
Qed.

Lemma seatHand_fun (s : GameState) (i : nat) (h h' : HandEval) :
  seatHand s i h -> seatHand s i h' -> h = h'.
Proof.
  intros (p & Hp & _ & E) (p' & Hp' & _ & E'). congruence.
Qed.

Lemma seatHand_collected (g : GameState) (i : nat) (h : HandEval) :
  seatHand (setPhase showdown (collectBets g)) i h <-> seatHand g i h.
Proof.
  unfold seatHand. simpl. split.
  - intros (p & Hp & Hin & E). rewrite list_lookup_fmap in Hp.
    destruct (players g !! i) as [q|]; [|discriminate]. injection Hp as <-.
    exists q. repeat split; assumption.
  - intros (p & Hp & Hin & E). exists (setHasActed false (setBet 0 p)).
    rewrite list_lookup_fmap, Hp. repeat split; assumption.
Qed.

Section Ranking.
Variables (s : GameState) (sorted : list (nat * HandEval)).
Hypothesis ranked : rankSeats s (refs inHand (players s)) = Some sorted.

Lemma ranked_seatHand (x : nat * HandEval) :
  x ∈ sorted -> seatHand s (fst x) (snd x).
Proof using ranked.
  intros Hx. destruct (rankSeats_Some _ _ _ ranked) as (Hperm & _ & Hall).
  pose proof (proj1 (Forall_forall _ sorted) Hall x Hx) as He.
  destruct (evaluateSeat_Some s _ _ He) as (_ & p & Hp & E).
  assert (Hin : fst x ∈ refs inHand (players s)).
  { rewrite <- Hperm. apply list_elem_of_In. apply in_map.
    apply list_elem_of_In. exact Hx. }
  apply elem_of_refs in Hin as (p' & Hp' & Hin).
  exists p. split; [exact Hp|]. split; [congruence | exact E].
Qed.

Lemma seatHand_ranked (j : nat) (hj : HandEval) :
  seatHand s j hj -> (j, hj) ∈ sorted.
Proof using ranked.
  intros Hj. pose proof Hj as (p & Hp & Hin & E).
  destruct (rankSeats_Some _ _ _ ranked) as (Hperm & _ & _).
  assert (Hj' : j ∈ map fst sorted).
  { rewrite Hperm. apply elem_of_refs. exists p. split; assumption. }
  apply list_elem_of_In in Hj'. apply in_map_iff in Hj' as (x & Ex & Hx).
  apply list_elem_of_In in Hx.
  pose proof (ranked_seatHand x Hx) as Hsx. rewrite Ex in Hsx.
  rewrite <- (seatHand_fun s j _ _ Hsx Hj).
  destruct x as [a b]. simpl in Ex. subst a. exact Hx.
Qed.

Variables (w : nat * HandEval) (rest : list (nat * HandEval)).
Hypothesis first : sorted = w :: rest.

Lemma first_not_after (x : nat * HandEval) : x ∈ sorted -> byHand w x <= 0.
Proof using ranked first.
  destruct (rankSeats_Some _ _ _ ranked) as (_ & Hord & _).
  rewrite first in Hord |- *. destruct Hord as [Hw _].
  intros Hx. apply elem_of_cons in Hx as [->|Hx].
  - unfold byHand. rewrite (proj2 (compareHands_zero_iff _ _)); [lia|].
    split; reflexivity.
  - exact (proj1 (Forall_forall _ rest) Hw x Hx).
Qed.

Lemma tied_iff_best (x : nat * HandEval) :
  x ∈ sorted -> (byHand x w = 0 <-> bestSeat s (fst x)).
Proof using ranked first.
  intros Hx. pose proof (ranked_seatHand x Hx) as Hsx. split.
  - intros E. exists (snd x). split; [exact Hsx|].
    intros j hj Hj. pose proof (first_not_after _ (seatHand_ranked j hj Hj)) as Hle.
    unfold byHand in E, Hle. simpl in Hle.
    rewrite (compareHands_zero_l _ _ hj E). exact Hle.
  - intros (h & Hh & Hbest).
    pose proof (seatHand_fun s _ _ _ Hh Hsx) as Eh. subst h.
    assert (Hw : w ∈ sorted) by (rewrite first; apply elem_of_cons; left; reflexivity).
    pose proof (Hbest _ _ (ranked_seatHand w Hw)) as Hle.
    pose proof (first_not_after x Hx) as Hge.
    unfold byHand in *. rewrite (compareHands_antisym (snd x) (snd w)) in Hge. lia.
Qed.

Lemma elem_of_tiedWith (i : nat) : i ∈ tiedWith w sorted <-> bestSeat s i.
Proof using ranked first.
  unfold tiedWith. split.
  - intros Hi. apply list_elem_of_In in Hi. apply in_map_iff in Hi as (x & <- & Hx).
    apply list_elem_of_In in Hx. apply elem_of_filter_bool in Hx as [Hx E].
    apply (tied_iff_best x Hx). apply Z.eqb_eq in E. exact E.
  - intros Hb. pose proof Hb as (h & Hh & _).
    pose proof (seatHand_ranked i h Hh) as Hx.
    apply list_elem_of_In. apply in_map_iff. exists (i, h). split; [reflexivity|].
    apply list_elem_of_In. apply elem_of_filter_bool. split; [exact Hx|].
    apply Z.eqb_eq. apply (tied_iff_best (i, h) Hx). exact Hb.
Qed.

Lemma NoDup_tiedWith : NoDup (tiedWith w sorted).
Proof using ranked.
  unfold tiedWith. apply NoDup_map_filter.
  destruct (rankSeats_Some _ _ _ ranked) as (Hperm & _ & _).
  change (NoDup (fst <$> sorted)). rewrite Hperm. apply NoDup_refsFrom.
Qed.

Lemma tiedWith_valid (i : nat) : i ∈ tiedWith w sorted -> is_Some (players s !! i).
Proof using ranked first.
  intros Hi. apply elem_of_tiedWith in Hi as (h & (p & Hp & _) & _). eauto.
Qed.
End Ranking.

(** With a best seat other than the first of the ranking, the second of
    the ranking ties with the first. *)
Lemma second_tied (s : GameState) (sorted : list (nat * HandEval))
      (w second : nat * HandEval) (rest : list (nat * HandEval)) (b : nat) :
  rankSeats s (refs inHand (players s)) = Some sorted ->
  sorted = w :: second :: rest ->
  b <> fst w -> bestSeat s b ->
  compareHands (snd w) (snd second) = 0.
Proof.
  intros Hr Hs Hne Hb.
  pose proof Hb as (hb & Hhb & _).
  pose proof (seatHand_ranked s sorted Hr b hb Hhb) as Hin.
  pose proof (proj2 (tied_iff_best s sorted Hr w _ Hs (b, hb) Hin) Hb) as Hz.
  assert (H2 : second ∈ sorted)
    by (rewrite Hs; apply elem_of_cons; right; apply elem_of_cons; left; reflexivity).
  pose proof (first_not_after s sorted Hr w _ Hs second H2) as Hle.
  assert (Hge : byHand second w <= 0).
  { rewrite Hs in Hin. apply elem_of_cons in Hin as [E|Hin].
    - exfalso. apply Hne. rewrite <- E. reflexivity.
    - apply elem_of_cons in Hin as [E|Hin].
      + rewrite <- E. lia.
      + destruct (rankSeats_Some _ _ _ Hr) as (_ & Hord & _).
        rewrite Hs in Hord. destruct Hord as (_ & Hsec & _).
        pose proof (proj1 (Forall_forall _ rest) Hsec _ Hin) as H2b.
        apply (byHand_trans second (b, hb) w); [exact H2b | lia]. }
  unfold byHand in *. rewrite (compareHands_antisym (snd w) (snd second)) in Hge. lia.
Qed.

Lemma bestSeat_collected (g : GameState) (i : nat) :
  bestSeat (setPhase showdown (collectBets g)) i <-> bestSeat g i.
Proof.
  unfold bestSeat. split; intros (h & Hh & Hbest); exists h.
  - split; [apply seatHand_collected; exact Hh|].
    intros j hj Hj. apply (Hbest j). apply seatHand_collected. exact Hj.
  - split; [apply seatHand_collected; exact Hh|].
    intros j hj Hj. apply (Hbest j). apply seatHand_collected. exact Hj.
Qed.

Lemma bestSeat_in_hand (s : GameState) (i : nat) :
  bestSeat s i -> i ∈ refs inHand (players s).
Proof.
  intros (h & (p & Hp & Hin & _) & _). apply elem_of_refs. exists p. split; assumption.
Qed.

(** Two best seats: one of them is not [w]. *)
Lemma other_best (tied : list nat) (w : nat) :
  NoDup tied -> (2 <= length tied)%nat -> exists b, b ∈ tied /\ b <> w.
Proof.
  destruct tied as [|a [|b r]]; simpl; try lia. intros Hnd _.
  apply NoDup_cons in Hnd as [Ha _].
  destruct (decide (a = w)) as [->|N].
  - exists b. split; [apply elem_of_cons; right; apply elem_of_cons; left; reflexivity|].
    intros ->. apply Ha. apply elem_of_cons. left. reflexivity.
  - exists a. split; [apply elem_of_cons; left; reflexivity | exact N].
Qed.

(** C10.  At the showdown, when the seats holding a best hand are [k >= 2]
    and the pot with the last round's bets is [P], each of those seats is
    credited exactly [P / k] (rounded down), no other seat is credited,
    every bet is cleared, the pot becomes 0 and no single winner is
    recorded; the chips held by the seats, and the table total, are then
    [P mod k] short of the total before: the remainder is in nobody's
    stack and not in the pot either. *)
Theorem split_pot_remainder (g g' : GameState) (tied : list nat) :
  phase g = river -> bettingComplete g = true ->
  advancePhase g = Some g' ->
  NoDup tied -> (forall i, i ∈ tied <-> bestSeat g i) -> (2 <= length tied)%nat ->
  let P := pot g + totalBetsOf (players g) in
  let k := Z.of_nat (length tied) in
  pot g' = 0 /\ winner g' = None /\ phase g' = showdown /\
  (forall i p, players g !! i = Some p ->
     exists p', players g' !! i = Some p' /\ bet p' = 0 /\
       chips p' = chips p + (if bool_decide (i ∈ tied) then P / k else 0)) /\
  seatChips (players g') = totalChips g - P mod k /\
  totalChips g' = totalChips g - P mod k.
Proof.
  intros Hph Hbc Hadv Hnd Htied Hlen P k.
  destruct (advancePhase_river g g' Hph Hbc Hadv) as (paid & Hpay & ->).
  set (s := setPhase showdown (collectBets g)) in *.
  assert (Htied_s : forall i, i ∈ tied <-> bestSeat s i).
  { intros i. rewrite Htied. symmetry. apply bestSeat_collected. }
  assert (Hsub : forall i, i ∈ tied -> i ∈ refs inHand (players s)).
  { intros i Hi. apply bestSeat_in_hand. apply Htied_s. exact Hi. }
  assert (Hrefs : (2 <= length (refs inHand (players s)))%nat).
  { exact (Nat.le_trans _ _ _ Hlen
             (submseteq_length _ _ (NoDup_submseteq _ _ Hnd Hsub))). }
  destruct (payShowdown_inv s paid Hpay)
    as [(w & p & _ & _ & [Hone | (sorted & x & rest & Hr & Hs & Hw & Hno)])
       | (sorted & x & second & rest & Hr & Hs & Htie & ->)].
  - exfalso. rewrite Hone in Hrefs. simpl in Hrefs. lia.
  - exfalso. destruct rest as [|second rest'].
    + destruct (rankSeats_Some _ _ _ Hr) as (Hperm & _ & _).
      apply Permutation_length in Hperm. rewrite <- Hperm, Hs in Hrefs.
      simpl in Hrefs. lia.
    + destruct (other_best tied (fst x) Hnd Hlen) as (b & Hb & Hne).
      apply (Hno second rest' eq_refl).
      apply (second_tied s sorted x second rest' b Hr Hs Hne).
      apply Htied_s. exact Hb.
  - set (l := tiedWith x sorted).
    assert (Hl_nd : NoDup l) by exact (NoDup_tiedWith s sorted Hr x).
    assert (Hl_iff : forall i, i ∈ l <-> i ∈ tied).
    { intros i. rewrite Htied_s. exact (elem_of_tiedWith s sorted Hr x _ Hs i). }
    assert (Hl_len : length l = length tied).
    { apply Permutation_length. apply NoDup_Permutation; assumption. }
    assert (Hl_val : forall i, i ∈ l -> is_Some (players s !! i))
      by exact (tiedWith_valid s sorted Hr x _ Hs).
    assert (Hk : 0 < k) by (unfold k; lia).
    assert (Hsplit : splitPot l s =
                     setWinner None (setPot 0 (fold_left (credit (P / k)) l s))).
    { unfold splitPot. rewrite Hl_len. reflexivity. }
    rewrite Hsplit. clear Hsplit.
    cbn [players pot winner phase setWinner setPot setBettingComplete].
    destruct (credit_all (P / k) l s Hl_nd Hl_val)
      as (Hsum & _ & Hphase & _ & _ & Hlook).
    rewrite Hl_len in Hsum. fold k in Hsum.
    destruct (seatChips_clear_bets (fun q => setHasActed false (setBet 0 q)) (players g))
      as [Hclear _]; [intros q; split; reflexivity|].
    assert (Hseats : seatChips (players (fold_left (credit (P / k)) l s))
                     = totalChips g - P mod k).
    { rewrite Hsum.
      change (players s) with
        (map (fun q => setHasActed false (setBet 0 q)) (players g)).
      rewrite Hclear, (Z.mod_eq P k) by lia. unfold totalChips, P. lia. }
    split; [reflexivity|]. split; [reflexivity|]. split; [exact Hphase|].
    split; [|split; [exact Hseats|]].
    + intros i q Hq.
      assert (Hsq : players s !! i = Some (setHasActed false (setBet 0 q))).
      { change (players s) with
          (map (fun q => setHasActed false (setBet 0 q)) (players g)).
        rewrite list_lookup_fmap, Hq. reflexivity. }
      eexists. split; [exact (Hlook i _ Hsq)|].
      rewrite (bool_decide_ext _ _ (Hl_iff i)).
      destruct (bool_decide (i ∈ tied)); simpl; split; try reflexivity; lia.
    + unfold totalChips at 1.
      cbn [players pot setWinner setPot setBettingComplete].
      rewrite Hseats. lia.
Qed.

(** ** Chip conservation *)

Lemma bettingStep_total (policy : Player -> GameState -> option Decision)
      (g g' : GameState) :
  bettingStep policy g g' -> totalChips g' = totalChips g.
Proof.
  intros [name a amt g0 g1 H | g0 s Hs Hw | g0 g1 Hph H].
  - exact (handlePlayerAction_total _ _ _ _ _ H).
  - destruct (aiFinish_no_winner s Hw) as [-> _]. exact (aiActed_total _ _ _ Hs).
  - exact (advancePhase_total _ _ Hph H).
Qed.

Lemma executeAIAction_staged (policy : Player -> GameState -> option Decision)
      (g s : GameState) :
  aiActed policy g = Some s -> executeAIAction policy g = Some (aiFinish s).
Proof.
  intros H. unfold executeAIAction. rewrite H. reflexivity.
Qed.

Lemma showdown_single_winner (g g' : GameState) (w : nat) :
  phase g = river -> bettingComplete g = true ->
  advancePhase g = Some g' -> winner g' = Some w ->
  seatChips (players g') = totalChips g /\
  totalBetsOf (players g') = 0 /\
  pot g' = pot g + totalBetsOf (players g) /\
  phase g' = showdown.
Proof.
  intros Hph Hbc Hadv Hw.
  destruct (advancePhase_river g g' Hph Hbc Hadv) as (paid & Hpay & ->).
  set (s := setPhase showdown (collectBets g)) in *.
  destruct (seatChips_clear_bets (fun q => setHasActed false (setBet 0 q)) (players g))
    as [Hclear Hbets]; [intros q; split; reflexivity|].
  destruct (payShowdown_inv s paid Hpay)
    as [(v & p & Hp & -> & _) | (sorted & x & second & rest & Hr & Hs & _ & ->)].
  - cbn [players pot phase setBettingComplete].
    split; [|split; [|split; reflexivity]].
    + unfold payWinner. rewrite (credit_seatChips _ (setWinner (Some v) s) v p Hp).
      change (players (setWinner (Some v) s)) with
        (map (fun q => setHasActed false (setBet 0 q)) (players g)).
      rewrite Hclear. unfold totalChips. simpl. lia.
    + unfold payWinner, credit, assign. cbn [players setPlayers].
      rewrite totalBetsOf_alter by reflexivity. exact Hbets.
  - discriminate Hw.
Qed.

(** C1, as the code has it.  Along every sequence of human actions, policy
    actions that do not end the hand, and phase advances up to the river,
    the stacks, the live bets and the pot add up to the same total.  When
    a policy action leaves one seat in the hand, and when the showdown has
    a single winner, the seats afterwards hold that whole total between
    them (the winner's stack grew by the pot and all live bets, every bet
    is cleared) while the [pot] field still shows the amount paid. *)
Theorem chips_conserved_until_payout (policy : Player -> GameState -> option Decision) :
  (forall g g', rtc (bettingStep policy) g g' -> totalChips g' = totalChips g) /\
  (forall g s w,
     aiActed policy g = Some s -> earlyWinner s = Some w ->
     let g' := payEarly w s in
     executeAIAction policy g = Some g' /\
     seatChips (players g') = totalChips g /\
     totalBetsOf (players g') = 0 /\
     pot g' = pot s + totalBetsOf (players s) /\
     phase g' = showdown) /\
  (forall g g' w,
     phase g = river -> bettingComplete g = true ->
     advancePhase g = Some g' -> winner g' = Some w ->
     seatChips (players g') = totalChips g /\
     totalBetsOf (players g') = 0 /\
     pot g' = pot g + totalBetsOf (players g) /\
     phase g' = showdown).
Proof.
  split; [|split].
  - intros g g' H. induction H as [g|g g1 g2 Hstep _ IH]; [reflexivity|].
    rewrite IH. exact (bettingStep_total policy _ _ Hstep).
  - intros g s w Hs Hw g'.
    destruct (earlyWinner_seat s w Hw) as (_ & _ & p & Hp & _).
    destruct (payEarly_effect w s p Hp) as (Hseat & Hbets & Hpot & Hphase & _).
    split.
    + rewrite (executeAIAction_staged policy g s Hs). unfold aiFinish. rewrite Hw.
      reflexivity.
    + rewrite <- (aiActed_total policy g s Hs). repeat split; assumption.
  - exact showdown_single_winner.
Qed.

(** ** The raise *)

Lemma raiseAccepted_valid (a : Z) (g : GameState) :
  0 <= currentBet g -> currentBet g < a -> raiseAccepted (Some a) g = Some a.
Proof.
  intros H0 Hlt. unfold raiseAccepted.
  destruct (Z.eqb_spec a 0); [lia|]. destruct (Z.ltb_spec (currentBet g) a); [|lia].
  reflexivity.
Qed.

Lemma doRaise_accepted (i : nat) (amt : option Z) (a : Z) (g : GameState)
      (p : Player) :
  players g !! i = Some p -> raiseAccepted amt g = Some a ->
  exists g', doRaise i amt g = Some g' /\ raiseContract i a g g' /\
             pot g' = pot g.
Proof.
  intros H Hacc. unfold doRaise. rewrite Hacc, H.
  cbn [mbind option_bind].
  set (t := Z.min a (chips p + bet p)).
  set (g1 := assign i (fun q => setChips (chips q - (t - bet p)) q) g).
  set (g2 := assign i (setBet t) g1).
  set (g3 := assign i (setHasActed true) g2).
  set (g5 := reopenRound i (setCurrentBet t g3)).
  set (p3 := setHasActed true (setBet t (setChips (chips p - (t - bet p)) p))).
  pose proof (assign_lookup i _ g p H : players g1 !! i = Some _) as H1.
  pose proof (assign_lookup i _ g1 _ H1 : players g2 !! i = Some _) as H2.
  pose proof (assign_lookup i _ g2 _ H2 : players g3 !! i = Some p3) as H3.
  assert (H5 : players g5 !! i = Some p3).
  { unfold g5. rewrite reopenRound_lookup.
    change (players (setCurrentBet t g3)) with (players g3). rewrite H3.
    simpl. rewrite Nat.eqb_refl. reflexivity. }
  assert (Hother : forall j q, j <> i -> players g !! j = Some q ->
            players g5 !! j = Some (if canAct q then setHasActed false q else q)).
  { intros j q Hj Hq. unfold g5. rewrite reopenRound_lookup.
    change (players (setCurrentBet t g3)) with (players g3).
    unfold g3, g2, g1. rewrite !assign_lookup_ne by congruence. rewrite Hq. simpl.
    destruct (Nat.eqb_spec j i); [contradiction | reflexivity]. }
  assert (Hlen : length (players g5) = length (players g)).
  { unfold g5, g3, g2, g1, reopenRound, assign. simpl.
    rewrite length_imap, !length_alter. reflexivity. }
  rewrite H5. cbn [mbind option_bind].
  destruct (t - bet p =? chips p3).
  - eexists. split; [reflexivity|]. split; [|reflexivity].
    exists p, (setAllIn true p3). split; [exact H|]. split.
    + apply assign_lookup. exact H5.
    + cbv zeta. fold t.
      split; [reflexivity|]. split; [reflexivity|]. split; [reflexivity|].
      split; [reflexivity|]. split; [reflexivity|]. split.
      * unfold assign. cbn [players setPlayers]. rewrite length_alter. exact Hlen.
      * intros j q Hj Hq. rewrite assign_lookup_ne by congruence.
        exact (Hother j q Hj Hq).
  - eexists. split; [reflexivity|]. split; [|reflexivity].
    exists p, p3. split; [exact H|]. split; [exact H5|].
    cbv zeta. fold t.
    split; [reflexivity|]. split; [reflexivity|]. split; [reflexivity|].
    split; [reflexivity|]. split; [reflexivity|]. split; [exact Hlen | exact Hother].
Qed.

Lemma doRaise_contract (i : nat) (a : Z) (g : GameState) (p : Player) :
  players g !! i = Some p -> 0 <= currentBet g -> currentBet g < a ->
  exists g', doRaise i (Some a) g = Some g' /\ raiseContract i a g g' /\
             pot g' = pot g.
Proof.
  intros H H0 Hlt.
  exact (doRaise_accepted i (Some a) a g p H (raiseAccepted_valid a g H0 Hlt)).
Qed.

Lemma raiseContract_ext (i : nat) (a : Z) (g g' g'' : GameState) :
  raiseContract i a g g' -> players g'' = players g' -> currentBet g'' = currentBet g' ->
  raiseContract i a g g''.
Proof.
  intros (p & p' & H) Hp Hc. exists p, p'. rewrite Hp, Hc. exact H.
Qed.

Lemma findIndex_lookup {A : Type} (f : A -> bool) (l : list A) (i : nat) :
  findIndex f l = Some i -> exists x, l !! i = Some x /\ f x = true.
Proof.
  revert i. induction l as [|y l IH]; intros i; simpl; [discriminate|].
  destruct (f y) eqn:Hy.
  - intros [= <-]. exists y. split; [reflexivity | exact Hy].
  - destruct (findIndex f l) as [k|]; [|discriminate]. simpl. intros [= <-].
    exact (IH k eq_refl).
Qed.

(** C4.  A raise by the seat to act with an amount above the current bet:
    through [handlePlayerAction] for the human seat, and through the
    [switch] of [executeAIAction] (and the whole of it when the raise does
    not end the hand) for a policy seat, the seat's bet becomes
    [min amount (chips + bet)], its stack is debited by the difference,
    the current bet becomes that total, the raiser has acted, every other
    seat that is not folded, all-in or eliminated has [hasActed] cleared,
    and the other seats are otherwise unchanged. *)
Theorem raise_contract :
  (forall (playerName : string) (a : Z) (g : GameState),
     playerName <> ""%string ->
     findIndex (fun p => String.eqb (name p) playerName) (players g)
       = Some (activePlayerIndex g) ->
     0 <= currentBet g -> currentBet g < a ->
     exists g', handlePlayerAction playerName raise (Some a) g = Some g' /\
                raiseContract (activePlayerIndex g) a g g' /\ pot g' = pot g) /\
  (forall (policy : Player -> GameState -> option Decision) (a : Z)
          (g : GameState) (p : Player),
     players g !! activePlayerIndex g = Some p ->
     policy p g = Some (mkDecision raise (Some a)) ->
     0 <= currentBet g -> currentBet g < a ->
     exists s, aiActed policy g = Some s /\
               raiseContract (activePlayerIndex g) a g s /\ pot s = pot g /\
               (earlyWinner s = None ->
                exists g', executeAIAction policy g = Some g' /\
                           raiseContract (activePlayerIndex g) a g g' /\
                           pot g' = pot g)).
Proof.
  split.
  - intros playerName a g Hname Hfind H0 Hlt.
    destruct (findIndex_lookup _ _ _ Hfind) as (p & Hp & _).
    destruct (doRaise_contract _ a g p Hp H0 Hlt) as (s & Hs & Hc & Hpot).
    exists (closeOrPass s). unfold handlePlayerAction.
    destruct (String.eqb_spec playerName ""); [contradiction|].
    rewrite Hfind, Nat.eqb_refl. simpl negb. cbv iota.
    unfold playerSwitch. rewrite Hs. cbn [mbind option_bind].
    destruct (closeOrPass_keeps s) as (Kp & Kpot & Kc & _).
    split; [reflexivity|]. split; [|congruence].
    exact (raiseContract_ext _ _ _ _ _ Hc Kp Kc).
  - intros policy a g p Hp Hpol H0 Hlt.
    destruct (doRaise_contract _ a g p Hp H0 Hlt) as (s & Hs & Hc & Hpot).
    assert (Hacted : aiActed policy g =
                     Some (setBettingComplete (isBettingComplete s) s)).
    { unfold aiActed. rewrite Hp. cbn [mbind option_bind]. rewrite Hpol.
      cbn [mbind option_bind]. unfold aiSwitch. cbn [action amount]. rewrite Hs.
      reflexivity. }
    eexists. split; [exact Hacted|].
    split; [exact (raiseContract_ext _ _ _ _ _ Hc eq_refl eq_refl)|].
    split; [exact Hpot|].
    intros Hw. eexists. split; [exact (executeAIAction_staged _ _ _ Hacted)|].
    destruct (aiFinish_no_winner _ Hw) as (_ & Kp & Kpot & Kc & _).
    split; [|rewrite Kpot; exact Hpot].
    exact (raiseContract_ext _ _ _ _ _ Hc Kp Kc).
Qed.

(** ** What the human path leaves untouched *)

Lemma assign_keeps (i : nat) (f : Player -> Player) (g : GameState) :
  pot (assign i f g) = pot g /\ phase (assign i f g) = phase g /\
  winner (assign i f g) = winner g.
Proof. repeat split. Qed.

Lemma playerSwitch_keeps (a : Action) (amt : option Z) (i : nat) (g g' : GameState) :
  playerSwitch a amt i g = Some g' ->
  pot g' = pot g /\ phase g' = phase g /\ winner g' = winner g.
Proof.
  destruct a; simpl.
  - unfold doFold. destruct (players g !! i); [|discriminate].
    cbn [mbind option_bind]. intros [= <-]. repeat split.
  - unfold doCall. destruct (players g !! i); [|discriminate].
    cbn [mbind option_bind].
    match goal with |- context [?l !! i ≫= _] => destruct (l !! i) end;
      [|discriminate].
    cbn [mbind option_bind].
    match goal with |- context [if ?b then _ else _] => destruct b end;
      intros [= <-]; repeat split.
  - unfold doRaise. destruct (raiseAccepted amt g); [|intros [= <-]; repeat split].
    destruct (players g !! i); [|discriminate].
    cbn [mbind option_bind].
    match goal with |- context [?l !! i ≫= _] => destruct (l !! i) end;
      [|discriminate].
    cbn [mbind option_bind].
    match goal with |- context [if ?b then _ else _] => destruct b end;
      intros [= <-]; repeat split.
  - unfold doAllIn. destruct (players g !! i); [|discriminate].
    cbn [mbind option_bind].
    match goal with |- context [if ?b then _ else _] => destruct b end;
      intros [= <-]; repeat split.
Qed.

(** [handlePlayerAction] never pays anybody: whatever the action, the pot,
    the phase and the recorded winner stay as they were. *)
Lemma handlePlayerAction_never_pays (playerName : string) (a : Action)
      (amt : option Z) (g g' : GameState) :
  handlePlayerAction playerName a amt g = Some g' ->
  pot g' = pot g /\ phase g' = phase g /\ winner g' = winner g.
Proof.
  unfold handlePlayerAction.
  destruct (String.eqb playerName ""); [intros [= <-]; repeat split|].
  destruct (findIndex _ (players g)) as [i|]; [|intros [= <-]; repeat split].
  destruct (negb (i =? activePlayerIndex g)%nat); [intros [= <-]; repeat split|].
  destruct (playerSwitch a amt i g) as [s|] eqn:Hs; [|discriminate].
  cbn [mbind option_bind]. intros [= <-].
  destruct (closeOrPass_keeps s) as (_ & Kpot & _ & Kph & Kw).
  destruct (playerSwitch_keeps _ _ _ _ _ Hs) as (Spot & Sph & Sw).
  repeat split; congruence.
Qed.

(** A raise that is not accepted still runs the tail of
    [handlePlayerAction]. *)
Lemma refused_raise_runs_tail (playerName : string) (amt : option Z) (g : GameState) :
  playerName <> ""%string ->
  findIndex (fun p => String.eqb (name p) playerName) (players g)
    = Some (activePlayerIndex g) ->
  raiseAccepted amt g = None ->
  handlePlayerAction playerName raise amt g = Some (closeOrPass g).
Proof.
  intros Hname Hfind Hno. unfold handlePlayerAction.
  destruct (String.eqb_spec playerName ""); [contradiction|].
  rewrite Hfind, Nat.eqb_refl. simpl negb. cbv iota.
  unfold playerSwitch, doRaise. rewrite Hno. reflexivity.
Qed.

(** ** The call *)

(** The seat after a call: the all-in test reads the stack after the
    debit. *)
Lemma doCall_effect (i : nat) (g : GameState) (p : Player) :
  players g !! i = Some p ->
  let callAmount := Z.min (currentBet g - bet p) (chips p) in
  exists g' p',
    doCall i g = Some g' /\ players g' !! i = Some p' /\
    chips p' = chips p - callAmount /\
    bet p' = bet p + callAmount /\
    hasActed p' = true /\
    allIn p' = (callAmount =? chips p - callAmount) || allIn p.
Proof.
  intros H a. unfold doCall. rewrite H. cbn [mbind option_bind]. fold a.
  set (g1 := assign i (fun q => setChips (chips q - a) q) g).
  set (g2 := assign i (fun q => setBet (bet q + a) q) g1).
  set (g3 := assign i (setHasActed true) g2).
  pose proof (assign_lookup i _ g p H : players g1 !! i = Some _) as H1.
  pose proof (assign_lookup i _ g1 _ H1 : players g2 !! i = Some _) as H2.
  pose proof (assign_lookup i _ g2 _ H2 : players g3 !! i = Some _) as H3.
  rewrite H3. cbn [mbind option_bind]. cbn [chips setHasActed setBet setChips].
  destruct (a =? chips p - a) eqn:E.
  - eexists _, _. split; [reflexivity|]. split; [exact (assign_lookup i _ g3 _ H3)|].
    repeat split.
  - eexists _, _. split; [reflexivity|]. split; [exact H3|]. repeat split.
Qed.

(** The human path always produces a state: a seat found by name is a
    seat of the array, so no read in the [switch] is out of range. *)
Lemma handlePlayerAction_returns (playerName : string) (act : Action)
      (amt : option Z) (g : GameState) :
  exists g', handlePlayerAction playerName act amt g = Some g'.
Proof.
  unfold handlePlayerAction.
  destruct (String.eqb playerName ""); [eauto|].
  destruct (findIndex _ (players g)) as [i|] eqn:Hfind; [|eauto].
  destruct (negb (i =? activePlayerIndex g)%nat); [eauto|].
  destruct (findIndex_lookup _ _ _ Hfind) as (p & Hp & _).
  assert (Hs : exists s, playerSwitch act amt i g = Some s).
  { destruct act; simpl.
    - unfold doFold. rewrite Hp. eauto.
    - destruct (doCall_effect i g p Hp) as (s & _ & Hs & _). eauto.
    - destruct (raiseAccepted amt g) as [a|] eqn:Hacc.
      + destruct (doRaise_accepted i amt a g p Hp Hacc) as (s & Hs & _). eauto.
      + unfold doRaise. rewrite Hacc. eauto.
    - unfold doAllIn. rewrite Hp. cbn [mbind option_bind].
      match goal with |- context [if ?b then _ else _] => destruct b end; eauto. }
  destruct Hs as [s Hs]. rewrite Hs. cbn [mbind option_bind]. eauto.
Qed.

(** C3 (the code departs from the claim).  Chips and bet move by
    [min (currentBet - bet) chips] and the seat has acted, but the all-in
    flag is set when the amount equals the stack left after the debit.
    Facing a raise to 510 with 20 posted: a seat with 980 behind calls
    490, keeps 490, and is flagged all-in; a seat with 100 behind calls
    its whole stack and is not.  Both paths agree. *)
Theorem call_flags_all_in_on_debited_stack :
  (forall (i : nat) (g : GameState) (p : Player),
     players g !! i = Some p -> allIn p = false ->
     let callAmount := Z.min (currentBet g - bet p) (chips p) in
     exists g' p',
       doCall i g = Some g' /\ players g' !! i = Some p' /\
       chips p' = chips p - callAmount /\ bet p' = bet p + callAmount /\
       hasActed p' = true /\
       (allIn p' = true <-> callAmount = chips p - callAmount)) /\
  (exists g' p',
     handlePlayerAction "Hero" call None (facingRaise 980) = Some g' /\
     executeAIAction alwaysCall (facingRaise 980) = Some g' /\
     players g' !! 0%nat = Some p' /\
     chips p' = 490 /\ bet p' = 510 /\ allIn p' = true) /\
  (exists g' p',
     handlePlayerAction "Hero" call None (facingRaise 100) = Some g' /\
     executeAIAction alwaysCall (facingRaise 100) = Some g' /\
     players g' !! 0%nat = Some p' /\
     chips p' = 0 /\ bet p' = 120 /\ allIn p' = false).
Proof.
  split; [|split].
  - intros i g p H Hall a.
    destruct (doCall_effect i g p H) as (g' & p' & Hg & Hp & Hc & Hb & Ha & Hf).
    exists g', p'. repeat split; try assumption.
    + intros E. rewrite Hf, Hall, orb_false_r in E. apply Z.eqb_eq. exact E.
    + intros E. rewrite Hf. apply orb_true_iff. left. apply Z.eqb_eq. exact E.
  - eexists _, _. split; [vm_compute; reflexivity|].
    split; [vm_compute; reflexivity|]. split; [reflexivity|]. repeat split.
  - eexists _, _. split; [vm_compute; reflexivity|].
    split; [vm_compute; reflexivity|]. split; [reflexivity|]. repeat split.
Qed.

(** ** The early win *)

(** C6 (the code departs from the claim on the human path).  "Hero" folds
    and leaves seat 2 alone in the hand with 270 in live bets.  Through
    [executeAIAction] seat 2 is paid at once: its stack goes from 800 to
    1070, the phase is the showdown, and [payEarly] never looks at a
    card.  Through [handlePlayerAction] the round closes and nothing else
    happens: seat 2 still has 800, the bets stay live, the phase is still
    preflop and no winner is recorded. *)
Theorem human_fold_pays_nobody :
  (exists g' p2,
     executeAIAction alwaysFold headsUpLeft = Some g' /\
     players g' !! 2%nat = Some p2 /\ chips p2 = 1070 /\
     totalBetsOf (players g') = 0 /\
     phase g' = showdown /\ winner g' = Some 2%nat) /\
  (exists g' p2,
     handlePlayerAction "Hero" fold None headsUpLeft = Some g' /\
     bettingComplete g' = true /\ earlyWinner g' = Some 2%nat /\
     players g' !! 2%nat = Some p2 /\ chips p2 = 800 /\
     totalBetsOf (players g') = 270 /\
     phase g' = preflop /\ winner g' = None).
Proof.
  split.
  - eexists _, _. split; [vm_compute; reflexivity|].
    split; [reflexivity|]. repeat split.
  - eexists _, _. split; [vm_compute; reflexivity|].
    split; [reflexivity|]. split; [reflexivity|]. split; [reflexivity|]. repeat split.
Qed.

(** ** Two Pair *)

Lemma fold_left_max_ge (r : list Z) (x : Z) : x <= fold_left Z.max r x.
Proof.
  revert x. induction r as [|y r IH]; intros x; simpl; [lia|].
  pose proof (IH (Z.max x y)). lia.
Qed.

Lemma fold_left_min_le (r : list Z) (x : Z) : fold_left Z.min r x <= x.
Proof.
  revert x. induction r as [|y r IH]; intros x; simpl; [lia|].
  pose proof (IH (Z.min x y)). lia.
Qed.

Lemma minOf_le_maxOf (l : list Z) (lo hi : Z) :
  minOf l = Some lo -> maxOf l = Some hi -> lo <= hi.
Proof.
  destruct l as [|x r]; simpl; [discriminate|]. intros [= <-] [= <-].
  pose proof (fold_left_max_ge r x). pose proof (fold_left_min_le r x). lia.
Qed.

(** C7, the claim as stated fails: neither hand carries its fifth card as
    a kicker, and the second hand does not win the comparison (a positive
    result would say so). *)
Lemma two_pair_second_hand_does_not_win :
  exists e1 e2,
    evaluateFiveCardHand kingsAndQueens = Some e1 /\
    evaluateFiveCardHand kingsAndJacks = Some e2 /\
    Hand.kickers e1 <> [13; 12; 2] /\ Hand.kickers e2 <> [13; 11; 14] /\
    ~ (0 < compareHands e1 e2).
Proof.
  eexists _, _. split; [vm_compute; reflexivity|]. split; [vm_compute; reflexivity|].
  split; [discriminate|]. split; [discriminate|]. vm_compute. discriminate.
Qed.

(** ** The claims at the example tables *)

(** C1, the claim as stated fails.  After the early win on the table
    where "Hero" folds, stacks, bets and pot add up to 3270 instead of
    3000, the pot field still holding the 270 already paid out; and after
    the split of the 75-chip pot between two seats the seats hold 2999
    between them and the pot is empty: one chip is gone. *)
Lemma chip_total_changes_at_payout :
  (exists g',
     executeAIAction alwaysFold headsUpLeft = Some g' /\
     totalChips headsUpLeft = 3000 /\ totalChips g' = 3270) /\
  (exists g',
     advancePhase riverTie = Some g' /\
     totalChips riverTie = 3000 /\
     seatChips (players g') = 2999 /\ totalChips g' = 2999).
Proof.
  split.
  - eexists. split; [vm_compute; reflexivity|]. split; reflexivity.
  - eexists. split; [vm_compute; reflexivity|]. repeat split.
Qed.

(** On the three-handed table "Hero" calls, the policy calls for seat 1,
    which closes the round, and the flop is dealt: three moves, the same
    3000 chips.  On the river where seat 1 holds kings, the showdown has
    one winner and the seats hold the 3000 between them. *)
Lemma chips_conserved_witness :
  (exists g',
     rtc (bettingStep alwaysCall) threeHanded g' /\ phase g' = flop /\
     totalChips g' = totalChips threeHanded) /\
  (exists g',
     advancePhase riverWin = Some g' /\ winner g' = Some 1%nat /\
     seatChips (players g') = totalChips riverWin).
Proof.
  split.
  - assert (Hseq : exists g', rtc (bettingStep alwaysCall) threeHanded g' /\
                              phase g' = flop).
    { eexists. split.
      - eapply rtc_l.
        { eapply (humanActs alwaysCall "Hero"%string call None). vm_compute. reflexivity. }
        eapply rtc_l.
        { eapply (policyActs alwaysCall); [vm_compute; reflexivity | reflexivity]. }
        eapply rtc_l.
        { eapply (phaseAdvances alwaysCall); [discriminate | vm_compute; reflexivity]. }
        apply rtc_refl.
      - reflexivity. }
    destruct Hseq as (g' & Hrtc & Hflop). exists g'.
    split; [exact Hrtc|]. split; [exact Hflop|].
    exact (proj1 (chips_conserved_until_payout alwaysCall) threeHanded g' Hrtc).
  - assert (Hadv : exists g', advancePhase riverWin = Some g' /\ winner g' = Some 1%nat).
    { eexists. split; [vm_compute; reflexivity | reflexivity]. }
    destruct Hadv as (g' & Hadv & Hw). exists g'.
    split; [exact Hadv|]. split; [exact Hw|].
    exact (proj1 (proj2 (proj2 (chips_conserved_until_payout alwaysCall))
                   riverWin g' 1%nat eq_refl eq_refl Hadv Hw)).
Defined.

(** Seat 4 of the six-handed table raises to 60. *)
Lemma raise_contract_witness :
  exists g',
    handlePlayerAction "Hero" raise (Some 60) sixHanded = Some g' /\
    raiseContract 4 60 sixHanded g' /\ pot g' = pot sixHanded.
Proof.
  refine (proj1 raise_contract "Hero"%string 60 sixHanded _ _ _ _).
  - discriminate.
  - reflexivity.
  - simpl. lia.
  - simpl. lia.
Defined.

(** On the tied river the seats holding a best hand are seats 0 and 1. *)
Lemma riverTie_best (i : nat) : i ∈ [0%nat; 1%nat] <-> bestSeat riverTie i.
Proof.
  assert (Hothers : forall h j hj,
            h = Hand.mk 0 "High Card" [14; 13; 11; 9; 7] 14 ->
            seatHand riverTie j hj -> compareHands h hj <= 0).
  { intros h j hj -> (p & Hp & Hin & E).
    destruct j as [|[|[|j]]]; simpl in Hp; try discriminate;
      injection Hp as <-; try discriminate Hin;
      vm_compute in E; injection E as <-; vm_compute; discriminate. }
  split.
  - intros Hi. exists (Hand.mk 0 "High Card" [14; 13; 11; 9; 7] 14).
    split; [|intros j hj; apply Hothers; reflexivity].
    apply elem_of_cons in Hi as [->|Hi];
      [|apply elem_of_cons in Hi as [->|Hi]; [|inversion Hi]].
    + eexists. split; [reflexivity|]. split; [reflexivity | vm_compute; reflexivity].
    + eexists. split; [reflexivity|]. split; [reflexivity | vm_compute; reflexivity].
  - intros (h & (p & Hp & Hin & _) & _).
    destruct i as [|[|[|i]]]; simpl in Hp; try discriminate.
    + apply elem_of_cons. left. reflexivity.
    + apply elem_of_cons. right. apply elem_of_cons. left. reflexivity.
    + injection Hp as <-. discriminate Hin.
Qed.

(** The tied river: 75 chips between two seats is 37 each and one chip
    short. *)
Lemma split_pot_witness :
  exists g',
    advancePhase riverTie = Some g' /\
    pot g' = 0 /\ winner g' = None /\
    seatChips (players g') = totalChips riverTie - 75 mod 2 /\
    totalChips g' = totalChips riverTie - 75 mod 2.
Proof.
  assert (Hadv : exists g', advancePhase riverTie = Some g')
    by (eexists; vm_compute; reflexivity).
  destruct Hadv as (g' & Hadv). exists g'. split; [exact Hadv|].
  assert (Hnd : NoDup [0%nat; 1%nat]).
  { apply NoDup_cons. split.
    - intros H. apply elem_of_cons in H as [H|H]; [discriminate | inversion H].
    - apply NoDup_cons. split; [intros H; inversion H | apply NoDup_nil_2]. }
  destruct (split_pot_remainder riverTie g' [0%nat; 1%nat] eq_refl eq_refl Hadv Hnd
              riverTie_best (le_n 2))
    as (Hpot & Hw & _ & _ & Hseats & Htotal).
  split; [exact Hpot|]. split; [exact Hw|]. split; [exact Hseats | exact Htotal].
Defined.

(** * Further properties of the engine *)

(** ** The deck *)

Lemma swap_perm {A : Type} (i j : nat) (l : list A) : swap i j l ≡ₚ l.
Proof.
  unfold swap. destruct (l !! i) as [x|] eqn:Hi; [|reflexivity].
  destruct (l !! j) as [y|] eqn:Hj; [|reflexivity].
  exact (Permutation_insert_swap l i j x y Hi Hj).
Qed.

Lemma swap_length {A : Type} (i j : nat) (l : list A) : length (swap i j l) = length l.
Proof.
  apply Permutation_length. apply swap_perm.
Qed.

(** In range, the swap puts each of the two entries at the other's index. *)
Lemma swap_lookup {A : Type} (i j : nat) (l : list A) (x y : A) :
  l !! i = Some x -> l !! j = Some y ->
  swap i j l !! i = Some y /\ swap i j l !! j = Some x.
Proof.
  intros Hi Hj. unfold swap. rewrite Hi, Hj.
  assert (Li : (i < length l)%nat) by (apply lookup_lt_is_Some; eauto).
  assert (Lj : (j < length l)%nat) by (apply lookup_lt_is_Some; eauto).
  destruct (decide (i = j)) as [->|N].
  - assert (x = y) as -> by congruence.
    rewrite list_lookup_insert_eq by (rewrite length_insert; exact Lj).
    split; reflexivity.
  - split.
    + rewrite list_lookup_insert_ne by congruence.
      apply list_lookup_insert_eq. exact Li.
    + apply list_lookup_insert_eq. rewrite length_insert. exact Lj.
Qed.

Lemma shuffleFrom_perm {A : Type} (draw : nat -> nat) (i : nat) :
  forall l : list A, shuffleFrom draw i l ≡ₚ l.
Proof.
  induction i as [|i IH]; intros l; simpl; [reflexivity|].
  rewrite IH. apply swap_perm.
Qed.

Lemma elem_of_orderedDeck (c : Card) :
  c ∈ orderedDeck <->
  exists (index : nat) (r : string),
    RANKS !! index = Some r /\ Card.rank c = r /\ Card.value c = Z.of_nat index + 2.
Proof.
  unfold orderedDeck. rewrite list_elem_of_In, in_flat_map. split.
  - intros (s & _ & Hc). apply list_elem_of_In in Hc.
    apply list_elem_of_lookup in Hc as [index Hc].
    rewrite list_lookup_imap in Hc.
    destruct (RANKS !! index) as [r|] eqn:Hr; [|discriminate].
    simpl in Hc. injection Hc as <-. exists index, r.
    split; [exact Hr|]. split; reflexivity.
  - intros (index & r & Hr & <- & Hv). exists (Card.suit c). split.
    + unfold SUITS. destruct (Card.suit c); simpl; tauto.
    + apply list_elem_of_In. apply list_elem_of_lookup. exists index.
      rewrite list_lookup_imap, Hr. simpl. f_equal.
      destruct c as [cr cs cv]. simpl in *. subst cv. reflexivity.
Qed.

Lemma NoDup_orderedDeck : NoDup orderedDeck.
Proof.
  apply (bool_decide_unpack (NoDup orderedDeck)). vm_compute. exact I.
Qed.

Lemma swap_lookup_other {A : Type} (i j k : nat) (l : list A) :
  k <> i -> k <> j -> swap i j l !! k = l !! k.
Proof.
  intros Hi Hj. unfold swap. destruct (l !! i); [|reflexivity].
  destruct (l !! j); [|reflexivity].
  rewrite !list_lookup_insert_ne by congruence. reflexivity.
Qed.

(** The steps from index [i] down leave every higher index alone. *)
Lemma shuffleFrom_above {A : Type} (draw : nat -> nat) :
  (forall k, (draw k <= k)%nat) ->
  forall (i : nat) (l : list A) (k : nat),
    (i < k)%nat -> shuffleFrom draw i l !! k = l !! k.
Proof.
  intros Hdraw. induction i as [|i IH]; intros l k Hk; simpl; [reflexivity|].
  rewrite IH by lia. apply swap_lookup_other; [lia|].
  pose proof (Hdraw (S i)). lia.
Qed.

(** X1.  With every draw in [0 .. i], as the floor of [random * (i + 1)]
    is, the shuffle returns a permutation of the array it is given, and
    its last entry is the one the first draw picked (later steps never
    touch it).  The deck of [createDeck] then has 52 cards, no card
    twice, and holds exactly the cards of the four suits with the
    thirteen ranks valued 2 to 14. *)
Theorem createDeck_integrity (draw : nat -> nat) :
  (forall i, (draw i <= i)%nat) ->
  (forall deck_ : list Card,
     shuffleDeck draw deck_ ≡ₚ deck_ /\
     shuffleDeck draw deck_ !! (length deck_ - 1)%nat
       = deck_ !! draw (length deck_ - 1)%nat) /\
  length (createDeck draw) = 52%nat /\
  NoDup (createDeck draw) /\
  (forall c, c ∈ createDeck draw <->
     exists (index : nat) (r : string),
       RANKS !! index = Some r /\ Card.rank c = r /\
       Card.value c = Z.of_nat index + 2) /\
  (forall c, c ∈ createDeck draw -> 2 <= Card.value c <= 14).
Proof.
  intros Hdraw.
  assert (Hperm : forall deck_ : list Card, shuffleDeck draw deck_ ≡ₚ deck_)
    by (intros deck_; apply shuffleFrom_perm).
  split.
  { intros deck_. split; [apply Hperm|]. unfold shuffleDeck.
    destruct (length deck_ - 1)%nat as [|m] eqn:Hm.
    - simpl. assert (draw 0%nat = 0%nat) as -> by (pose proof (Hdraw 0%nat); lia).
      reflexivity.
    - simpl. rewrite (shuffleFrom_above draw Hdraw) by lia.
      assert (Lm : (S m < length deck_)%nat) by lia.
      assert (Ld : (draw (S m) < length deck_)%nat)
        by (pose proof (Hdraw (S m)); lia).
      destruct (lookup_lt_is_Some_2 _ _ Lm) as [x Hx].
      destruct (lookup_lt_is_Some_2 _ _ Ld) as [y Hy].
      rewrite (proj1 (swap_lookup _ _ _ _ _ Hx Hy)), Hy. reflexivity. }
  assert (Hdeck : createDeck draw ≡ₚ orderedDeck) by apply Hperm.
  split; [rewrite Hdeck; reflexivity|].
  split; [rewrite Hdeck; exact NoDup_orderedDeck|].
  split; [intros c; rewrite Hdeck; apply elem_of_orderedDeck|].
  intros c. rewrite Hdeck, elem_of_orderedDeck.
  intros (index & r & Hr & _ & ->).
  assert (index < 13)%nat by (apply lookup_lt_Some in Hr; exact Hr). lia.
Qed.

Lemma createDeck_integrity_witness :
  length (createDeck (fun i => i / 2)%nat) = 52%nat /\
  NoDup (createDeck (fun i => i / 2)%nat).
Proof.
  destruct (createDeck_integrity (fun i => i / 2)%nat) as (_ & Hlen & Hnd & _).
  - intros i. apply Nat.Div0.div_le_upper_bound. lia.
  - split; [exact Hlen | exact Hnd].
Defined.

(** ** The event log *)

(** X2.  The log never holds more than 50 entries: after [addToLog] it
    has one entry more than before, capped at 50; it ends with the new
    entry, and before it come the most recent entries of the old log, in
    their order. *)
Theorem addToLog_bounded (timestamp message : string) (prev : list string) :
  length (addToLog timestamp message prev) = Nat.min 50 (S (length prev)) /\
  last (addToLog timestamp message prev)
    = Some (String.append "[" (String.append timestamp (String.append "] " message))) /\
  addToLog timestamp message prev `suffix_of`
    prev ++ [String.append "[" (String.append timestamp (String.append "] " message))].
Proof.
  unfold addToLog, sliceLast. split; [|split].
  - rewrite length_app, length_drop. cbn [length]. lia.
  - apply last_snoc.
  - apply suffix_app. apply suffix_drop.
Qed.

(** ** The scans find the nearest seat *)

Lemma round_reaches (start n j : nat) :
  (j < n)%nat -> exists k, (k < n)%nat /\ ((start + k) mod n)%nat = j.
Proof.
  intros Hj. assert (Hs : (start mod n < n)%nat) by (apply Nat.mod_upper_bound; lia).
  destruct (le_lt_dec (start mod n) j) as [Hle|Hgt].
  - exists (j - start mod n)%nat. split; [lia|].
    rewrite <- Nat.Div0.add_mod_idemp_l.
    replace (start mod n + (j - start mod n))%nat with j by lia.
    apply Nat.mod_small. exact Hj.
  - exists (j + n - start mod n)%nat. split; [lia|].
    rewrite <- Nat.Div0.add_mod_idemp_l.
    replace (start mod n + (j + n - start mod n))%nat with (j + 1 * n)%nat by lia.
    rewrite Nat.Div0.mod_add. apply Nat.mod_small. exact Hj.
Qed.

Lemma scanLoop_first (qualifies : Player -> bool) (ps : list Player) (start : nat) :
  forall left a0 : nat,
    match scanLoop qualifies ps left ((start + a0) mod length ps) a0 with
    | Found i a =>
        (a0 <= a < a0 + left)%nat /\ i = ((start + a) mod length ps)%nat /\
        forall k p, (a0 <= k < a)%nat -> ps !! ((start + k) mod length ps)%nat = Some p ->
                    qualifies p = false
    | Exhausted a =>
        forall k p, (a0 <= k < a0 + left)%nat ->
                    ps !! ((start + k) mod length ps)%nat = Some p ->
                    qualifies p = false
    | ReadOutside => True
    end.
Proof.
  induction left as [|left IH]; intros a0; simpl.
  - intros k p Hk. lia.
  - destruct (ps !! ((start + a0) mod length ps)%nat) as [p0|] eqn:Hp0; [|exact I].
    destruct (qualifies p0) eqn:Hq.
    + split; [lia|]. split; [reflexivity|]. intros k p Hk. lia.
    + specialize (IH (S a0)).
      replace (((start + a0) mod length ps + 1) mod length ps)%nat
        with ((start + S a0) mod length ps)%nat
        by (rewrite Nat.Div0.add_mod_idemp_l; f_equal; lia).
      destruct (scanLoop qualifies ps left _ (S a0)) as [i a|a|]; [| |exact I].
      * destruct IH as (Ha & Hi & Hbefore). split; [lia|]. split; [exact Hi|].
        intros k p Hk Hp. destruct (decide (k = a0)) as [->|N].
        -- congruence.
        -- apply (Hbefore k p); [lia | exact Hp].
      * intros k p Hk Hp. destruct (decide (k = a0)) as [->|N].
        -- congruence.
        -- apply (IH k p); [lia | exact Hp].
Qed.

Lemma scan_nearest (qualifies : Player -> bool) (ps : list Player) (from : nat) :
  (exists j p, ps !! j = Some p /\ qualifies p = true) ->
  nearestAfter qualifies ps from
    (scanResult from
       (scanLoop qualifies ps (length ps) ((from + 1) mod length ps) 0)).
Proof.
  intros (j & pj & Hj & Hqj).
  pose proof (scanLoop_bounded qualifies ps from) as (_ & _ & Hfound & _).
  pose proof (scanLoop_first qualifies ps (from + 1) (length ps) 0) as Hfirst.
  rewrite Nat.add_0_r in Hfirst.
  destruct (scanLoop qualifies ps (length ps) ((from + 1) mod length ps) 0)
    as [i a|a|] eqn:Hscan.
  - destruct (Hfound i a eq_refl) as (_ & Hq).
    destruct Hfirst as (Ha & Hi & Hbefore).
    simpl. exists a. split; [lia|]. split; [exact Hi|]. split; [exact Hq|].
    intros k p Hk. apply Hbefore. lia.
  - exfalso. assert (Ljn : (j < length ps)%nat) by (apply lookup_lt_is_Some; eauto).
    destruct (round_reaches (from + 1) (length ps) j Ljn) as (k & Hk & Ek).
    pose proof (Hfirst k pj ltac:(lia)) as Hno. rewrite Ek in Hno.
    rewrite (Hno Hj) in Hqj. discriminate.
  - exfalso. pose proof (scanLoop_bounded qualifies ps from) as (Hne & _).
    apply Hne. exact Hscan.
Qed.

(** X3.  When some seat can act, [getNextActivePlayer] returns the first
    seat after the active one, going round the table, that is not folded,
    not all-in and not eliminated; when some seat is not eliminated,
    [getNextDealerIndex] returns the first seat after the dealer that is
    not eliminated.  (The seat itself comes last in the round, so it is
    returned when it is the only one.) *)
Theorem next_seat_is_nearest (game : GameState) :
  ((exists j p, players game !! j = Some p /\ canAct p = true) ->
   nearestAfter canAct (players game) (activePlayerIndex game)
                (getNextActivePlayer game)) /\
  ((exists j p, players game !! j = Some p /\ eliminated p = false) ->
   nearestAfter (fun p => negb (eliminated p)) (players game) (dealerIndex game)
                (getNextDealerIndex game)).
Proof.
  split.
  - intros H. exact (scan_nearest canAct (players game) (activePlayerIndex game) H).
  - intros (j & p & Hp & He).
    apply (scan_nearest (fun p => negb (eliminated p)) (players game) (dealerIndex game)).
    exists j, p. split; [exact Hp|]. rewrite He. reflexivity.
Qed.

(** ** What an action leaves alone *)

Lemma tableKept_refl (g : GameState) : tableKept g g.
Proof. repeat split. Qed.

Lemma playerSwitch_tableKept (a : Action) (amt : option Z) (i : nat) (g s : GameState) :
  playerSwitch a amt i g = Some s ->
  tableKept g s /\ activePlayerIndex s = activePlayerIndex g.
Proof.
  destruct a; simpl.
  - unfold doFold. destruct (players g !! i); [|discriminate].
    cbn [mbind option_bind]. intros [= <-]. repeat split.
  - unfold doCall. destruct (players g !! i); [|discriminate].
    cbn [mbind option_bind].
    match goal with |- context [?l !! i ≫= _] => destruct (l !! i) end;
      [|discriminate].
    cbn [mbind option_bind].
    match goal with |- context [if ?b then _ else _] => destruct b end;
      intros [= <-]; repeat split.
  - unfold doRaise. destruct (raiseAccepted amt g); [|intros [= <-]; repeat split].
    destruct (players g !! i); [|discriminate].
    cbn [mbind option_bind].
    match goal with |- context [?l !! i ≫= _] => destruct (l !! i) end;
      [|discriminate].
    cbn [mbind option_bind].
    match goal with |- context [if ?b then _ else _] => destruct b end;
      intros [= <-]; repeat split.
  - unfold doAllIn. destruct (players g !! i); [|discriminate].
    cbn [mbind option_bind].
    match goal with |- context [if ?b then _ else _] => destruct b end;
      intros [= <-]; repeat split.
Qed.

Lemma aiSwitch_tableKept (d : Decision) (i : nat) (g s : GameState) :
  aiSwitch d i g = Some s ->
  tableKept g s /\ activePlayerIndex s = activePlayerIndex g.
Proof.
  unfold aiSwitch. destruct d as [[] amt]; cbn [action amount].
  - exact (playerSwitch_tableKept fold None i g s).
  - exact (playerSwitch_tableKept call None i g s).
  - exact (playerSwitch_tableKept raise amt i g s).
  - intros [= <-]. repeat split.
Qed.

Lemma aiActed_inv (policy : Player -> GameState -> option Decision) (g s : GameState) :
  aiActed policy g = Some s ->
  exists p d n,
    players g !! activePlayerIndex g = Some p /\ policy p g = Some d /\
    aiSwitch d (activePlayerIndex g) g = Some n /\
    s = setBettingComplete (isBettingComplete n) n.
Proof.
  unfold aiActed.
  destruct (players g !! activePlayerIndex g) as [p|]; [|discriminate].
  cbn [mbind option_bind]. destruct (policy p g) as [d|] eqn:Hd; [|discriminate].
  cbn [mbind option_bind].
  destruct (aiSwitch d (activePlayerIndex g) g) as [n|] eqn:Hn; [|discriminate].
  cbn [mbind option_bind]. intros [= <-]. exists p, d, n. repeat split; assumption.
Qed.

(** ** Whose turn it is *)

Lemma isBettingComplete_open (s : GameState) :
  isBettingComplete s = false ->
  exists j p, players s !! j = Some p /\ canAct p = true.
Proof.
  unfold isBettingComplete.
  destruct (List.filter canAct (players s)) as [|p l] eqn:Hf; [discriminate|].
  intros _.
  assert (Hp : p ∈ List.filter canAct (players s))
    by (rewrite Hf; apply elem_of_cons; left; reflexivity).
  apply elem_of_filter_bool in Hp as [Hin Hcan].
  apply list_elem_of_lookup in Hin as [j Hj]. exists j, p. split; assumption.
Qed.

Lemma closeOrPass_actor (s : GameState) :
  bettingComplete (closeOrPass s) = false ->
  nearestAfter canAct (players s) (activePlayerIndex s)
               (activePlayerIndex (closeOrPass s)) /\
  exists p, players (closeOrPass s) !! activePlayerIndex (closeOrPass s) = Some p /\
            canAct p = true.
Proof.
  unfold closeOrPass. cbn [bettingComplete setBettingComplete].
  destruct (isBettingComplete s) eqn:E; cbn [negb]; [discriminate|]. intros _.
  pose proof (scan_nearest canAct (players s) (activePlayerIndex s)
                (isBettingComplete_open s E)) as Hn.
  split; [exact Hn|]. destruct Hn as (_ & _ & _ & Hq & _). exact Hq.
Qed.

Lemma handlePlayerAction_accepted (playerName : string) (a : Action)
      (amt : option Z) (g g' : GameState) :
  hasTurn playerName g ->
  handlePlayerAction playerName a amt g = Some g' ->
  exists s, playerSwitch a amt (activePlayerIndex g) g = Some s /\ g' = closeOrPass s.
Proof.
  intros [Hname Hfind]. unfold handlePlayerAction.
  destruct (String.eqb_spec playerName ""); [contradiction|].
  rewrite Hfind, Nat.eqb_refl. cbn [negb].
  destruct (playerSwitch a amt (activePlayerIndex g) g) as [s|]; [|discriminate].
  cbn [mbind option_bind]. intros [= <-]. exists s. split; reflexivity.
Qed.

(** X4.  After an action of the seat to act, human or policy, a round
    that is still open has its turn at a seat that is not folded, not
    all-in and not eliminated: the first such seat after the one that
    acted. *)
Theorem open_round_turn_can_act :
  (forall playerName a amt g g',
     hasTurn playerName g ->
     handlePlayerAction playerName a amt g = Some g' ->
     bettingComplete g' = false ->
     nearestAfter canAct (players g') (activePlayerIndex g) (activePlayerIndex g')) /\
  (forall policy g g',
     executeAIAction policy g = Some g' ->
     bettingComplete g' = false ->
     nearestAfter canAct (players g') (activePlayerIndex g) (activePlayerIndex g')).
Proof.
  split.
  - intros playerName a amt g g' Hturn H Hopen.
    destruct (handlePlayerAction_accepted _ _ _ _ _ Hturn H) as (s & Hs & ->).
    destruct (closeOrPass_actor s Hopen) as [Hn _].
    destruct (closeOrPass_keeps s) as (-> & _).
    destruct (playerSwitch_tableKept _ _ _ _ _ Hs) as [_ Ha].
    rewrite <- Ha. exact Hn.
  - intros policy g g' H Hopen. unfold executeAIAction in H.
    destruct (aiActed policy g) as [s|] eqn:Hs; [|discriminate].
    cbn [mbind option_bind] in H. injection H as <-.
    unfold aiFinish in *. destruct (earlyWinner s) as [w|] eqn:Hw.
    + discriminate Hopen.
    + destruct (bettingComplete s) eqn:Hb; cbn [negb] in *; [congruence|].
      cbn [players activePlayerIndex setActivePlayerIndex].
      destruct (aiActed_inv _ _ _ Hs) as (p & d & n & _ & _ & Hn & ->).
      destruct (aiSwitch_tableKept _ _ _ _ Hn) as [_ Ha].
      cbn [bettingComplete setBettingComplete] in Hb.
      rewrite <- Ha.
      exact (scan_nearest canAct (players n) (activePlayerIndex n)
               (isBettingComplete_open n Hb)).
Qed.

(** ** The other seats during an action *)

Lemma setHasActed_same (q : Player) : setHasActed (hasActed q) q = q.
Proof. destruct q; reflexivity. Qed.

Lemma othersKept_refl (i : nat) (g : GameState) : othersKept i g g.
Proof.
  split; [reflexivity|]. intros j q _ Hq. exists q.
  split; [exact Hq|]. split; [apply setHasActed_same | tauto].
Qed.

(** Seats that are only reached through [assign] at [i] and, possibly,
    the re-opening of the round. *)
Lemma othersKept_of_lookup (i : nat) (g g' : GameState) :
  length (players g') = length (players g) ->
  (forall j, j <> i ->
     players g' !! j = players g !! j \/
     players g' !! j =
       (fun p => if canAct p then setHasActed false p else p) <$> players g !! j) ->
  othersKept i g g'.
Proof.
  intros Hlen Hlook. split; [exact Hlen|]. intros j q Hj Hq.
  destruct (Hlook j Hj) as [E|E]; rewrite E, Hq.
  - exists q. split; [reflexivity|]. split; [apply setHasActed_same | tauto].
  - simpl. destruct (canAct q).
    + eexists. split; [reflexivity|]. split; [destruct q; reflexivity|].
      simpl. discriminate.
    + exists q. split; [reflexivity|]. split; [apply setHasActed_same | tauto].
Qed.

Lemma reopenRound_other (i j : nat) (g : GameState) :
  j <> i ->
  players (reopenRound i g) !! j =
  (fun p => if canAct p then setHasActed false p else p) <$> players g !! j.
Proof.
  intros Hj. rewrite reopenRound_lookup.
  destruct (Nat.eqb_spec j i); [contradiction|]. reflexivity.
Qed.

Lemma reopenRound_length (i : nat) (g : GameState) :
  length (players (reopenRound i g)) = length (players g).
Proof. unfold reopenRound. simpl. apply length_imap. Qed.

Lemma assign_length (i : nat) (f : Player -> Player) (g : GameState) :
  length (players (assign i f g)) = length (players g).
Proof. unfold assign. simpl. apply length_alter. Qed.

Lemma playerSwitch_othersKept (a : Action) (amt : option Z) (i : nat) (g s : GameState) :
  playerSwitch a amt i g = Some s -> othersKept i g s.
Proof.
  destruct a; simpl.
  - unfold doFold. destruct (players g !! i); [|discriminate].
    cbn [mbind option_bind]. intros [= <-].
    apply othersKept_of_lookup; [rewrite !assign_length; reflexivity|].
    intros j Hj. left. rewrite !assign_lookup_ne by congruence. reflexivity.
  - unfold doCall. destruct (players g !! i); [|discriminate].
    cbn [mbind option_bind].
    match goal with |- context [?l !! i ≫= _] => destruct (l !! i) end;
      [|discriminate].
    cbn [mbind option_bind].
    match goal with |- context [if ?b then _ else _] => destruct b end;
      intros [= <-];
      (apply othersKept_of_lookup; [rewrite !assign_length; reflexivity|]);
      intros j Hj; left; rewrite !assign_lookup_ne by congruence; reflexivity.
  - destruct (raiseAccepted amt g) as [v|] eqn:Hacc.
    + destruct (players g !! i) as [p|] eqn:Hp.
      * destruct (doRaise_accepted i amt v g p Hp Hacc) as (s' & Hs' & Hc & _).
        rewrite Hs'. intros [= <-].
        destruct Hc as (p0 & p' & _ & _ & _ & _ & _ & _ & _ & Hlen & Hoth).
        apply othersKept_of_lookup; [exact Hlen|].
        intros j Hj. destruct (players g !! j) as [q|] eqn:Hq.
        -- right. rewrite (Hoth j q Hj Hq). reflexivity.
        -- left. apply lookup_ge_None. rewrite Hlen. apply lookup_ge_None. exact Hq.
      * unfold doRaise. rewrite Hacc, Hp. discriminate.
    + unfold doRaise. rewrite Hacc. intros [= <-]. apply othersKept_refl.
  - unfold doAllIn. destruct (players g !! i); [|discriminate].
    cbn [mbind option_bind].
    match goal with |- context [if ?b then _ else _] => destruct b end;
      intros [= <-].
    + apply othersKept_of_lookup;
        [rewrite reopenRound_length; cbn [players setCurrentBet];
         rewrite !assign_length; reflexivity|].
      intros j Hj. right. rewrite (reopenRound_other i j _ Hj).
      cbn [players setCurrentBet]. rewrite !assign_lookup_ne by congruence.
      reflexivity.
    + apply othersKept_of_lookup; [rewrite !assign_length; reflexivity|].
      intros j Hj. left. rewrite !assign_lookup_ne by congruence. reflexivity.
Qed.

Lemma tableKept_closeOrPass (g s : GameState) :
  tableKept g s -> tableKept g (closeOrPass s).
Proof.
  unfold closeOrPass. cbn [bettingComplete setBettingComplete].
  destruct (isBettingComplete s); cbn [negb]; intros H; exact H.
Qed.

(** X5.  An action submitted through [handlePlayerAction], whatever it is
    and whether or not it is accepted, changes no seat other than the one
    to act, except that a raise or an all-in may clear [hasActed] of
    others; the seat array keeps its size; and the board, the pot, the
    phase, the dealer, the blinds, the deck and its cursor stay as they
    were.  The same holds for the policy seat up to the point where
    [executeAIAction] looks for an early winner. *)
Theorem action_touches_only_the_actor :
  (forall playerName a amt g g',
     handlePlayerAction playerName a amt g = Some g' ->
     othersKept (activePlayerIndex g) g g' /\ tableKept g g') /\
  (forall policy g s,
     aiActed policy g = Some s ->
     othersKept (activePlayerIndex g) g s /\ tableKept g s).
Proof.
  split.
  - intros playerName a amt g g'. unfold handlePlayerAction.
    destruct (String.eqb playerName "");
      [intros [= <-]; split; [apply othersKept_refl | apply tableKept_refl]|].
    destruct (findIndex _ (players g)) as [i|];
      [|intros [= <-]; split; [apply othersKept_refl | apply tableKept_refl]].
    destruct (Nat.eqb_spec i (activePlayerIndex g)) as [->|N]; cbn [negb];
      [|intros [= <-]; split; [apply othersKept_refl | apply tableKept_refl]].
    destruct (playerSwitch a amt (activePlayerIndex g) g) as [s|] eqn:Hs;
      [|discriminate].
    cbn [mbind option_bind]. intros [= <-].
    destruct (closeOrPass_keeps s) as (Kp & _).
    pose proof (playerSwitch_othersKept _ _ _ _ _ Hs) as Ho.
    destruct (playerSwitch_tableKept _ _ _ _ _ Hs) as [Ht _].
    split; [|exact (tableKept_closeOrPass _ _ Ht)].
    unfold othersKept. rewrite Kp. exact Ho.
  - intros policy g s Hs.
    destruct (aiActed_inv _ _ _ Hs) as (p & d & n & _ & _ & Hn & ->).
    destruct (aiSwitch_tableKept _ _ _ _ Hn) as [Ht _]. split; [|exact Ht].
    unfold aiSwitch in Hn. destruct d as [[] amt]; cbn [action amount] in Hn.
    + exact (playerSwitch_othersKept fold None _ _ _ Hn).
    + exact (playerSwitch_othersKept call None _ _ _ Hn).
    + exact (playerSwitch_othersKept raise amt _ _ _ Hn).
    + injection Hn as <-. exact (othersKept_refl (activePlayerIndex g) g).
Qed.

(** ** All-in, and bets that go down *)

Lemma handlePlayerAction_turn (playerName : string) (a : Action) (amt : option Z)
      (g : GameState) :
  hasTurn playerName g ->
  handlePlayerAction playerName a amt g =
  (s ← playerSwitch a amt (activePlayerIndex g) g; Some (closeOrPass s)).
Proof.
  intros [Hname Hfind]. unfold handlePlayerAction.
  destruct (String.eqb_spec playerName ""); [contradiction|].
  rewrite Hfind, Nat.eqb_refl. reflexivity.
Qed.

Lemma doAllIn_effect (i : nat) (g : GameState) (p : Player) :
  players g !! i = Some p ->
  let allInAmount := chips p + bet p in
  exists g',
    doAllIn i g = Some g' /\
    players g' !! i
      = Some (setHasActed true (setAllIn true (setBet allInAmount (setChips 0 p)))) /\
    currentBet g' = Z.max (currentBet g) allInAmount /\
    forall j q, j <> i -> players g !! j = Some q ->
      players g' !! j =
      Some (if (currentBet g <? allInAmount) && canAct q
            then setHasActed false q else q).
Proof.
  intros H t. unfold doAllIn. rewrite H. cbn [mbind option_bind]. fold t.
  set (g1 := assign i (setChips 0) g).
  set (g2 := assign i (setBet t) g1).
  set (g3 := assign i (setAllIn true) g2).
  set (g4 := assign i (setHasActed true) g3).
  pose proof (assign_lookup i _ g p H : players g1 !! i = Some _) as H1.
  pose proof (assign_lookup i _ g1 _ H1 : players g2 !! i = Some _) as H2.
  pose proof (assign_lookup i _ g2 _ H2 : players g3 !! i = Some _) as H3.
  pose proof (assign_lookup i _ g3 _ H3 : players g4 !! i = Some _) as H4.
  assert (Hne : forall j, j <> i -> players g4 !! j = players g !! j).
  { intros j Hj. unfold g4, g3, g2, g1. rewrite !assign_lookup_ne by congruence.
    reflexivity. }
  destruct (Z.ltb_spec (currentBet g) t) as [Hlt|Hge].
  - eexists. split; [reflexivity|]. split; [|split].
    + rewrite reopenRound_lookup. cbn [players setCurrentBet]. rewrite H4.
      simpl. rewrite Nat.eqb_refl. reflexivity.
    + cbn [currentBet reopenRound setPlayers setCurrentBet]. lia.
    + intros j q Hj Hq. rewrite (reopenRound_other i j _ Hj).
      cbn [players setCurrentBet]. rewrite (Hne j Hj), Hq. reflexivity.
  - eexists. split; [reflexivity|]. split; [exact H4|]. split.
    + change (currentBet g4) with (currentBet g). lia.
    + intros j q Hj Hq. rewrite (Hne j Hj), Hq. reflexivity.
Qed.

(** X6.  An all-in by the seat to act puts its whole stack behind its bet
    (stack 0, bet = old stack + old bet), marks it all-in and acted, and
    changes nothing else of it.  The current bet becomes the larger of
    itself and that bet, so it never goes down; when it goes up, every
    other seat that can still act has [hasActed] cleared, and otherwise
    no other seat changes. *)
Theorem all_in_contract (playerName : string) (amt : option Z) (g : GameState)
        (p : Player) :
  hasTurn playerName g ->
  players g !! activePlayerIndex g = Some p ->
  let allInAmount := chips p + bet p in
  exists g',
    handlePlayerAction playerName allin amt g = Some g' /\
    players g' !! activePlayerIndex g
      = Some (setHasActed true (setAllIn true (setBet allInAmount (setChips 0 p)))) /\
    currentBet g' = Z.max (currentBet g) allInAmount /\
    pot g' = pot g /\
    forall j q, j <> activePlayerIndex g -> players g !! j = Some q ->
      players g' !! j =
      Some (if (currentBet g <? allInAmount) && canAct q
            then setHasActed false q else q).
Proof.
  intros Hturn Hp t.
  destruct (doAllIn_effect _ g p Hp) as (s & Hs & Hi & Hc & Ho).
  exists (closeOrPass s). rewrite (handlePlayerAction_turn _ _ _ _ Hturn).
  cbn [playerSwitch]. rewrite Hs. cbn [mbind option_bind].
  destruct (closeOrPass_keeps s) as (Kp & Kpot & Kc & _).
  destruct (playerSwitch_tableKept allin amt _ _ _ Hs) as [(_ & Hpot & _) _].
  rewrite Kp, Kc, Kpot. split; [reflexivity|]. split; [exact Hi|].
  split; [exact Hc|]. split; [exact Hpot | exact Ho].
Qed.

Lemma all_in_contract_witness :
  exists g',
    handlePlayerAction "Hero" allin None sixHanded = Some g' /\
    currentBet g' = 1000.
Proof.
  assert (Hturn : hasTurn "Hero" sixHanded) by (split; [discriminate | reflexivity]).
  destruct (all_in_contract "Hero" None sixHanded
              (seatOf "Hero" 4 1000 0 false false []) Hturn eq_refl)
    as (g' & Hg & _ & Hc & _).
  exists g'. split; [exact Hg | exact Hc].
Defined.

(** X7.  The current bet can go down, and chips can come back.  A raise
    above the current bet by a seat whose stack and bet together are
    below it is accepted and sets the current bet to that smaller total.
    A seat whose bet is above the current bet and that calls gets the
    difference back from its bet into its stack. *)
Theorem bet_can_go_down :
  (forall playerName a g p,
     hasTurn playerName g ->
     players g !! activePlayerIndex g = Some p ->
     0 <= currentBet g -> currentBet g < a ->
     chips p + bet p < currentBet g ->
     exists g', handlePlayerAction playerName raise (Some a) g = Some g' /\
                currentBet g' = chips p + bet p /\ currentBet g' < currentBet g) /\
  (forall playerName amt g p,
     hasTurn playerName g ->
     players g !! activePlayerIndex g = Some p ->
     currentBet g < bet p -> 0 <= chips p ->
     exists g' p',
       handlePlayerAction playerName call amt g = Some g' /\
       players g' !! activePlayerIndex g = Some p' /\
       bet p' = currentBet g /\
       chips p' = chips p + (bet p - currentBet g) /\ chips p < chips p').
Proof.
  split.
  - intros playerName a g p Hturn Hp H0 Hlt Hshort.
    destruct (doRaise_contract _ a g p Hp H0 Hlt) as (s & Hs & Hc & _).
    exists (closeOrPass s). rewrite (handlePlayerAction_turn _ _ _ _ Hturn).
    cbn [playerSwitch]. rewrite Hs. cbn [mbind option_bind].
    destruct (closeOrPass_keeps s) as (_ & _ & Kc & _).
    destruct Hc as (p0 & p' & Hp0 & _ & _ & _ & _ & _ & Hcur & _).
    assert (p0 = p) as -> by congruence.
    rewrite Kc, Hcur. split; [reflexivity|]. split; lia.
  - intros playerName amt g p Hturn Hp Hover Hchips.
    destruct (doCall_effect _ g p Hp) as (s & p' & Hs & Hp' & Hc & Hb & _).
    exists (closeOrPass s), p'. rewrite (handlePlayerAction_turn _ _ _ _ Hturn).
    cbn [playerSwitch]. rewrite Hs. cbn [mbind option_bind].
    destruct (closeOrPass_keeps s) as (Kp & _). rewrite Kp.
    split; [reflexivity|]. split; [exact Hp'|]. rewrite Hc, Hb. lia.
Qed.

(** ** The board and the deck across a phase advance *)

Lemma credit_fold_table (v : Z) (l : list nat) :
  forall s : GameState,
    communityCards (fold_left (credit v) l s) = communityCards s /\
    deck (fold_left (credit v) l s) = deck s /\
    deckIndex (fold_left (credit v) l s) = deckIndex s.
Proof.
  induction l as [|a l IH]; intros s; simpl; [repeat split|].
  destruct (IH (credit v s a)) as (H1 & H2 & H3). rewrite H1, H2, H3. repeat split.
Qed.

Lemma payShowdown_table (s paid : GameState) :
  payShowdown s = Some paid ->
  communityCards paid = communityCards s /\ deck paid = deck s /\
  deckIndex paid = deckIndex s.
Proof.
  intros H. destruct (payShowdown_inv s paid H)
    as [(w & p & _ & -> & _) | (sorted & w & second & rest & _ & _ & _ & ->)].
  - repeat split.
  - unfold splitPot. cbn [communityCards deck deckIndex setWinner setPot].
    apply credit_fold_table.
Qed.

(** The closing loop changes the turn and nothing else. *)
Lemma settleLoop_only_turn (fuel : nat) :
  forall s s' : GameState,
    settleLoop fuel s = Some s' -> s' = setActivePlayerIndex (activePlayerIndex s') s.
Proof.
  induction fuel as [|fuel IH]; intros s s'; simpl;
    destruct (players s !! activePlayerIndex s) as [p|]; try discriminate;
    cbn [mbind option_bind]; destruct (folded p || eliminated p); try discriminate;
    try (intros [= <-]; destruct s; reflexivity).
  intros H. rewrite (IH _ _ H) at 1. reflexivity.
Qed.

Lemma settleLoop_in_hand (fuel : nat) :
  forall s s' : GameState,
    settleLoop fuel s = Some s' ->
    exists p, players s' !! activePlayerIndex s' = Some p /\
              folded p = false /\ eliminated p = false.
Proof.
  induction fuel as [|fuel IH]; intros s s'; simpl;
    destruct (players s !! activePlayerIndex s) as [p|] eqn:Hp; try discriminate;
    cbn [mbind option_bind]; destruct (folded p || eliminated p) eqn:Hf;
    try discriminate;
    try (intros [= <-]; exists p; split; [exact Hp|];
         apply orb_false_iff in Hf; exact Hf).
  intros H. exact (IH _ _ H).
Qed.

Lemma advancePhase_accepted (g g' : GameState) :
  bettingComplete g = true -> advancePhase g = Some g' ->
  exists dealt,
    dealPhase g (collectBets g) = Some dealt /\
    ((phase dealt = showdown /\ g' = dealt) \/
     (phase dealt <> showdown /\
      exists first, firstToAct dealt = Some first /\
        settleLoop (length (players dealt)) (setActivePlayerIndex first dealt)
          = Some g')).
Proof.
  intros Hbc. unfold advancePhase. rewrite Hbc. cbn [negb andb].
  destruct (dealPhase g (collectBets g)) as [d|]; [|discriminate].
  cbn [mbind option_bind]. intros H. exists d. split; [reflexivity|].
  destruct (decide (phase d = showdown)) as [E|N].
  - rewrite bool_decide_eq_true_2 in H by exact E. injection H as <-. left.
    split; [exact E | reflexivity].
  - rewrite bool_decide_eq_false_2 in H by exact N. right. split; [exact N|].
    destruct (firstToAct d) as [f|]; [|discriminate]. cbn [mbind option_bind] in H.
    exists f. split; [reflexivity | exact H].
Qed.

Lemma dealPhase_board (g dealt : GameState) :
  dealPhase g (collectBets g) = Some dealt ->
  deck dealt = deck g /\
  deckIndex dealt = (deckIndex g + dealtCount (phase g))%nat /\
  communityCards dealt =
    (if bool_decide (phase g = preflop) then [] else communityCards g)
    ++ deckSlice (deck g) (deckIndex g) (dealtCount (phase g)) /\
  phase dealt = nextPhase (phase g).
Proof.
  unfold dealPhase. destruct (phase g) eqn:Hph;
    try (intros [= <-]; cbn; rewrite ?Nat.add_0_r, ?app_nil_r; repeat split;
         rewrite ?Hph; reflexivity).
  destruct (payShowdown _) as [paid|] eqn:Hpay; [|discriminate].
  cbn [mbind option_bind]. intros [= <-].
  destruct (payShowdown_table _ _ Hpay) as (Hc & Hd & Hi).
  pose proof (payShowdown_phase _ _ Hpay) as Hp.
  cbn [communityCards deck deckIndex phase setBettingComplete].
  rewrite Hc, Hd, Hi, Hp. cbn. rewrite Nat.add_0_r, app_nil_r. repeat split.
Qed.

(** X8.  An accepted phase advance never touches the deck and never
    rewinds its cursor: it moves the cursor on by three out of the
    preflop, by one out of the flop and out of the turn, and not at all
    otherwise; the board afterwards is the old board (emptied first out
    of the preflop) followed by exactly the deck entries the cursor
    passed, in deck order; and the phase is the next one. *)
Theorem board_follows_deck (g g' : GameState) :
  bettingComplete g = true -> advancePhase g = Some g' ->
  deck g' = deck g /\
  deckIndex g' = (deckIndex g + dealtCount (phase g))%nat /\
  communityCards g' =
    (if bool_decide (phase g = preflop) then [] else communityCards g)
    ++ deckSlice (deck g) (deckIndex g) (dealtCount (phase g)) /\
  phase g' = nextPhase (phase g).
Proof.
  intros Hbc H.
  destruct (advancePhase_accepted g g' Hbc H)
    as (d & Hd & [[_ ->] | (_ & f & _ & Hloop)]).
  - exact (dealPhase_board g d Hd).
  - rewrite (settleLoop_only_turn _ _ _ Hloop).
    cbn [deck deckIndex communityCards phase setActivePlayerIndex].
    exact (dealPhase_board g d Hd).
Qed.

(** ** The turn after a phase advance *)

Lemma refsFrom_map (f : Player -> bool) (h : Player -> Player) (ps : list Player) :
  (forall p, f (h p) = f p) ->
  forall k, refsFrom f k (map h ps) = refsFrom f k ps.
Proof.
  intros Hf. induction ps as [|p ps IH]; intros k; simpl; [reflexivity|].
  rewrite Hf, !IH. reflexivity.
Qed.

Lemma firstToAct_ext (g d : GameState) :
  refs (fun p => negb (eliminated p)) (players d)
    = refs (fun p => negb (eliminated p)) (players g) ->
  dealerIndex d = dealerIndex g ->
  firstToAct d = firstToAct g.
Proof.
  intros Hr Hd. unfold firstToAct. rewrite Hr, Hd. reflexivity.
Qed.

(** Out of the preflop, the flop and the turn the dealt state has the
    seats of [collectBets] and the dealer of before. *)
Lemma dealPhase_seats (g dealt : GameState) :
  phase g <> river ->
  dealPhase g (collectBets g) = Some dealt ->
  players dealt = map (fun p => setHasActed false (setBet 0 p)) (players g) /\
  dealerIndex dealt = dealerIndex g.
Proof.
  intros Hph. unfold dealPhase. destruct (phase g); try contradiction;
    intros [= <-]; split; reflexivity.
Qed.

(** X9.  A phase advance can fail to return.  When the round is closed
    before the river, the first seat after the dealer that is not
    eliminated has folded, and no seat at the table can act (each is
    folded, all-in or eliminated), [advancePhase] reaches its closing
    loop with the turn at that folded seat; [getNextActivePlayer] then
    finds nobody and hands back the same index, so the loop condition
    stays true and the state is the same at every turn of the loop. *)
Theorem advancePhase_can_hang (g : GameState) (first : nat) (p : Player) :
  bettingComplete g = true ->
  phase g = preflop \/ phase g = flop \/ phase g = turn ->
  firstToAct g = Some first ->
  players g !! first = Some p -> folded p = true ->
  Forall (fun q => canAct q = false) (players g) ->
  exists s,
    beforeSettle g s /\
    (exists q, players s !! activePlayerIndex s = Some q /\ folded q = true) /\
    setActivePlayerIndex (getNextActivePlayer s) s = s /\
    (forall fuel, settleLoop fuel s = None) /\
    advancePhase g = None.
Proof.
  intros Hbc Hph Hfirst Hp Hfold Hnone.
  assert (Hnr : phase g <> river) by (destruct Hph as [E|[E|E]]; rewrite E; discriminate).
  assert (Hd : exists d, dealPhase g (collectBets g) = Some d /\ phase d <> showdown).
  { unfold dealPhase. destruct Hph as [E|[E|E]]; rewrite E; eexists;
      (split; [reflexivity | discriminate]). }
  destruct Hd as (d & Hd & Hns).
  destruct (dealPhase_seats g d Hnr Hd) as [Hps Hdi].
  assert (Hf : firstToAct d = Some first).
  { rewrite (firstToAct_ext g d); [exact Hfirst | | exact Hdi].
    unfold refs. rewrite Hps. apply refsFrom_map. reflexivity. }
  set (s := setActivePlayerIndex first d).
  assert (Hq : players s !! activePlayerIndex s
               = Some (setHasActed false (setBet 0 p))).
  { cbn [players activePlayerIndex s setActivePlayerIndex].
    rewrite Hps, list_lookup_fmap, Hp. reflexivity. }
  assert (Hnone' : Forall (fun q => canAct q = false) (players s)).
  { cbn [players s setActivePlayerIndex]. rewrite Hps.
    apply Forall_fmap. eapply Forall_impl; [exact Hnone|].
    intros q Hq'. exact Hq'. }
  assert (Hstay : getNextActivePlayer s = activePlayerIndex s).
  { pose proof (scanLoop_bounded canAct (players s) (activePlayerIndex s))
      as (_ & _ & _ & Hback).
    exact (Hback Hnone'). }
  assert (Hfix : setActivePlayerIndex (getNextActivePlayer s) s = s)
    by (rewrite Hstay; reflexivity).
  assert (Hloop : forall fuel, settleLoop fuel s = None).
  { induction fuel as [|fuel IH]; cbn [settleLoop]; rewrite Hq;
      cbn [mbind option_bind folded eliminated setHasActed setBet];
      rewrite Hfold; cbn [orb]; [reflexivity|].
    rewrite Hfix. exact IH. }
  exists s. split; [exists d, first; repeat split; assumption|].
  split; [eexists; split; [exact Hq | exact Hfold]|].
  split; [exact Hfix|]. split; [exact Hloop|].
  unfold advancePhase. rewrite Hbc. cbn [negb andb]. rewrite Hd.
  cbn [mbind option_bind]. rewrite bool_decide_eq_false_2 by exact Hns.
  rewrite Hf. cbn [mbind option_bind]. apply Hloop.
Qed.

(** ** Who wins the showdown *)

Lemma compareHands_lt_le_trans (h1 h2 h3 : HandEval) :
  compareHands h1 h2 < 0 -> compareHands h2 h3 <= 0 -> compareHands h1 h3 < 0.
Proof.
  intros H12 H23. destruct (Z.eq_dec (compareHands h2 h3) 0) as [E|N].
  - pose proof (compareHands_antisym h2 h3) as A23.
    assert (E' : compareHands h3 h2 = 0) by lia.
    pose proof (compareHands_zero_l h3 h2 h1 E') as Hz.
    pose proof (compareHands_antisym h1 h3). pose proof (compareHands_antisym h1 h2).
    lia.
  - apply (compareHands_neg_trans h1 h2 h3); [exact H12 | lia].
Qed.

Lemma inHand_collected (g : GameState) (w : nat) (p : Player) :
  players (setPhase showdown (collectBets g)) !! w = Some p ->
  exists q, players g !! w = Some q /\ inHand q = inHand p /\ chips q = chips p.
Proof.
  cbn [players setPhase collectBets setPlayers setPot setCurrentBet setBettingComplete].
  rewrite list_lookup_fmap. destruct (players g !! w) as [q|]; [|discriminate].
  intros [= <-]. exists q. repeat split.
Qed.

(** X11.  When the showdown records a single winner, that seat is in the
    hand, and it is either the only seat in the hand or holds a hand that
    compares as strictly stronger than the hand of every other seat in
    the hand.  It is credited the whole pot, whatever it put in. *)
Theorem showdown_winner_beats_all (g g' : GameState) (w : nat) :
  phase g = river -> bettingComplete g = true ->
  advancePhase g = Some g' -> winner g' = Some w ->
  (exists p p',
     players g !! w = Some p /\ inHand p = true /\
     players g' !! w = Some p' /\
     chips p' = chips p + (pot g + totalBetsOf (players g))) /\
  forall j hj, j <> w -> seatHand g j hj ->
    exists h, seatHand g w h /\ compareHands h hj < 0.
Proof.
  intros Hph Hbc Hadv Hw.
  destruct (advancePhase_river g g' Hph Hbc Hadv) as (paid & Hpay & ->).
  set (s := setPhase showdown (collectBets g)) in *.
  destruct (payShowdown_inv s paid Hpay)
    as [(v & p & Hp & -> & Hcase) | (sorted & x & second & rest & _ & _ & _ & ->)];
    [|discriminate Hw].
  cbn [winner setBettingComplete payWinner credit assign setPlayers setWinner] in Hw.
  injection Hw as ->.
  assert (Hpaid : exists p', players (setBettingComplete true (payWinner w s)) !! w
                             = Some p' /\ chips p' = chips p + pot s).
  { eexists. split.
    - cbn [players setBettingComplete payWinner credit assign setPlayers setWinner].
      rewrite list_lookup_alter_eq.
      change (players (setWinner (Some w) s)) with (players s). rewrite Hp. reflexivity.
    - reflexivity. }
  destruct Hpaid as (p' & Hp' & Hchips).
  destruct (inHand_collected g w p Hp) as (q & Hq & Hin & Hcq).
  assert (Hwin : inHand p = true).
  { destruct Hcase as [Hone | (sorted & x & rest & Hr & Hs & -> & _)].
    - assert (Hm : w ∈ refs inHand (players s))
        by (rewrite Hone; apply elem_of_cons; left; reflexivity).
      apply elem_of_refs in Hm as (p0 & Hp0 & Hi). congruence.
    - assert (Hx : x ∈ sorted) by (rewrite Hs; apply elem_of_cons; left; reflexivity).
      destruct (ranked_seatHand s sorted Hr x Hx) as (p0 & Hp0 & Hi & _). congruence. }
  split.
  { exists q, p'. split; [exact Hq|]. split; [congruence|]. split; [exact Hp'|].
    rewrite Hchips, Hcq. reflexivity. }
  intros j hj Hj Hsj. apply seatHand_collected in Hsj.
  destruct Hcase as [Hone | (sorted & x & rest & Hr & Hs & -> & Hno)].
  - exfalso. destruct Hsj as (pj & Hpj & Hij & _).
    assert (Hm : j ∈ refs inHand (players s))
      by (apply elem_of_refs; exists pj; split; assumption).
    rewrite Hone in Hm. apply elem_of_cons in Hm as [E|Hm]; [exact (Hj E)|].
    inversion Hm.
  - assert (Hx : x ∈ sorted) by (rewrite Hs; apply elem_of_cons; left; reflexivity).
    exists (snd x). split.
    { apply seatHand_collected. exact (ranked_seatHand s sorted Hr x Hx). }
    pose proof (seatHand_ranked s sorted Hr j hj Hsj) as Hin'.
    rewrite Hs in Hin'. apply elem_of_cons in Hin' as [E|Hin'].
    { exfalso. apply Hj. rewrite <- E. reflexivity. }
    destruct rest as [|second rest']; [inversion Hin'|].
    assert (H2 : second ∈ sorted)
      by (rewrite Hs; apply elem_of_cons; right; apply elem_of_cons; left; reflexivity).
    pose proof (first_not_after s sorted Hr x _ Hs second H2) as Hle.
    pose proof (Hno second rest' eq_refl) as Hne.
    assert (Hlt : compareHands (snd x) (snd second) < 0) by (unfold byHand in Hle; lia).
    apply elem_of_cons in Hin' as [E|Hin'].
    + rewrite <- E in Hlt. exact Hlt.
    + destruct (rankSeats_Some _ _ _ Hr) as (_ & Hord & _).
      rewrite Hs in Hord. destruct Hord as (_ & Hsec & _).
      pose proof (proj1 (Forall_forall _ rest') Hsec _ Hin') as H2j.
      exact (compareHands_lt_le_trans _ _ _ Hlt H2j).
Qed.

(** ** Dealing a hand *)

Lemma refsFrom_length (f : Player -> bool) (l : list Player) (k : nat) :
  length (refsFrom f k l) = length (refsFrom f 0 l).
Proof.
  revert k. induction l as [|x l IH]; intros k; simpl; [reflexivity|].
  destruct (f x); simpl; rewrite (IH (S k)), (IH 1%nat); reflexivity.
Qed.

Lemma stillIn_cons (q : Player) (ps : list Player) :
  length (stillIn (q :: ps))
  = ((if eliminated q then 0 else 1) + length (stillIn ps))%nat.
Proof.
  unfold stillIn, refs. simpl. unfold notEliminated at 1.
  destruct (eliminated q); simpl; rewrite refsFrom_length; reflexivity.
Qed.

Lemma dealHands_lookup (deck_ : list Card) (ps : list Player) :
  forall (c : nat),
    length (fst (dealHands deck_ c ps)) = length ps /\
    snd (dealHands deck_ c ps) = (c + 2 * length (stillIn ps))%nat /\
    forall i p, ps !! i = Some p ->
      fst (dealHands deck_ c ps) !! i =
      Some (dealtSeat
              (if eliminated p then []
               else holeCards deck_ c (length (stillIn (take i ps))))
              p).
Proof.
  induction ps as [|q ps IH]; intros c.
  - split; [reflexivity|]. split; [simpl; lia|]. intros i p H. discriminate.
  - cbn [dealHands]. rewrite stillIn_cons. destruct (eliminated q) eqn:He.
    + destruct (IH c) as (L & C & K). destruct (dealHands deck_ c ps) as [r c'].
      cbn [fst snd] in *. split; [simpl; lia|]. split; [lia|].
      intros [|i] p H; cbn [lookup list_lookup] in H |- *.
      * injection H as <-. rewrite He. reflexivity.
      * refine (eq_trans (K i p H) _). cbn [take]. rewrite stillIn_cons, He.
        reflexivity.
    + destruct (IH (S (S c))) as (L & C & K).
      destruct (dealHands deck_ (S (S c)) ps) as [r c']. cbn [fst snd] in *.
      split; [simpl; lia|]. split; [lia|].
      intros [|i] p H; cbn [lookup list_lookup] in H |- *.
      * injection H as <-. rewrite He. unfold holeCards. cbn [take].
        change (length (stillIn [])) with 0%nat.
        rewrite Nat.mul_0_r, Nat.add_0_r. reflexivity.
      * refine (eq_trans (K i p H) _). cbn [take]. rewrite stillIn_cons, He.
        destruct (eliminated p); [reflexivity|].
        unfold holeCards. generalize (length (stillIn (take i ps))). intros k.
        replace (c + 2 * (1 + k))%nat with (S (S c) + 2 * k)%nat by lia.
        reflexivity.
Qed.

(** X12.  The deal of [dealCards] (its result before or without blinds is
    the same in these respects): every seat keeps its identity and its
    elimination flag and is folded exactly when eliminated; an
    eliminated seat gets no cards; the [k]-th seat still in the
    tournament, in seat order, gets the two deck entries at cursor
    [+ 2k] and [+ 2k + 1], so no deck entry goes to two seats; the cursor
    ends two entries further per seat still in; the deck is untouched. *)
Theorem dealCards_hands (g g' : GameState) :
  dealCards g = Some g' ->
  deck g' = deck g /\
  deckIndex g' = (deckIndex g + 2 * length (stillIn (players g)))%nat /\
  length (players g') = length (players g) /\
  forall i p, players g !! i = Some p ->
    exists p',
      players g' !! i = Some p' /\
      Player.id p' = Player.id p /\ name p' = name p /\
      eliminated p' = eliminated p /\ folded p' = eliminated p /\
      hand p' = (if eliminated p then []
                 else holeCards (deck g) (deckIndex g)
                                (length (stillIn (take i (players g))))).
Proof.
  unfold dealCards.
  destruct (dealHands_lookup (deck g) (players g) (deckIndex g)) as (L & C & K).
  destruct (dealHands (deck g) (deckIndex g) (players g)) as [seats cursor].
  simpl in L, C, K.
  set (newGame := setDeckIndex cursor (setPlayers seats g)).
  assert (Hdealt : forall i p, players g !! i = Some p ->
            exists p', players newGame !! i = Some p' /\
              Player.id p' = Player.id p /\ name p' = name p /\
              eliminated p' = eliminated p /\ folded p' = eliminated p /\
              hand p' = (if eliminated p then []
                         else holeCards (deck g) (deckIndex g)
                                        (length (stillIn (take i (players g)))))).
  { intros i p H. eexists. split; [exact (K i p H)|]. repeat split. }
  destruct (length (refs _ (players newGame)) <? 2)%nat.
  { intros [= <-]. split; [reflexivity|]. split; [exact C|]. split; [exact L|].
    exact Hdealt. }
  destruct (refs _ (players newGame) !! seatSlot _ 1 _) as [sb|]; [|discriminate].
  cbn [mbind option_bind].
  destruct (refs _ (players newGame) !! seatSlot _ 2 _) as [bb|]; [|discriminate].
  cbn [mbind option_bind].
  destruct (players newGame !! sb) as [ps|]; [|discriminate]. cbn [mbind option_bind].
  destruct (players newGame !! bb) as [pb|]; [|discriminate]. cbn [mbind option_bind].
  destruct (refs _ (players newGame) !! 0%nat) as [first|]; [|discriminate].
  cbn [mbind option_bind]. intros [= <-].
  cbn [deck deckIndex players setBettingComplete setCurrentBet setActivePlayerIndex
       setPhase setPot].
  split; [reflexivity|]. split; [exact C|].
  split; [rewrite !assign_length; exact L|].
  intros i p H. destruct (Hdealt i p H) as (p0 & Hp0 & Hid & Hn & He & Hf & Hh).
  (* every assignment of the blinds keeps the fields in question *)
  assert (Hkeep : forall (j : nat) (f : Player -> Player) (s : GameState),
            (forall q, Player.id (f q) = Player.id q /\ name (f q) = name q /\
                       eliminated (f q) = eliminated q /\ folded (f q) = folded q /\
                       hand (f q) = hand q) ->
            (exists q, players s !! i = Some q /\
               Player.id q = Player.id p0 /\ name q = name p0 /\
               eliminated q = eliminated p0 /\ folded q = folded p0 /\
               hand q = hand p0) ->
            exists q, players (assign j f s) !! i = Some q /\
               Player.id q = Player.id p0 /\ name q = name p0 /\
               eliminated q = eliminated p0 /\ folded q = folded p0 /\
               hand q = hand p0).
  { intros j f s Hf' (q & Hq & H1 & H2 & H3 & H4 & H5).
    destruct (decide (j = i)) as [->|N].
    - exists (f q). split; [exact (assign_lookup i f s q Hq)|].
      destruct (Hf' q) as (F1 & F2 & F3 & F4 & F5). repeat split; congruence.
    - exists q. split; [rewrite assign_lookup_ne by exact N; exact Hq|].
      repeat split; assumption. }
  assert (Hfinal : exists q, players
            (assign bb (setHasActed true)
               (assign sb (setHasActed false)
                  (assign bb (fun p => if chips p =? 0 then setAllIn true p else p)
                     (assign sb (fun p => if chips p =? 0 then setAllIn true p else p)
                        (assign bb (setBet (Z.min (bigBlind newGame) (chips pb)))
                           (assign bb (fun p => setChips
                                 (chips p - Z.min (bigBlind newGame) (chips pb)) p)
                              (assign sb (setBet (Z.min (smallBlind newGame) (chips ps)))
                                 (assign sb (fun p => setChips
                                       (chips p - Z.min (smallBlind newGame) (chips ps)) p)
                                    newGame)))))))) !! i = Some q /\
               Player.id q = Player.id p0 /\ name q = name p0 /\
               eliminated q = eliminated p0 /\ folded q = folded p0 /\
               hand q = hand p0).
  { repeat (apply Hkeep;
            [intros q; try (destruct (chips q =? 0)); repeat split|]).
    exists p0. split; [exact Hp0|]. repeat split. }
  destruct Hfinal as (q & Hq & H1 & H2 & H3 & H4 & H5).
  exists q. split; [exact Hq|]. repeat split; congruence.
Qed.

(** ** Going round the seats that are still in *)

Lemma refsFrom_lower (f : Player -> bool) (ps : list Player) (k x : nat) :
  x ∈ refsFrom f k ps -> (k <= x)%nat.
Proof.
  rewrite elem_of_refsFrom. intros (j & p & -> & _). lia.
Qed.

Lemma refsFrom_mono (f : Player -> bool) (ps : list Player) :
  forall (k d e i j : nat),
    (d < e)%nat -> refsFrom f k ps !! d = Some i -> refsFrom f k ps !! e = Some j ->
    (i < j)%nat.
Proof.
  induction ps as [|p ps IH]; intros k d e i j Hde Hd He; simpl in *; [discriminate|].
  destruct (f p).
  - destruct e as [|e]; [lia|]. simpl in He. destruct d as [|d]; simpl in Hd.
    + injection Hd as <-.
      assert (S k <= j)%nat; [|lia].
      apply (refsFrom_lower f ps). apply list_elem_of_lookup. eauto.
    + apply (IH (S k) d e); [lia | exact Hd | exact He].
  - exact (IH (S k) d e i j Hde Hd He).
Qed.

(** In the array of the seats that satisfy [f], the entry after the one
    for seat [i], wrapping to the first, is the first seat after [i]
    round the table that satisfies [f]. *)
Lemma refs_cyclic_next (f : Player -> bool) (ps : list Player) (d i i' : nat) :
  refs f ps !! d = Some i ->
  refs f ps !! ((d + 1) mod length (refs f ps))%nat = Some i' ->
  nearestAfter f ps i i'.
Proof.
  intros Hd Hn. set (L := refs f ps) in *. set (n := length ps).
  assert (Hi : exists p, ps !! i = Some p /\ f p = true)
    by (apply elem_of_refs; apply list_elem_of_lookup; eauto).
  assert (Hi' : exists p, ps !! i' = Some p /\ f p = true)
    by (apply elem_of_refs; apply list_elem_of_lookup; eauto).
  assert (Li : (i < n)%nat) by (destruct Hi as (p & Hp & _); apply lookup_lt_Some in Hp; exact Hp).
  assert (Li' : (i' < n)%nat) by (destruct Hi' as (p & Hp & _); apply lookup_lt_Some in Hp; exact Hp).
  assert (Ld : (d < length L)%nat) by (apply lookup_lt_Some in Hd; exact Hd).
  assert (Hpos : forall j p, ps !! j = Some p -> f p = true -> exists e, L !! e = Some j).
  { intros j p Hp Hf. apply list_elem_of_lookup. apply elem_of_refs. eauto. }
  assert (Hmono : forall a b x y, (a < b)%nat -> L !! a = Some x -> L !! b = Some y ->
                                  (x < y)%nat)
    by (intros a b x y; apply refsFrom_mono).
  unfold nearestAfter, seatAfter. fold n.
  destruct (decide (S d < length L)%nat) as [Hlt|Hge].
  - rewrite Nat.mod_small in Hn by lia.
    assert (Hii : (i < i')%nat) by (apply (Hmono d (d + 1)%nat); [lia | exact Hd | exact Hn]).
    exists (i' - i - 1)%nat. split; [lia|]. split.
    { replace (i + 1 + (i' - i - 1))%nat with i' by lia.
      symmetry. apply Nat.mod_small. exact Li'. }
    split; [exact Hi'|].
    intros k p Hk Hp. rewrite Nat.mod_small in Hp by lia.
    destruct (f p) eqn:Hf; [|reflexivity]. exfalso.
    destruct (Hpos _ p Hp Hf) as [e He].
    destruct (Nat.lt_trichotomy e d) as [H|[H|H]].
    + pose proof (Hmono e d _ _ H He Hd). lia.
    + subst e. rewrite Hd in He. injection He as He. lia.
    + destruct (decide (e = d + 1)%nat) as [->|N].
      * rewrite Hn in He. injection He as He. lia.
      * pose proof (Hmono (d + 1)%nat e _ _ ltac:(lia) Hn He). lia.
  - assert (Hlast : S d = length L) by lia.
    rewrite <- Hlast in Hn.
    replace (d + 1)%nat with (S d) in Hn by lia.
    rewrite Nat.Div0.mod_same in Hn.
    assert (Hle : (i' <= i)%nat).
    { destruct d as [|d]; [rewrite Hd in Hn; injection Hn as <-; lia|].
      pose proof (Hmono 0%nat (S d) _ _ ltac:(lia) Hn Hd). lia. }
    exists (n - 1 - i + i')%nat. split; [lia|]. split.
    { replace (i + 1 + (n - 1 - i + i'))%nat with (i' + 1 * n)%nat by lia.
      rewrite Nat.Div0.mod_add. symmetry. apply Nat.mod_small. exact Li'. }
    split; [exact Hi'|].
    intros k p Hk Hp. destruct (f p) eqn:Hf; [|reflexivity]. exfalso.
    destruct (Hpos _ p Hp Hf) as [e He].
    assert (Le : (e < length L)%nat) by (apply lookup_lt_Some in He; exact He).
    destruct (decide (i + 1 + k < n)%nat) as [Hs|Hs].
    + rewrite Nat.mod_small in He by lia.
      destruct (decide (e = d)) as [->|N].
      * rewrite Hd in He. injection He as He. lia.
      * pose proof (Hmono e d _ _ ltac:(lia) He Hd). lia.
    + assert (Ej : ((i + 1 + k) mod n = i + 1 + k - n)%nat).
      { replace (i + 1 + k)%nat with ((i + 1 + k - n) + 1 * n)%nat at 1 by lia.
        rewrite Nat.Div0.mod_add. apply Nat.mod_small. lia. }
      rewrite Ej in He.
      destruct e as [|e].
      * rewrite Hn in He. injection He as He. lia.
      * pose proof (Hmono 0%nat (S e) _ _ ltac:(lia) Hn He). lia.
Qed.

(** ** The blinds *)

Lemma findIndex_first {A : Type} (f : A -> bool) (l : list A) (d : nat) (x : A) :
  l !! d = Some x -> f x = true ->
  (forall e y, (e < d)%nat -> l !! e = Some y -> f y = false) ->
  findIndex f l = Some d.
Proof.
  revert d. induction l as [|y l IH]; intros d Hd Hx Hb; [discriminate|].
  simpl. destruct d as [|d].
  - simpl in Hd. injection Hd as ->. rewrite Hx. reflexivity.
  - rewrite (Hb 0%nat y ltac:(lia) eq_refl).
    rewrite (IH d Hd Hx); [reflexivity|].
    intros e z He Hz. apply (Hb (S e) z); [lia | exact Hz].
Qed.

Lemma findIndex_position (l : list nat) (d x : nat) :
  NoDup l -> l !! d = Some x -> findIndex (fun index => (index =? x)%nat) l = Some d.
Proof.
  intros Hnd Hd. apply (findIndex_first _ l d x Hd); [apply Nat.eqb_refl|].
  intros e y He Hy. apply Nat.eqb_neq. intros ->.
  pose proof (NoDup_lookup l e d x Hnd Hy Hd). lia.
Qed.

Lemma dealHands_stillIn (deck_ : list Card) (ps : list Player) :
  forall c k,
    refsFrom (fun p => negb (eliminated p)) k (fst (dealHands deck_ c ps))
    = refsFrom notEliminated k ps.
Proof.
  induction ps as [|q ps IH]; intros c k; [reflexivity|].
  cbn [dealHands]. unfold notEliminated at 1. destruct (eliminated q) eqn:He.
  - specialize (IH c (S k)). destruct (dealHands deck_ c ps) as [r c'].
    cbn [fst refsFrom dealtSeat eliminated] in *. rewrite He. cbn [negb]. exact IH.
  - specialize (IH (S (S c)) (S k)). destruct (dealHands deck_ (S (S c)) ps) as [r c'].
    cbn [fst refsFrom dealtSeat eliminated] in *. rewrite He. cbn [negb].
    rewrite IH. reflexivity.
Qed.

Lemma stacksOf_cons (p : Player) (ps : list Player) :
  stacksOf (p :: ps) = chips p + stacksOf ps.
Proof.
  unfold stacksOf. simpl. rewrite (fold_left_sum_acc chips). lia.
Qed.

Lemma dealHands_chips (deck_ : list Card) (ps : list Player) :
  forall c, seatChips (fst (dealHands deck_ c ps)) = stacksOf ps.
Proof.
  induction ps as [|q ps IH]; intros c; [reflexivity|].
  cbn [dealHands]. rewrite stacksOf_cons. destruct (eliminated q).
  - specialize (IH c). destruct (dealHands deck_ c ps) as [r c']. cbn [fst] in *.
    rewrite seatChips_cons, IH. unfold holding. simpl. lia.
  - specialize (IH (S (S c))). destruct (dealHands deck_ (S (S c)) ps) as [r c'].
    cbn [fst] in *. rewrite seatChips_cons, IH. unfold holding. simpl. lia.
Qed.

Lemma blind_slots_differ (dealerPosition : option nat) (len : nat) :
  (2 <= len)%nat -> seatSlot dealerPosition 1 len <> seatSlot dealerPosition 2 len.
Proof.
  intros Hlen. destruct dealerPosition as [d|]; unfold seatSlot.
  - replace (d + 2)%nat with (d + 1 + 1)%nat by lia.
    rewrite <- (Nat.Div0.add_mod_idemp_l (d + 1) 1 len).
    pose proof (Nat.mod_upper_bound (d + 1) len ltac:(lia)) as Hm.
    set (m := ((d + 1) mod len)%nat) in *.
    destruct (decide (m + 1 < len)%nat) as [Hs|Hs].
    + rewrite (Nat.mod_small (m + 1) len Hs). lia.
    + replace (m + 1)%nat with len by lia. rewrite Nat.Div0.mod_same. lia.
  - replace (1 - 1)%nat with 0%nat by lia. replace (2 - 1)%nat with 1%nat by lia.
    rewrite (Nat.mod_small 0 len) by lia. rewrite (Nat.mod_small 1 len) by lia. lia.
Qed.

(** The eight assignments that post the blinds, as one update per seat. *)
Lemma blinds_players (s : GameState) (sb bb : nat) (a b : Z) :
  sb <> bb ->
  players
    (assign bb (setHasActed true)
       (assign sb (setHasActed false)
          (assign bb (fun p => if chips p =? 0 then setAllIn true p else p)
             (assign sb (fun p => if chips p =? 0 then setAllIn true p else p)
                (assign bb (setBet b)
                   (assign bb (fun p => setChips (chips p - b) p)
                      (assign sb (setBet a)
                         (assign sb (fun p => setChips (chips p - a) p) s))))))))
  = alter (fun p => setHasActed true
                      ((fun p => if chips p =? 0 then setAllIn true p else p)
                         (setBet b (setChips (chips p - b) p)))) bb
      (alter (fun p => setHasActed false
                         ((fun p => if chips p =? 0 then setAllIn true p else p)
                            (setBet a (setChips (chips p - a) p)))) sb
         (players s)).
Proof.
  intros Hne. apply list_eq. intros j. unfold assign. cbn [players setPlayers].
  destruct (decide (j = sb)) as [->|Ns]; [|destruct (decide (j = bb)) as [->|Nb]];
    repeat first [ rewrite list_lookup_alter_eq
                 | rewrite list_lookup_alter_ne by congruence ];
    destruct (players s !! _); reflexivity.
Qed.

Lemma first_ref_is_zero (f : Player -> bool) (ps : list Player) (e first : nat) :
  refs f ps !! 0%nat = Some first -> refs f ps !! e = Some 0%nat -> first = 0%nat.
Proof.
  intros H0 He. destruct e as [|e]; [congruence|].
  pose proof (refsFrom_mono f ps 0 0 (S e) first 0 ltac:(lia) H0 He). lia.
Qed.

Lemma seatSlot_lt (dealerPosition : option nat) (k len : nat) :
  (0 < len)%nat -> (seatSlot dealerPosition k len < len)%nat.
Proof.
  intros H. destruct dealerPosition; unfold seatSlot; apply Nat.mod_upper_bound; lia.
Qed.

(** [dealCards] with two seats or more still in, whatever the dealer
    index: the seats at the three slots after the dealer's of the array
    of seats still in are the small blind, the big blind and the seat to
    act. *)
Lemma dealCards_slots (g : GameState) :
  let L := stillIn (players g) in
  let dealerPosition := findIndex (fun index => (index =? dealerIndex g)%nat) L in
  (2 <= length L)%nat ->
  exists g' sb bb pS pB,
    dealCards g = Some g' /\
    L !! seatSlot dealerPosition 1 (length L) = Some sb /\
    L !! seatSlot dealerPosition 2 (length L) = Some bb /\
    L !! seatSlot dealerPosition 3 (length L) = Some (activePlayerIndex g') /\
    sb <> bb /\
    players g !! sb = Some pS /\ players g !! bb = Some pB /\
    (exists q, players g' !! sb = Some q /\ postedBlind (smallBlind g) false pS q) /\
    (exists q, players g' !! bb = Some q /\ postedBlind (bigBlind g) true pB q) /\
    (forall j p, j <> sb -> j <> bb -> players g !! j = Some p ->
       exists q, players g' !! j = Some q /\ chips q = chips p /\ bet q = 0 /\
                 allIn q = false /\ hasActed q = false) /\
    currentBet g' = Z.min (bigBlind g) (chips pB) /\ pot g' = 0 /\
    phase g' = preflop /\ bettingComplete g' = false /\
    dealerIndex g' = dealerIndex g /\
    seatChips (players g') = stacksOf (players g) /\
    forall j p, players g !! j = Some p ->
      exists q, players g' !! j = Some q /\
        Player.id q = Player.id p /\ name q = name p /\
        eliminated q = eliminated p /\ folded q = eliminated p /\
        hand q = (if eliminated p then []
                  else holeCards (deck g) (deckIndex g)
                                 (length (stillIn (take j (players g))))).
Proof.
  intros L dp Hlen.
  pose proof (NoDup_refsFrom notEliminated (players g) 0) as Hnd.
  pose proof (dealHands_lookup (deck g) (players g) (deckIndex g)) as (Hl & _ & K).
  pose proof (dealHands_stillIn (deck g) (players g) (deckIndex g) 0) as HR.
  pose proof (dealHands_chips (deck g) (players g) (deckIndex g)) as HC.
  destruct (dealHands (deck g) (deckIndex g) (players g)) as [seats cursor] eqn:Hdeal.
  cbn [fst snd] in Hl, K, HR, HC.
  change (refsFrom notEliminated 0 (players g)) with L in Hnd, HR.
  change (refsFrom (fun p => negb (eliminated p)) 0 seats)
    with (refs (fun p => negb (eliminated p)) seats) in HR.
  destruct (lookup_lt_is_Some_2 L (seatSlot dp 1 (length L))) as [sb Hsb];
    [apply seatSlot_lt; lia|].
  destruct (lookup_lt_is_Some_2 L (seatSlot dp 2 (length L))) as [bb Hbb];
    [apply seatSlot_lt; lia|].
  destruct (lookup_lt_is_Some_2 L (seatSlot dp 3 (length L))) as [t Ht];
    [apply seatSlot_lt; lia|].
  destruct (lookup_lt_is_Some_2 L 0%nat) as [first Hfirst]; [lia|].
  destruct (proj1 (elem_of_refs notEliminated (players g) sb)) as (pS & HpS & HeS);
    [apply list_elem_of_lookup; eauto|].
  destruct (proj1 (elem_of_refs notEliminated (players g) bb)) as (pB & HpB & HeB);
    [apply list_elem_of_lookup; eauto|].
  assert (Hne : sb <> bb).
  { intros ->. apply (blind_slots_differ dp (length L) Hlen).
    exact (NoDup_lookup L _ _ bb Hnd Hsb Hbb). }
  assert (Htt : (if (t =? 0)%nat then first else t) = t).
  { destruct (t =? 0)%nat eqn:E; [|reflexivity]. apply Nat.eqb_eq in E. subst t.
    exact (first_ref_is_zero notEliminated (players g) _ _ Hfirst Ht). }
  eexists _, sb, bb, pS, pB. split.
  { unfold dealCards. rewrite Hdeal.
    cbn [players setDeckIndex setPlayers dealerIndex smallBlind bigBlind].
    rewrite HR.
    rewrite (proj2 (Nat.ltb_ge (length L) 2) Hlen). fold dp.
    rewrite Hsb, Hbb. cbn [mbind option_bind].
    rewrite (K sb pS HpS), (K bb pB HpB). cbn [mbind option_bind].
    rewrite Hfirst. cbn [mbind option_bind]. rewrite Ht, Htt.
    reflexivity. }
  cbn [players currentBet pot phase bettingComplete dealerIndex activePlayerIndex
       setBettingComplete setCurrentBet setActivePlayerIndex setPhase setPot].
  rewrite (blinds_players _ sb bb _ _ Hne).
  cbn [players setDeckIndex setPlayers dealtSeat chips].
  split; [exact Hsb|]. split; [exact Hbb|]. split; [exact Ht|].
  split; [exact Hne|]. split; [exact HpS|]. split; [exact HpB|].
  unfold notEliminated in HeS, HeB.
  apply negb_true_iff in HeS. apply negb_true_iff in HeB.
  split.
  { eexists. split.
    - rewrite list_lookup_alter_ne by congruence.
      rewrite list_lookup_alter_eq, (K sb pS HpS). reflexivity.
    - unfold postedBlind. cbn [dealtSeat chips setChips setBet].
      destruct (chips pS - smallBlind g `min` chips pS =? 0); simpl;
        rewrite HeS; repeat split. }
  split.
  { eexists. split.
    - rewrite list_lookup_alter_eq.
      rewrite list_lookup_alter_ne by congruence. rewrite (K bb pB HpB). reflexivity.
    - unfold postedBlind. cbn [dealtSeat chips setChips setBet].
      destruct (chips pB - bigBlind g `min` chips pB =? 0); simpl;
        rewrite HeB; repeat split. }
  split.
  { intros j p Hjs Hjb Hp. eexists. split.
    - rewrite !list_lookup_alter_ne by congruence. exact (K j p Hp).
    - repeat split. }
  split; [reflexivity|]. split; [reflexivity|]. split; [reflexivity|].
  split; [reflexivity|]. split; [reflexivity|].
  split.
  { rewrite (seatChips_alter _ _ bb (dealtSeat
               (if eliminated pB then []
                else holeCards (deck g) (deckIndex g)
                               (length (stillIn (take bb (players g))))) pB))
      by (rewrite list_lookup_alter_ne by congruence; exact (K bb pB HpB)).
    rewrite (seatChips_alter _ _ sb _ (K sb pS HpS)), HC.
    unfold holding.
    destruct (chips (setBet _ (setChips _ (dealtSeat _ pS))) =? 0),
             (chips (setBet _ (setChips _ (dealtSeat _ pB))) =? 0); simpl; lia. }
  intros j p Hp.
  destruct (decide (j = bb)) as [->|Nb]; [|destruct (decide (j = sb)) as [->|Ns]].
  - eexists. split.
    + rewrite list_lookup_alter_eq.
      rewrite list_lookup_alter_ne by congruence. rewrite (K bb p Hp). reflexivity.
    + cbn [dealtSeat chips setChips setBet].
      destruct (_ =? 0); repeat split.
  - eexists. split.
    + rewrite list_lookup_alter_ne by congruence.
      rewrite list_lookup_alter_eq, (K sb p Hp). reflexivity.
    + cbn [dealtSeat chips setChips setBet].
      destruct (_ =? 0); repeat split.
  - eexists. split.
    + rewrite !list_lookup_alter_ne by congruence. exact (K j p Hp).
    + repeat split.
Qed.

(** With the dealer among the seats still in, the three slots are the
    next three such seats round the table. *)
Lemma dealer_slots (g : GameState) (d sb bb t : nat) :
  let L := stillIn (players g) in
  let dealerPosition := findIndex (fun index => (index =? dealerIndex g)%nat) L in
  L !! d = Some (dealerIndex g) ->
  L !! seatSlot dealerPosition 1 (length L) = Some sb ->
  L !! seatSlot dealerPosition 2 (length L) = Some bb ->
  L !! seatSlot dealerPosition 3 (length L) = Some t ->
  nearestAfter notEliminated (players g) (dealerIndex g) sb /\
  nearestAfter notEliminated (players g) sb bb /\
  nearestAfter notEliminated (players g) bb t.
Proof.
  intros L dp Hd. subst dp.
  rewrite (findIndex_position L d (dealerIndex g)
             (NoDup_refsFrom notEliminated (players g) 0) Hd).
  cbn [seatSlot]. intros Hsb Hbb Ht.
  split; [exact (refs_cyclic_next notEliminated (players g) d _ sb Hd Hsb)|].
  split.
  - apply (refs_cyclic_next notEliminated (players g) ((d + 1) mod length L) sb bb Hsb).
    fold (stillIn (players g)). fold L.
    rewrite Nat.Div0.add_mod_idemp_l.
    replace (d + 1 + 1)%nat with (d + 2)%nat by lia. exact Hbb.
  - apply (refs_cyclic_next notEliminated (players g) ((d + 2) mod length L) bb t Hbb).
    fold (stillIn (players g)). fold L.
    rewrite Nat.Div0.add_mod_idemp_l.
    replace (d + 2 + 1)%nat with (d + 3)%nat by lia. exact Ht.
Qed.

(** X13.  A deal with two seats or more still in the tournament, the
    dealer one of them: [dealCards] returns; the small blind is the first
    seat still in after the dealer, the big blind the first after the
    small blind (another seat), and the seat to act the first after the
    big blind (the [|| activePlayers[0].index] of the source never changes
    that: a falsy index 0 is the first of the array).  Each blind seat
    pays the smaller of the blind and its stack into its bet and is
    all-in exactly when nothing is left; the big blind counts as having
    acted, the small blind not.  Every other seat keeps its stack and has
    no bet and no flag.  The bet to match is what the big blind paid, also
    when that is less than what the small blind paid. *)
Theorem dealCards_blinds (g : GameState) (dealer : Player) :
  (2 <= length (stillIn (players g)))%nat ->
  players g !! dealerIndex g = Some dealer ->
  eliminated dealer = false ->
  exists g' sb bb pS pB,
    dealCards g = Some g' /\
    nearestAfter notEliminated (players g) (dealerIndex g) sb /\
    nearestAfter notEliminated (players g) sb bb /\
    nearestAfter notEliminated (players g) bb (activePlayerIndex g') /\
    sb <> bb /\
    players g !! sb = Some pS /\ players g !! bb = Some pB /\
    (exists q, players g' !! sb = Some q /\ postedBlind (smallBlind g) false pS q) /\
    (exists q, players g' !! bb = Some q /\ postedBlind (bigBlind g) true pB q) /\
    (forall j p, j <> sb -> j <> bb -> players g !! j = Some p ->
       exists q, players g' !! j = Some q /\ chips q = chips p /\ bet q = 0 /\
                 allIn q = false /\ hasActed q = false) /\
    currentBet g' = Z.min (bigBlind g) (chips pB) /\
    phase g' = preflop /\ bettingComplete g' = false.
Proof.
  intros Hlen Hdealer He.
  assert (Hin : dealerIndex g ∈ stillIn (players g)).
  { apply elem_of_refs. exists dealer. split; [exact Hdealer|].
    unfold notEliminated. rewrite He. reflexivity. }
  apply list_elem_of_lookup in Hin. destruct Hin as [d Hd].
  destruct (dealCards_slots g Hlen)
    as (g' & sb & bb & pS & pB & Hrun & Hsb & Hbb & Ht & Hne & HpS & HpB & HS & HB
        & Hrest & Hcur & _ & Hph & Hbc & _).
  destruct (dealer_slots g d sb bb _ Hd Hsb Hbb Ht) as (N1 & N2 & N3).
  exists g', sb, bb, pS, pB. repeat (split; [assumption|]). assumption.
Qed.

(** X14.  [dealCards] always returns, whatever the dealer index and the
    number of seats left, and the chips in front of the seats after it
    (stacks and blinds posted) are the stacks before it: bets still in
    front of the seats when the deal starts are cleared without being
    paid to anybody.  With fewer than two seats still in, no blind is
    posted and the phase, the bet to match, the pot and the turn stay
    what they were. *)
Theorem dealCards_returns (g : GameState) :
  exists g',
    dealCards g = Some g' /\
    seatChips (players g') = stacksOf (players g) /\
    ((length (stillIn (players g)) < 2)%nat ->
     phase g' = phase g /\ currentBet g' = currentBet g /\ pot g' = pot g /\
     activePlayerIndex g' = activePlayerIndex g /\
     bettingComplete g' = bettingComplete g /\
     forall i q, players g' !! i = Some q -> bet q = 0).
Proof.
  destruct (decide (2 <= length (stillIn (players g)))%nat) as [Hlen|Hlen].
  - destruct (dealCards_slots g Hlen) as (g' & sb & bb & pS & pB & Hrun & H).
    exists g'. split; [exact Hrun|]. split; [apply H|]. intros Hlt. lia.
  - pose proof (dealHands_lookup (deck g) (players g) (deckIndex g)) as (Hl & _ & K).
    pose proof (dealHands_stillIn (deck g) (players g) (deckIndex g) 0) as HR.
    pose proof (dealHands_chips (deck g) (players g) (deckIndex g)) as HC.
    destruct (dealHands (deck g) (deckIndex g) (players g)) as [seats cursor] eqn:Hdeal.
    cbn [fst snd] in Hl, K, HR, HC.
    exists (setDeckIndex cursor (setPlayers seats g)). split.
    { unfold dealCards. rewrite Hdeal.
      cbn [players setDeckIndex setPlayers]. unfold refs. rewrite HR.
      change (refsFrom notEliminated 0 (players g)) with (stillIn (players g)).
      rewrite (proj2 (Nat.ltb_lt (length (stillIn (players g))) 2)) by lia.
      reflexivity. }
    split; [exact HC|]. intros _. repeat (split; [reflexivity|]).
    intros i q Hq. cbn [players setDeckIndex setPlayers] in Hq.
    assert (Hi : (i < length (players g))%nat)
      by (rewrite <- Hl; apply lookup_lt_Some in Hq; exact Hq).
    destruct (lookup_lt_is_Some_2 (players g) i Hi) as [p Hp].
    rewrite (K i p Hp) in Hq. injection Hq as <-. reflexivity.
Qed.

(** ** From one hand to the next *)

Lemma refsFrom_map_as (f f' : Player -> bool) (h : Player -> Player) (ps : list Player) :
  (forall p, f (h p) = f' p) ->
  forall k, refsFrom f k (map h ps) = refsFrom f' k ps.
Proof.
  intros Hf. induction ps as [|p ps IH]; intros k; simpl; [reflexivity|].
  rewrite Hf, !IH. reflexivity.
Qed.

Lemma nearestAfter_map (f f' : Player -> bool) (h : Player -> Player)
      (ps : list Player) (from i : nat) :
  (forall p, f (h p) = f' p) ->
  nearestAfter f (map h ps) from i -> nearestAfter f' ps from i.
Proof.
  intros Hf (a & Ha & Hi & (p & Hp & Hq) & Hbefore).
  rewrite length_map in Ha, Hi, Hbefore.
  exists a. split; [exact Ha|]. split; [exact Hi|].
  rewrite list_lookup_fmap in Hp. split.
  - destruct (ps !! i) as [p0|]; [|discriminate]. injection Hp as <-.
    exists p0. split; [reflexivity|]. rewrite <- Hf. exact Hq.
  - intros k q Hk Hq'. rewrite <- Hf. apply (Hbefore k (h q) Hk).
    rewrite list_lookup_fmap, Hq'. reflexivity.
Qed.

Lemma filter_length_refs (f : Player -> bool) (ps : list Player) :
  length (List.filter f ps) = length (refs f ps).
Proof.
  unfold refs. induction ps as [|p ps IH]; [reflexivity|].
  simpl. destruct (f p); simpl; rewrite (refsFrom_length f ps 1); rewrite IH; reflexivity.
Qed.

Lemma findIndex_head_refs (f : Player -> bool) (ps : list Player) :
  forall k, head (refsFrom f k ps) = (fun i => (k + i)%nat) <$> findIndex f ps.
Proof.
  induction ps as [|p ps IH]; intros k; simpl; [reflexivity|].
  destruct (f p); simpl; [f_equal; lia|].
  rewrite (IH (S k)). destruct (findIndex f ps); simpl; [f_equal; lia | reflexivity].
Qed.

Lemma checkForEliminations_flag (p : Player) :
  negb (eliminated (if (chips p =? 0) && negb (eliminated p)
                    then setEliminated true p else p))
  = survives p.
Proof.
  unfold survives. destruct (chips p =? 0), (eliminated p) eqn:E; simpl;
    rewrite ?E; reflexivity.
Qed.

Lemma checkForEliminations_stillIn (g : GameState) :
  stillIn (players (checkForEliminations g)) = refs survives (players g).
Proof.
  unfold stillIn, refs, checkForEliminations. cbn [players setPlayers].
  apply refsFrom_map_as. intros p. unfold notEliminated.
  apply checkForEliminations_flag.
Qed.

Lemma stacksOf_map (h : Player -> Player) (ps : list Player) :
  (forall p, chips (h p) = chips p) -> stacksOf (map h ps) = stacksOf ps.
Proof.
  intros Hh. induction ps as [|p ps IH]; [reflexivity|].
  cbn [map]. rewrite !stacksOf_cons, IH, Hh. reflexivity.
Qed.

Lemma checkForEliminations_stacks (g : GameState) :
  stacksOf (players (checkForEliminations g)) = stacksOf (players g).
Proof.
  unfold checkForEliminations. cbn [players setPlayers]. apply stacksOf_map.
  intros p. destruct ((chips p =? 0) && negb (eliminated p)); reflexivity.
Qed.

(** What [dealCards] never touches. *)
Lemma dealCards_table (g g' : GameState) :
  dealCards g = Some g' ->
  deck g' = deck g /\
  deckIndex g' = (deckIndex g + 2 * length (stillIn (players g)))%nat /\
  communityCards g' = communityCards g /\ winner g' = winner g /\
  tournamentWinner g' = tournamentWinner g /\ handNumber g' = handNumber g /\
  dealerIndex g' = dealerIndex g /\ smallBlind g' = smallBlind g /\
  bigBlind g' = bigBlind g.
Proof.
  unfold dealCards.
  destruct (dealHands_lookup (deck g) (players g) (deckIndex g)) as (_ & C & _).
  destruct (dealHands (deck g) (deckIndex g) (players g)) as [seats cursor].
  cbn [snd] in C.
  destruct (length (refs _ (players _)) <? 2)%nat.
  { intros [= <-]. repeat split. exact C. }
  destruct (refs _ (players _) !! seatSlot _ 1 _) as [sb|]; [|discriminate].
  cbn [mbind option_bind].
  destruct (refs _ (players _) !! seatSlot _ 2 _) as [bb|]; [|discriminate].
  cbn [mbind option_bind].
  destruct (players _ !! sb) as [ps|]; [|discriminate]. cbn [mbind option_bind].
  destruct (players _ !! bb) as [pb|]; [|discriminate]. cbn [mbind option_bind].
  destruct (refs _ (players _) !! 0%nat) as [first|]; [|discriminate].
  cbn [mbind option_bind]. intros [= <-]. repeat split. exact C.
Qed.

(** X15.  [startNewHand] when exactly one seat with chips is left among
    the seats not yet eliminated: the tournament is over and that seat is
    its winner.  No card is dealt, no blind posted, the hand number and
    the dealer stay, and the pot is not paid to anybody. *)
Theorem startNewHand_ends_tournament (draw : nat -> nat) (g : GameState) (w : nat) :
  refs survives (players g) = [w] ->
  startNewHand draw g
  = Some (setBettingComplete true
            (setTournamentWinner (Some w)
               (setPhase tournament_complete (checkForEliminations g)))) /\
  exists p, players g !! w = Some p /\ eliminated p = false /\ chips p <> 0 /\
    forall j q, j <> w -> players g !! j = Some q -> eliminated q = true \/ chips q = 0.
Proof.
  intros Hw. split.
  - unfold startNewHand, checkTournamentComplete.
    rewrite (filter_length_refs (fun p => negb (eliminated p))).
    change (refs (fun p => negb (eliminated p)) (players (checkForEliminations g)))
      with (stillIn (players (checkForEliminations g))).
    rewrite checkForEliminations_stillIn, Hw. cbn [length Nat.eqb].
    pose proof (findIndex_head_refs (fun p => negb (eliminated p))
                  (players (checkForEliminations g)) 0) as Hh.
    change (refsFrom (fun p => negb (eliminated p)) 0 (players (checkForEliminations g)))
      with (stillIn (players (checkForEliminations g))) in Hh.
    rewrite checkForEliminations_stillIn, Hw in Hh. cbn [head] in Hh.
    destruct (findIndex _ (players (checkForEliminations g))) as [i|];
      [|discriminate].
    simpl in Hh. injection Hh as ->. reflexivity.
  - assert (Hin : w ∈ refs survives (players g)) by (rewrite Hw; apply list_elem_of_here).
    apply elem_of_refs in Hin. destruct Hin as (p & Hp & Hs).
    exists p. split; [exact Hp|]. unfold survives in Hs.
    apply andb_true_iff in Hs. destruct Hs as [H1 H2].
    apply negb_true_iff in H1. apply negb_true_iff in H2. apply Z.eqb_neq in H2.
    split; [exact H1|]. split; [exact H2|].
    intros j q Hj Hq. destruct (survives q) eqn:Hsq.
    + exfalso. assert (Hjn : j ∈ refs survives (players g))
        by (apply elem_of_refs; eauto).
      rewrite Hw in Hjn. apply list_elem_of_singleton in Hjn. contradiction.
    + unfold survives in Hsq. apply andb_false_iff in Hsq.
      destruct Hsq as [H|H]; apply negb_false_iff in H;
        [left; exact H | right; apply Z.eqb_eq; exact H].
Qed.

(** X16.  [startNewHand] with two seats or more in the tournament that
    have chips: a hand is dealt.  The hand number goes up by one, the
    deck is a fresh shuffle and two cards per such seat are gone from it,
    the board and the pot are empty and no winner is set.  The dealer
    button moves to the first such seat after the old dealer, and the
    small blind, the big blind and the turn to the next three after the
    new dealer.  The chips in front of the seats are the stacks the hand
    started from. *)
Theorem startNewHand_deals (draw : nat -> nat) (g : GameState) :
  (2 <= length (refs survives (players g)))%nat ->
  exists g' sb bb,
    startNewHand draw g = Some g' /\
    phase g' = preflop /\ bettingComplete g' = false /\
    handNumber g' = handNumber g + 1 /\
    deck g' = createDeck draw /\
    deckIndex g' = (2 * length (refs survives (players g)))%nat /\
    communityCards g' = [] /\ winner g' = None /\ pot g' = 0 /\
    nearestAfter survives (players g) (dealerIndex g) (dealerIndex g') /\
    nearestAfter survives (players g) (dealerIndex g') sb /\
    nearestAfter survives (players g) sb bb /\
    nearestAfter survives (players g) bb (activePlayerIndex g') /\
    seatChips (players g') = stacksOf (players g).
Proof.
  intros Hlen.
  set (e := checkForEliminations g).
  assert (Hsurv : forall from i,
            nearestAfter notEliminated (players e) from i ->
            nearestAfter survives (players g) from i).
  { intros from i. apply nearestAfter_map. intros p. apply checkForEliminations_flag. }
  assert (He : stillIn (players e) = refs survives (players g))
    by apply checkForEliminations_stillIn.
  (* the new dealer *)
  assert (Hsome : exists j p, players e !! j = Some p /\ notEliminated p = true).
  { destruct (refs survives (players g)) as [|j l] eqn:El; [simpl in Hlen; lia|].
    assert (Hj : j ∈ stillIn (players e)) by (rewrite He; apply list_elem_of_here).
    apply elem_of_refs in Hj. destruct Hj as (p & Hp & Hq). eauto. }
  pose proof (scan_nearest notEliminated (players e) (dealerIndex e) Hsome) as Hdealer.
  change (scanResult (dealerIndex e)
            (scanLoop notEliminated (players e) (length (players e))
               ((dealerIndex e + 1) mod length (players e)) 0))
    with (getNextDealerIndex e) in Hdealer.
  set (newGame :=
         setHandNumber (handNumber e + 1)
           (setWinner None
              (setCurrentBet 0
                 (setPot 0
                    (setCommunityCards []
                       (setDeckIndex 0
                          (setDeck (createDeck draw)
                             (setDealerIndex (getNextDealerIndex e) e)))))))).
  assert (Hrun : startNewHand draw g = dealCards newGame).
  { unfold startNewHand, checkTournamentComplete.
    rewrite (filter_length_refs (fun p => negb (eliminated p))).
    change (refs (fun p => negb (eliminated p)) (players (checkForEliminations g)))
      with (stillIn (players e)).
    rewrite He. destruct (Nat.eqb_spec (length (refs survives (players g))) 1); [lia|].
    reflexivity. }
  assert (Hlen' : (2 <= length (stillIn (players newGame)))%nat)
    by (change (players newGame) with (players e); rewrite He; exact Hlen).
  destruct (dealCards_slots newGame Hlen')
    as (g' & sb & bb & pS & pB & Hdeal & Hsb & Hbb & Ht & _ & _ & _ & _ & _ & _ & _
        & Hpot & Hph & Hbc & Hdi & Hchips & _).
  destruct (dealCards_table newGame g' Hdeal)
    as (Hdk & Hdx & Hcc & Hw & _ & Hhn & _).
  assert (Hpos : exists d, stillIn (players newGame) !! d = Some (dealerIndex newGame)).
  { apply list_elem_of_lookup. apply elem_of_refs.
    destruct Hdealer as (_ & _ & _ & Hq & _). exact Hq. }
  destruct Hpos as [d Hd].
  destruct (dealer_slots newGame d sb bb _ Hd Hsb Hbb Ht) as (N1 & N2 & N3).
  change (players newGame) with (players e) in N1, N2, N3, Hchips, Hdx.
  change (dealerIndex newGame) with (getNextDealerIndex e) in N1, Hdi.
  assert (F1 : deckIndex newGame = 0%nat) by reflexivity.
  assert (F2 : deck newGame = createDeck draw) by reflexivity.
  assert (F3 : handNumber newGame = handNumber g + 1) by reflexivity.
  assert (F4 : communityCards newGame = []) by reflexivity.
  assert (F5 : winner newGame = None) by reflexivity.
  clearbody newGame.
  exists g', sb, bb. rewrite Hrun. split; [exact Hdeal|].
  split; [exact Hph|]. split; [exact Hbc|]. split; [congruence|]. split; [congruence|].
  split; [rewrite Hdx, He, F1; lia|]. split; [congruence|]. split; [congruence|].
  split; [exact Hpot|]. rewrite Hdi.
  split; [exact (Hsurv _ _ Hdealer)|]. split; [exact (Hsurv _ _ N1)|].
  split; [exact (Hsurv _ _ N2)|]. split; [exact (Hsurv _ _ N3)|].
  rewrite Hchips. apply checkForEliminations_stacks.
Qed.

(** ** The further properties at the example tables *)

Lemma next_seat_is_nearest_witness :
  nearestAfter canAct (players sixHanded) 4 (getNextActivePlayer sixHanded) /\
  getNextActivePlayer sixHanded = 5%nat.
Proof.
  split; [|reflexivity].
  apply (proj1 (next_seat_is_nearest sixHanded)).
  exists 0%nat, (seatOf "Player 0" 0 1000 0 false false []).
  split; reflexivity.
Defined.

Lemma open_round_turn_can_act_witness :
  exists g',
    handlePlayerAction "Hero" call None threeHanded = Some g' /\
    nearestAfter canAct (players g') 0 (activePlayerIndex g').
Proof.
  assert (Hturn : hasTurn "Hero" threeHanded) by (split; [discriminate | reflexivity]).
  assert (Hrun : exists g', handlePlayerAction "Hero" call None threeHanded = Some g' /\
                            bettingComplete g' = false)
    by (eexists; split; [vm_compute; reflexivity | reflexivity]).
  destruct Hrun as (g' & Hrun & Hopen). exists g'. split; [exact Hrun|].
  exact (proj1 open_round_turn_can_act "Hero"%string call None threeHanded g'
               Hturn Hrun Hopen).
Defined.

Lemma action_touches_only_the_actor_witness :
  exists g',
    handlePlayerAction "Hero" raise (Some 60) sixHanded = Some g' /\
    othersKept 4 sixHanded g' /\ tableKept sixHanded g'.
Proof.
  assert (Hrun : exists g', handlePlayerAction "Hero" raise (Some 60) sixHanded = Some g')
    by (eexists; vm_compute; reflexivity).
  destruct Hrun as (g' & Hrun). exists g'. split; [exact Hrun|].
  exact (proj1 action_touches_only_the_actor "Hero"%string raise (Some 60) sixHanded g'
               Hrun).
Defined.

Lemma bet_can_go_down_witness :
  exists g',
    handlePlayerAction "Hero" raise (Some 600) (facingRaise 100) = Some g' /\
    currentBet g' = 100 + 20 /\ currentBet g' < 510.
Proof.
  assert (Hturn : hasTurn "Hero" (facingRaise 100))
    by (split; [discriminate | reflexivity]).
  refine (proj1 bet_can_go_down "Hero"%string 600 (facingRaise 100)
                (seatOf "Hero" 0 100 20 false false []) Hturn eq_refl _ _ _).
  - simpl. lia.
  - simpl. lia.
  - simpl. lia.
Defined.

Lemma board_follows_deck_witness :
  exists g',
    advancePhase closedPreflop = Some g' /\
    phase g' = flop /\ communityCards g' = deckSlice orderedDeck 0 3.
Proof.
  assert (Hrun : exists g', advancePhase closedPreflop = Some g')
    by (eexists; vm_compute; reflexivity).
  destruct Hrun as (g' & Hrun). exists g'. split; [exact Hrun|].
  destruct (board_follows_deck closedPreflop g' eq_refl Hrun) as (_ & _ & Hb & Hp).
  split; [exact Hp | exact Hb].
Defined.

Lemma advancePhase_can_hang_witness :
  advancePhase allInAroundFold = None /\
  exists s, beforeSettle allInAroundFold s /\ forall fuel, settleLoop fuel s = None.
Proof.
  destruct (advancePhase_can_hang allInAroundFold 1
              (seatOf "Hero" 1 990 10 true true []))
    as (s & Hs & _ & _ & Hloop & Hnone).
  - reflexivity.
  - left. reflexivity.
  - reflexivity.
  - reflexivity.
  - reflexivity.
  - repeat constructor.
  - split; [exact Hnone|]. exists s. split; [exact Hs | exact Hloop].
Defined.

Lemma showdown_winner_beats_all_witness :
  exists g' p',
    advancePhase riverWin = Some g' /\ winner g' = Some 1%nat /\
    players g' !! 1%nat = Some p' /\ chips p' = 975 + (75 + 0).
Proof.
  assert (Hrun : exists g', advancePhase riverWin = Some g' /\ winner g' = Some 1%nat)
    by (eexists; split; [vm_compute; reflexivity | reflexivity]).
  destruct Hrun as (g' & Hrun & Hw).
  destruct (showdown_winner_beats_all riverWin g' 1 eq_refl eq_refl Hrun Hw)
    as ((p & p' & Hp & _ & Hp' & Hc) & _).
  exists g', p'. split; [exact Hrun|]. split; [exact Hw|]. split; [exact Hp'|].
  injection Hp as <-. exact Hc.
Defined.

Lemma dealCards_hands_witness :
  exists g',
    dealCards freshTable = Some g' /\ deckIndex g' = 6%nat /\
    length (players g') = 3%nat.
Proof.
  assert (Hrun : exists g', dealCards freshTable = Some g')
    by (eexists; vm_compute; reflexivity).
  destruct Hrun as (g' & Hrun). exists g'. split; [exact Hrun|].
  destruct (dealCards_hands freshTable g' Hrun) as (_ & Hi & Hl & _).
  split; [exact Hi | exact Hl].
Defined.

Lemma dealCards_blinds_witness :
  exists g' sb bb,
    dealCards freshTable = Some g' /\ sb <> bb /\
    nearestAfter notEliminated (players freshTable) 0 sb /\
    phase g' = preflop.
Proof.
  destruct (dealCards_blinds freshTable
              (Player.mk "player_0" "Hero" 1000 [] 0 false false 0 true false false))
    as (g' & sb & bb & pS & pB & Hrun & Hsb & _ & _ & Hne & _ & _ & _ & _ & _ & _
        & Hph & _).
  - vm_compute. lia.
  - reflexivity.
  - reflexivity.
  - exists g', sb, bb. split; [exact Hrun|]. split; [exact Hne|].
    split; [exact Hsb | exact Hph].
Defined.

Lemma startNewHand_ends_tournament_witness :
  exists g',
    startNewHand (fun i => i) heroTookAll = Some g' /\
    phase g' = tournament_complete /\ tournamentWinner g' = Some 0%nat.
Proof.
  eexists. split.
  - exact (proj1 (startNewHand_ends_tournament (fun i => i) heroTookAll 0 eq_refl)).
  - split; reflexivity.
Defined.

Lemma startNewHand_deals_witness :
  exists g',
    startNewHand (fun i => i) afterShowdown = Some g' /\
    phase g' = preflop /\ handNumber g' = 1 + 1 /\
    seatChips (players g') = stacksOf (players afterShowdown).
Proof.
  destruct (startNewHand_deals (fun i => i) afterShowdown)
    as (g' & sb & bb & Hrun & Hph & _ & Hn & _ & _ & _ & _ & _ & _ & _ & _ & _ & Hc).
  - vm_compute. lia.
  - exists g'. split; [exact Hrun|]. split; [exact Hph|]. split; [exact Hn | exact Hc].
Defined.

(** ** The rank table of the evaluator *)

Lemma bump_keys (P : Z -> Prop) (v : Z) (m : RankCounts) :
  P v -> Forall (fun e => P (fst e)) m -> Forall (fun e => P (fst e)) (bump v m).
Proof.
  intros Hv. induction m as [|[k c] m IH]; intros H; simpl.
  - constructor; [exact Hv | constructor].
  - apply Forall_cons_1 in H as [Hk Hm].
    destruct (v =? k); [constructor; assumption|].
    destruct (v <? k).
    + constructor; [exact Hv|]. constructor; assumption.
    + constructor; [exact Hk | exact (IH Hm)].
Qed.

Lemma bump_ascend (v : Z) (m : RankCounts) : keysAscend m -> keysAscend (bump v m).
Proof.
  induction m as [|[k c] m IH]; intros H; simpl.
  - split; [constructor | exact I].
  - destruct H as [Hk Hm].
    destruct (Z.eqb_spec v k) as [->|Nk]; [split; assumption|].
    destruct (Z.ltb_spec v k) as [Lt|Ge].
    + split; [|split; assumption]. constructor; [exact Lt|].
      eapply Forall_impl; [exact Hk|]. simpl. intros e He. lia.
    + split; [|exact (IH Hm)].
      apply (bump_keys (fun x => k < x)); [lia | exact Hk].
Qed.

Lemma bump_positive (v : Z) (m : RankCounts) :
  Forall (fun e => 1 <= snd e) m -> Forall (fun e => 1 <= snd e) (bump v m).
Proof.
  induction m as [|[k c] m IH]; intros H; simpl.
  - constructor; [simpl; lia | constructor].
  - apply Forall_cons_1 in H as [Hk Hm]. simpl in Hk.
    destruct (v =? k).
    + constructor; [|exact Hm]. simpl. destruct (c =? 0); lia.
    + destruct (v <? k).
      * constructor; [simpl; lia|]. constructor; assumption.
      * constructor; [exact Hk | exact (IH Hm)].
Qed.

Lemma getCount_absent (m : RankCounts) (k : Z) :
  Forall (fun e => k < fst e) m -> getCount m k = None.
Proof.
  induction m as [|[k' c] m IH]; intros H; simpl; [reflexivity|].
  apply Forall_cons_1 in H as [Hk Hm]. simpl in Hk.
  destruct (Z.eqb_spec k k'); [lia | exact (IH Hm)].
Qed.

Lemma getCount_entry (m : RankCounts) (k c : Z) :
  keysAscend m -> (k, c) ∈ m -> getCount m k = Some c.
Proof.
  induction m as [|[k' c'] m IH]; intros Ha Hin; [inversion Hin|].
  destruct Ha as [Hk Hm]. simpl.
  apply elem_of_cons in Hin as [E|Hin].
  - injection E as <- <-. rewrite Z.eqb_refl. reflexivity.
  - destruct (Z.eqb_spec k k') as [->|N]; [|exact (IH Hm Hin)].
    exfalso. rewrite Forall_forall in Hk. specialize (Hk _ Hin). simpl in Hk. lia.
Qed.

Lemma getCount_elem (m : RankCounts) (k c : Z) :
  getCount m k = Some c -> (k, c) ∈ m.
Proof.
  induction m as [|[k' c'] m IH]; simpl; [discriminate|].
  destruct (Z.eqb_spec k k') as [->|N].
  - intros [= ->]. apply list_elem_of_here.
  - intros H. apply list_elem_of_further. exact (IH H).
Qed.

(** One more card of value [v]: its count goes up by one, the others stay. *)
Lemma getCount_bump (v : Z) (m : RankCounts) (k : Z) :
  keysAscend m ->
  getCount (bump v m) k
  = if k =? v then Some (default 0 (getCount m k) + 1) else getCount m k.
Proof.
  induction m as [|[k' c] m IH]; intros Ha; simpl.
  - destruct (k =? v); reflexivity.
  - destruct Ha as [Hk Hm].
    destruct (Z.eqb_spec v k') as [->|Nv].
    + simpl. destruct (k =? k'); [|reflexivity].
      simpl. f_equal. destruct (Z.eqb_spec c 0); lia.
    + destruct (Z.ltb_spec v k') as [Lt|Ge].
      * simpl. destruct (Z.eqb_spec k v) as [E|N].
        -- destruct (Z.eqb_spec k k'); [lia|].
           rewrite getCount_absent; [reflexivity|].
           eapply Forall_impl; [exact Hk|]. simpl. intros e He. lia.
        -- reflexivity.
      * simpl. destruct (Z.eqb_spec k k') as [E|N].
        -- destruct (Z.eqb_spec k v); [lia | reflexivity].
        -- exact (IH Hm).
Qed.

Lemma occurrences_cons (v : Z) (c : Card) (cs : list Card) :
  occurrences v (c :: cs) = (if Card.value c =? v then 1 else 0) + occurrences v cs.
Proof.
  unfold occurrences. simpl. destruct (Card.value c =? v); simpl; lia.
Qed.

Lemma occurrences_nonneg (v : Z) (cs : list Card) : 0 <= occurrences v cs.
Proof. unfold occurrences. lia. Qed.

Lemma occurrences_perm (v : Z) (cs cs' : list Card) :
  cs ≡ₚ cs' -> occurrences v cs = occurrences v cs'.
Proof.
  induction 1 as [|x l l' _ IH|x y l|l l' l'' _ IH1 _ IH2].
  - reflexivity.
  - rewrite !occurrences_cons, IH. reflexivity.
  - rewrite !occurrences_cons. lia.
  - congruence.
Qed.

(** The table counts the cards: after the pass over [cards] the count of
    a value is its count before plus the number of cards of that value;
    the keys still ascend and every count is at least 1. *)
Lemma countRanks_counts (cards : list Card) :
  forall m,
    keysAscend m -> Forall (fun e => 1 <= snd e) m ->
    keysAscend (countRanks cards m) /\
    Forall (fun e => 1 <= snd e) (countRanks cards m) /\
    forall k, default 0 (getCount (countRanks cards m) k)
              = default 0 (getCount m k) + occurrences k cards.
Proof.
  induction cards as [|c cards IH]; intros m Ha Hp.
  - split; [exact Ha|]. split; [exact Hp|]. intros k. unfold occurrences. simpl. lia.
  - change (countRanks (c :: cards) m) with (countRanks cards (bump (Card.value c) m)).
    destruct (IH (bump (Card.value c) m) (bump_ascend _ _ Ha) (bump_positive _ _ Hp))
      as (Ha' & Hp' & Hc).
    split; [exact Ha'|]. split; [exact Hp'|]. intros k.
    rewrite Hc, occurrences_cons, (getCount_bump _ _ _ Ha).
    rewrite (Z.eqb_sym (Card.value c) k).
    destruct (k =? Card.value c); simpl; lia.
Qed.

(** An entry of the table of a hand: the value and how many cards have
    it. *)
Lemma countRanks_entry (cards : list Card) (k n : Z) :
  (k, n) ∈ countRanks cards [] <-> n = occurrences k cards /\ 1 <= n.
Proof.
  destruct (countRanks_counts cards [] I (Forall_nil_2 _)) as (Ha & Hp & Hc).
  specialize (Hc k). simpl in Hc. split.
  - intros Hin. rewrite (getCount_entry _ _ _ Ha Hin) in Hc. simpl in Hc.
    rewrite Forall_forall in Hp. specialize (Hp _ Hin). simpl in Hp. lia.
  - intros [-> Hn]. apply getCount_elem.
    destruct (getCount (countRanks cards []) k) as [c|] eqn:E; simpl in Hc.
    + rewrite Hc. reflexivity.
    + lia.
Qed.

Lemma counts_head (rc : RankCounts) (n : Z) :
  countIs (jsSort (fun a b => b - a) (map snd rc)) 0 n = true ->
  (exists k, (k, n) ∈ rc) /\ forall k c, (k, c) ∈ rc -> c <= n.
Proof.
  unfold countIs.
  pose proof (jsSort_perm (fun a b => b - a) (map snd rc)) as Hperm.
  pose proof (jsSort_ordered (fun a b : Z => b - a) ltac:(intros; cbv beta in *; lia) ltac:(intros; cbv beta in *; lia)
                             (map snd rc)) as Hord.
  destruct (jsSort (fun a b => b - a) (map snd rc)) as [|x r]; [discriminate|].
  simpl. intros E. apply Z.eqb_eq in E. subst x. destruct Hord as [Hhead _]. split.
  - assert (Hin : n ∈ map snd rc) by (rewrite <- Hperm; apply list_elem_of_here).
    apply list_elem_of_fmap in Hin. destruct Hin as ([k c] & E & Hin). simpl in E.
    subst c. exists k. exact Hin.
  - intros k c Hin.
    assert (Hc : c ∈ n :: r).
    { rewrite Hperm. apply list_elem_of_fmap. exists (k, c). split; [reflexivity | exact Hin]. }
    apply elem_of_cons in Hc as [->|Hc]; [lia|].
    rewrite Forall_forall in Hhead. specialize (Hhead c Hc). simpl in Hhead. lia.
Qed.

Lemma counts_entry (rc : RankCounts) (i : nat) (n : Z) :
  countIs (jsSort (fun a b => b - a) (map snd rc)) i n = true ->
  exists k, (k, n) ∈ rc.
Proof.
  unfold countIs.
  pose proof (jsSort_perm (fun a b => b - a) (map snd rc)) as Hperm.
  destruct (jsSort (fun a b => b - a) (map snd rc) !! i) as [c|] eqn:E; [|discriminate].
  intros Hc. apply Z.eqb_eq in Hc. subst c.
  assert (Hin : n ∈ map snd rc)
    by (rewrite <- Hperm; apply list_elem_of_lookup; eauto).
  apply list_elem_of_fmap in Hin. destruct Hin as ([k c] & E' & Hin). simpl in E'.
  subst c. exists k. exact Hin.
Qed.

Lemma findKey_entry (rc : RankCounts) (n k : Z) :
  keysAscend rc -> (k, n) ∈ rc ->
  exists k', findKey n rc = Some k' /\ (k', n) ∈ rc.
Proof.
  intros Ha Hin. unfold findKey.
  destruct (find _ (map fst rc)) as [k'|] eqn:E.
  - exists k'. split; [reflexivity|]. apply find_some in E. destruct E as [_ E].
    destruct (getCount rc k') as [c|] eqn:Hc; [|discriminate].
    apply Z.eqb_eq in E. subst c. exact (getCount_elem _ _ _ Hc).
  - exfalso.
    assert (Hk : In k (map fst rc)).
    { apply list_elem_of_In. apply list_elem_of_fmap. exists (k, n).
      split; [reflexivity | exact Hin]. }
    pose proof (find_none _ _ E k Hk) as Hno. simpl in Hno.
    rewrite (getCount_entry _ _ _ Ha Hin), Z.eqb_refl in Hno. discriminate.
Qed.

Lemma fold_max_elem (r : list Z) (x : Z) : fold_left Z.max r x ∈ x :: r.
Proof.
  revert x. induction r as [|y r IH]; intros x; simpl; [apply list_elem_of_here|].
  specialize (IH (Z.max x y)). apply elem_of_cons in IH as [E|Hin].
  - rewrite E. destruct (Z.max_spec x y) as [[_ ->]|[_ ->]].
    + apply list_elem_of_further, list_elem_of_here.
    + apply list_elem_of_here.
  - apply list_elem_of_further, list_elem_of_further. exact Hin.
Qed.

Lemma fold_min_elem (r : list Z) (x : Z) : fold_left Z.min r x ∈ x :: r.
Proof.
  revert x. induction r as [|y r IH]; intros x; simpl; [apply list_elem_of_here|].
  specialize (IH (Z.min x y)). apply elem_of_cons in IH as [E|Hin].
  - rewrite E. destruct (Z.min_spec x y) as [[_ ->]|[_ ->]].
    + apply list_elem_of_here.
    + apply list_elem_of_further, list_elem_of_here.
  - apply list_elem_of_further, list_elem_of_further. exact Hin.
Qed.

Lemma pairs_entry (rc : RankCounts) (p : Z) :
  p ∈ jsSort (fun a b => b - a) (map fst (filter (fun e => 2 <= snd e) rc)) ->
  exists c, (p, c) ∈ rc /\ 2 <= c.
Proof.
  rewrite (jsSort_perm (fun a b => b - a)). intros Hin.
  apply list_elem_of_fmap in Hin. destruct Hin as ([k c] & E & Hin). simpl in E. subst k.
  apply list_elem_of_filter in Hin. destruct Hin as [Hc Hin]. simpl in Hc.
  exists c. split; assumption.
Qed.

Lemma pairs_nonempty (rc : RankCounts) (k c : Z) :
  (k, c) ∈ rc -> 2 <= c ->
  jsSort (fun a b => b - a) (map fst (filter (fun e => 2 <= snd e) rc)) <> [].
Proof.
  intros Hin Hc E.
  assert (Hk : k ∈ jsSort (fun a b => b - a)
                 (map fst (filter (fun e => 2 <= snd e) rc))).
  { rewrite (jsSort_perm (fun a b => b - a)). apply list_elem_of_fmap.
    exists (k, c). split; [reflexivity|]. apply list_elem_of_filter. split; assumption. }
  rewrite E in Hk. inversion Hk.
Qed.

Lemma definedCards_nonempty (cards : list (option Card)) (cs : list Card) :
  definedCards cards = Some cs -> length cs = length cards.
Proof.
  revert cs. induction cards as [|[c|] cards IH]; intros cs; simpl.
  - intros [= <-]. reflexivity.
  - destruct (definedCards cards) as [cs'|]; [|discriminate]. simpl.
    intros [= <-]. simpl. rewrite (IH cs' eq_refl). reflexivity.
  - discriminate.
Qed.

(** Splits the cases by rank of a result whose rank is known, leaving
    the one case that applies to [tac]. *)
Ltac rank_cases tac :=
  split; [lia|];
  repeat match goal with |- _ /\ _ => split end;
  match goal with
  | |- _ -> _ =>
      first [ let H := fresh in intros H; exfalso; lia
            | intros _; tac ]
  end.

(** The cases of [evaluateFiveCardHand] by the rank it returns. *)
Lemma evaluateFiveCardHand_cases (cards : list (option Card)) (h : HandEval) :
  evaluateFiveCardHand cards = Some h ->
  exists cs,
    definedCards cards = Some cs /\
    0 <= Hand.rank h <= 9 /\
    (Hand.rank h = 9 -> Hand.kickers h = [] /\ Hand.highCard h = 14) /\
    (Hand.rank h = 8 \/ Hand.rank h = 4 -> Hand.kickers h = [Hand.highCard h]) /\
    (Hand.rank h = 7 ->
     Hand.kickers h = [Hand.highCard h] /\ occurrences (Hand.highCard h) cs = 4) /\
    (Hand.rank h = 6 ->
     exists pair,
       Hand.kickers h = [Hand.highCard h; pair] /\
       occurrences (Hand.highCard h) cs = 3 /\ occurrences pair cs = 2) /\
    (Hand.rank h = 5 \/ Hand.rank h = 0 ->
     Hand.kickers h = valuesDown cs /\ head (valuesDown cs) = Some (Hand.highCard h)) /\
    (Hand.rank h = 3 ->
     Hand.kickers h = [Hand.highCard h] /\ occurrences (Hand.highCard h) cs = 3) /\
    (Hand.rank h = 2 ->
     exists lowPair,
       Hand.kickers h = [Hand.highCard h; lowPair] /\ lowPair <= Hand.highCard h /\
       occurrences (Hand.highCard h) cs = 2 /\ occurrences lowPair cs = 2) /\
    (Hand.rank h = 1 ->
     Hand.kickers h = [Hand.highCard h] /\ occurrences (Hand.highCard h) cs = 2).
Proof.
  unfold evaluateFiveCardHand.
  destruct (definedCards cards) as [cs|]; [|discriminate].
  cbn [mbind option_bind]. cbv zeta.
  set (sorted := jsSort (fun a b => Card.value b - Card.value a) cs).
  change (fold_left (fun m card => bump (Card.value card) m) sorted [])
    with (countRanks sorted []).
  set (rc := countRanks sorted []).
  set (counts := jsSort (fun a b => b - a) (map snd rc)).
  set (pairs := jsSort (fun a b => b - a) (map fst (filter (fun e => 2 <= snd e) rc))).
  destruct (countRanks_counts sorted [] I (Forall_nil_2 _)) as (Ha & _ & _).
  fold rc in Ha.
  assert (Hocc : forall k n, (k, n) ∈ rc -> n = occurrences k cs).
  { intros k n Hin. apply countRanks_entry in Hin. destruct Hin as [-> _].
    apply occurrences_perm. apply jsSort_perm. }
  destruct (sorted !! 0%nat) as [c0|] eqn:Hc0; [|discriminate].
  cbn [mbind option_bind].
  assert (Hhead : head (valuesDown cs) = Some (Card.value c0)).
  { unfold valuesDown. fold sorted. destruct sorted; [discriminate|].
    simpl in Hc0. injection Hc0 as ->. reflexivity. }
  intros Hres. exists cs. split; [reflexivity|]. revert Hres.
  destruct (_ && (length (remove_dups (map Card.suit sorted)) =? 1)%nat).
  { destruct (_ =? 14); intros [= <-]; cbn [Hand.rank Hand.kickers Hand.highCard];
      rank_cases ltac:(first [split; reflexivity | reflexivity]). }
  destruct (countIs counts 0 4) eqn:H4.
  { destruct (counts_head rc 4 H4) as [[k Hk] _].
    destruct (findKey_entry rc 4 k Ha Hk) as (q & -> & Hq). cbn [mbind option_bind].
    intros [= <-]. cbn [Hand.rank Hand.kickers Hand.highCard].
    rank_cases ltac:(split; [reflexivity | symmetry; exact (Hocc _ _ Hq)]). }
  destruct (countIs counts 0 3 && countIs counts 1 2) eqn:H32.
  { apply andb_true_iff in H32. destruct H32 as [H3 H2].
    destruct (counts_entry rc 0 3 H3) as [k3 Hk3].
    destruct (counts_entry rc 1 2 H2) as [k2 Hk2].
    destruct (findKey_entry rc 3 k3 Ha Hk3) as (t & -> & Ht). cbn [mbind option_bind].
    destruct (findKey_entry rc 2 k2 Ha Hk2) as (p & -> & Hp). cbn [mbind option_bind].
    intros [= <-]. cbn [Hand.rank Hand.kickers Hand.highCard].
    rank_cases ltac:(exists p; split; [reflexivity|];
                     split; symmetry; [exact (Hocc _ _ Ht) | exact (Hocc _ _ Hp)]). }
  destruct (length (remove_dups (map Card.suit sorted)) =? 1)%nat.
  { intros [= <-]. cbn [Hand.rank Hand.kickers Hand.highCard].
    rank_cases ltac:(split; [reflexivity | exact Hhead]). }
  match goal with
  | |- context [if ?b then Some (Hand.mk 4 _ _ _) else _] => destruct b
  end.
  { intros [= <-]. cbn [Hand.rank Hand.kickers Hand.highCard].
    rank_cases ltac:(reflexivity). }
  destruct (countIs counts 0 3) eqn:H3.
  { destruct (counts_entry rc 0 3 H3) as [k3 Hk3].
    destruct (findKey_entry rc 3 k3 Ha Hk3) as (t & -> & Ht). cbn [mbind option_bind].
    intros [= <-]. cbn [Hand.rank Hand.kickers Hand.highCard].
    rank_cases ltac:(split; [reflexivity | symmetry; exact (Hocc _ _ Ht)]). }
  assert (Hpair : forall p, countIs counts 0 2 = true -> p ∈ pairs ->
                            occurrences p cs = 2).
  { intros p H2 Hp. destruct (counts_head rc 2 H2) as [_ Hmax].
    destruct (pairs_entry rc p Hp) as (c & Hc & Hge).
    pose proof (Hmax p c Hc) as Hle. rewrite <- (Hocc p c Hc). lia. }
  assert (Hsome : countIs counts 0 2 = true -> pairs <> []).
  { intros H2. destruct (counts_head rc 2 H2) as [[k Hk] _].
    apply (pairs_nonempty rc k 2 Hk). lia. }
  destruct (countIs counts 0 2 && countIs counts 1 2) eqn:H22.
  { apply andb_true_iff in H22. destruct H22 as [H2 _].
    specialize (Hsome H2). specialize (Hpair) with (1 := H2).
    destruct pairs as [|x r] eqn:Epairs; [contradiction|].
    cbn [maxOf minOf mbind option_bind].
    intros [= <-]. cbn [Hand.rank Hand.kickers Hand.highCard].
    rank_cases ltac:(exists (fold_left Z.min r x); split; [reflexivity|];
                     split; [exact (minOf_le_maxOf (x :: r) _ _ eq_refl eq_refl)|];
                     split; apply Hpair; [apply fold_max_elem | apply fold_min_elem]). }
  destruct (countIs counts 0 2) eqn:H2.
  { specialize (Hsome eq_refl).
    destruct pairs as [|x r] eqn:Epairs; [contradiction|].
    cbn [lookup list_lookup mbind option_bind].
    intros [= <-]. cbn [Hand.rank Hand.kickers Hand.highCard].
    rank_cases ltac:(split; [reflexivity | apply (Hpair x eq_refl); apply list_elem_of_here]). }
  intros [= <-]. cbn [Hand.rank Hand.kickers Hand.highCard].
  rank_cases ltac:(split; [reflexivity | exact Hhead]).
Qed.

(** X17.  What [evaluateFiveCardHand] returns, in terms of the cards.
    The rank is one of 0 to 9.  For Four of a Kind, Full House, Three of
    a Kind, Two Pair and Pair the values reported are values that occur
    among the cards exactly 4, 3 (and 2), 3, 2 and 2, and 2 times; the
    kickers are those group values alone, so the side cards are not in
    them.  For Flush and High Card the kickers are all the card values
    from the highest down. *)
Theorem evaluateFiveCardHand_groups (cards : list (option Card)) (h : HandEval) :
  evaluateFiveCardHand cards = Some h ->
  exists cs,
    definedCards cards = Some cs /\
    0 <= Hand.rank h <= 9 /\
    (Hand.rank h = 9 -> Hand.kickers h = [] /\ Hand.highCard h = 14) /\
    (Hand.rank h = 8 \/ Hand.rank h = 4 -> Hand.kickers h = [Hand.highCard h]) /\
    (Hand.rank h = 7 ->
     Hand.kickers h = [Hand.highCard h] /\ occurrences (Hand.highCard h) cs = 4) /\
    (Hand.rank h = 6 ->
     exists pair,
       Hand.kickers h = [Hand.highCard h; pair] /\
       occurrences (Hand.highCard h) cs = 3 /\ occurrences pair cs = 2) /\
    (Hand.rank h = 5 \/ Hand.rank h = 0 ->
     Hand.kickers h = valuesDown cs /\ head (valuesDown cs) = Some (Hand.highCard h)) /\
    (Hand.rank h = 3 ->
     Hand.kickers h = [Hand.highCard h] /\ occurrences (Hand.highCard h) cs = 3) /\
    (Hand.rank h = 2 ->
     exists lowPair,
       Hand.kickers h = [Hand.highCard h; lowPair] /\ lowPair <= Hand.highCard h /\
       occurrences (Hand.highCard h) cs = 2 /\ occurrences lowPair cs = 2) /\
    (Hand.rank h = 1 ->
     Hand.kickers h = [Hand.highCard h] /\ occurrences (Hand.highCard h) cs = 2).
Proof. exact (evaluateFiveCardHand_cases cards h). Qed.

Lemma evaluateFiveCardHand_total (cards : list (option Card)) (c : Card) (cs : list Card) :
  definedCards cards = Some (c :: cs) -> exists h, evaluateFiveCardHand cards = Some h.
Proof.
  intros Hdef. unfold evaluateFiveCardHand. rewrite Hdef.
  cbn [mbind option_bind]. cbv zeta.
  set (sorted := jsSort (fun a b => Card.value b - Card.value a) (c :: cs)).
  change (fold_left (fun m card => bump (Card.value card) m) sorted [])
    with (countRanks sorted []).
  set (rc := countRanks sorted []).
  set (counts := jsSort (fun a b => b - a) (map snd rc)).
  set (pairs := jsSort (fun a b => b - a) (map fst (filter (fun e => 2 <= snd e) rc))).
  destruct (countRanks_counts sorted [] I (Forall_nil_2 _)) as (Ha & _ & _).
  fold rc in Ha.
  assert (Hlen : length sorted = S (length cs))
    by (unfold sorted; rewrite (jsSort_perm _ (c :: cs)); reflexivity).
  destruct sorted as [|c0 sorted'] eqn:Es; [discriminate|].
  cbn [lookup list_lookup mbind option_bind].
  assert (Hsome : countIs counts 0 2 = true -> pairs <> []).
  { intros H2. destruct (counts_head rc 2 H2) as [[k Hk] _].
    apply (pairs_nonempty rc k 2 Hk). lia. }
  destruct (_ && (length (remove_dups _) =? 1)%nat).
  { destruct (_ =? 14); eauto. }
  destruct (countIs counts 0 4) eqn:H4.
  { destruct (counts_head rc 4 H4) as [[k Hk] _].
    destruct (findKey_entry rc 4 k Ha Hk) as (q & -> & Hq). cbn [mbind option_bind].
    eauto. }
  destruct (countIs counts 0 3 && countIs counts 1 2) eqn:H32.
  { apply andb_true_iff in H32. destruct H32 as [H3 H2].
    destruct (counts_entry rc 0 3 H3) as [k3 Hk3].
    destruct (counts_entry rc 1 2 H2) as [k2 Hk2].
    destruct (findKey_entry rc 3 k3 Ha Hk3) as (t & -> & Ht). cbn [mbind option_bind].
    destruct (findKey_entry rc 2 k2 Ha Hk2) as (p & -> & Hp). cbn [mbind option_bind].
    eauto. }
  destruct (length (remove_dups _) =? 1)%nat; [eauto|].
  match goal with
  | |- context [if ?b then Some (Hand.mk 4 _ _ _) else _] => destruct b
  end; [eauto|].
  destruct (countIs counts 0 3) eqn:H3.
  { destruct (counts_entry rc 0 3 H3) as [k3 Hk3].
    destruct (findKey_entry rc 3 k3 Ha Hk3) as (t & -> & Ht). cbn [mbind option_bind].
    eauto. }
  destruct (countIs counts 0 2 && countIs counts 1 2) eqn:H22.
  { apply andb_true_iff in H22. destruct H22 as [H2 _]. specialize (Hsome H2).
    destruct pairs as [|x r]; [contradiction|]. cbn [maxOf minOf mbind option_bind].
    eauto. }
  destruct (countIs counts 0 2) eqn:H2.
  { specialize (Hsome eq_refl).
    destruct pairs as [|x r]; [contradiction|].
    cbn [lookup list_lookup mbind option_bind]. eauto. }
  eauto.
Qed.

(** X18.  [evaluateFiveCardHand] returns exactly when the array has a
    card and no entry of it is [undefined], whatever the number of cards
    and their values: the reads of the rank table behind the guards on
    [counts] (the key of the group of four, of three, of two, the highest
    and the lowest pair) always find their entry. *)
Theorem evaluateFiveCardHand_returns (cards : list (option Card)) :
  (exists h, evaluateFiveCardHand cards = Some h) <->
  (exists c cs, definedCards cards = Some (c :: cs)).
Proof.
  split.
  - intros [h Hh]. unfold evaluateFiveCardHand in Hh.
    destruct (definedCards cards) as [[|c cs]|]; [discriminate | eauto | discriminate].
  - intros (c & cs & Hdef). exact (evaluateFiveCardHand_total cards c cs Hdef).
Qed.

(** X19.  Two hands that [evaluateFiveCardHand] both ranks Pair, both
    Three of a Kind or both Four of a Kind, with the group of the same
    value, compare as a tie whatever their other cards are: the side
    cards are not among the kickers. *)
Theorem side_cards_do_not_count (cards1 cards2 : list (option Card)) (h1 h2 : HandEval) :
  evaluateFiveCardHand cards1 = Some h1 ->
  evaluateFiveCardHand cards2 = Some h2 ->
  Hand.rank h1 = Hand.rank h2 ->
  Hand.rank h1 = 1 \/ Hand.rank h1 = 3 \/ Hand.rank h1 = 7 ->
  Hand.highCard h1 = Hand.highCard h2 ->
  compareHands h1 h2 = 0.
Proof.
  intros H1 H2 Hr Hcat Hhc.
  destruct (evaluateFiveCardHand_cases cards1 h1 H1)
    as (cs1 & _ & _ & _ & _ & Q1 & _ & _ & T1 & _ & P1).
  destruct (evaluateFiveCardHand_cases cards2 h2 H2)
    as (cs2 & _ & _ & _ & _ & Q2 & _ & _ & T2 & _ & P2).
  assert (K1 : Hand.kickers h1 = [Hand.highCard h1])
    by (destruct Hcat as [E|[E|E]]; [apply P1 | apply T1 | apply Q1]; exact E).
  assert (K2 : Hand.kickers h2 = [Hand.highCard h2])
    by (rewrite Hr in Hcat; destruct Hcat as [E|[E|E]];
        [apply P2 | apply T2 | apply Q2]; exact E).
  unfold compareHands. rewrite Hr, Z.eqb_refl, K1, K2, Hhc. simpl.
  rewrite Z.eqb_refl. reflexivity.
Qed.

(** ** The best five of the cards *)

Lemma combos_sublist {A : Type} (l : list A) :
  forall (k : nat) (s : list A),
    s ∈ combos k l <-> s `sublist_of` l /\ length s = k.
Proof.
  induction l as [|x l IH]; intros k s.
  - destruct k; simpl.
    + rewrite list_elem_of_singleton. split.
      * intros ->. split; [constructor | reflexivity].
      * intros [H _]. apply sublist_nil_r in H. exact H.
    + split; [intros H; inversion H|].
      intros [H L]. apply sublist_nil_r in H. subst s. discriminate.
  - destruct k; simpl.
    + rewrite list_elem_of_singleton. split.
      * intros ->. split; [apply sublist_nil_l | reflexivity].
      * intros [_ L]. destruct s; [reflexivity | discriminate].
    + rewrite elem_of_app, list_elem_of_fmap, sublist_cons_r. split.
      * intros [(s' & -> & Hs') | Hs].
        -- apply IH in Hs'. destruct Hs' as [Hsub Hl].
           split; [right; eauto | simpl; lia].
        -- apply IH in Hs. destruct Hs as [Hsub Hl].
           split; [left; exact Hsub | exact Hl].
      * intros [[Hsub | (s' & -> & Hsub)] Hl].
        -- right. apply IH. split; assumption.
        -- left. exists s'. split; [reflexivity|]. apply IH.
           split; [exact Hsub | simpl in Hl; lia].
Qed.

Lemma compareHands_refl (h : HandEval) : compareHands h h = 0.
Proof. apply compareHands_zero_iff. split; [reflexivity | intros j; reflexivity]. Qed.

(** The loop of [evaluateHand] from [bestHand = b]: every subset is
    evaluated, the result is not after any of them nor after [b], and it
    is [b] or the evaluation of one of the subsets. *)
Lemma bestOf_spec (subsets : list (list (option Card))) :
  forall b r,
    bestOf subsets b = Some r ->
    (forall s, s ∈ subsets ->
       exists e h, evaluateFiveCardHand s = Some e /\ r = Some h /\
                   compareHands h e <= 0) /\
    (forall b0, b = Some b0 -> exists h, r = Some h /\ compareHands h b0 <= 0) /\
    (r = b \/ exists s, s ∈ subsets /\ evaluateFiveCardHand s = r).
Proof.
  induction subsets as [|s rest IH]; intros b r; simpl.
  - intros [= <-]. split; [intros s Hs; inversion Hs|]. split; [|left; reflexivity].
    intros b0 ->. exists b0. split; [reflexivity|]. rewrite compareHands_refl. lia.
  - destruct (evaluateFiveCardHand s) as [e|] eqn:He; [|discriminate].
    cbn [mbind option_bind].
    assert (Hstep : forall b',
              bestOf rest (Some e) = Some r ->
              (forall b0, b' = Some b0 -> compareHands e b0 <= 0) ->
              (forall s0, s0 ∈ s :: rest ->
                 exists e0 h, evaluateFiveCardHand s0 = Some e0 /\ r = Some h /\
                              compareHands h e0 <= 0) /\
              (forall b0, b' = Some b0 ->
                 exists h, r = Some h /\ compareHands h b0 <= 0) /\
              (r = b' \/ exists s0, s0 ∈ s :: rest /\ evaluateFiveCardHand s0 = r)).
    { intros b' Hrun Hb'. destruct (IH (Some e) r Hrun) as (Hall & Hbest & Hfrom).
      destruct (Hbest e eq_refl) as (h & -> & Hhe).
      split; [|split].
      - intros s0 Hs0. apply elem_of_cons in Hs0 as [->|Hs0]; [|exact (Hall s0 Hs0)].
        exists e, h. split; [exact He|]. split; [reflexivity | exact Hhe].
      - intros b0 Hb0. exists h. split; [reflexivity|].
        exact (compareHands_le_trans h e b0 Hhe (Hb' b0 Hb0)).
      - right. destruct Hfrom as [E|(s0 & Hs0 & E)].
        + exists s. split; [apply list_elem_of_here | congruence].
        + exists s0. split; [apply list_elem_of_further; exact Hs0 | exact E]. }
    destruct b as [b0|].
    + destruct (Z.ltb_spec (compareHands e b0) 0) as [Hlt|Hge].
      * intros Hrun. apply (Hstep (Some b0) Hrun). intros b1 [= <-]. lia.
      * intros Hrun. destruct (IH (Some b0) r Hrun) as (Hall & Hbest & Hfrom).
        destruct (Hbest b0 eq_refl) as (h & -> & Hhb).
        split; [|split].
        -- intros s0 Hs0. apply elem_of_cons in Hs0 as [->|Hs0]; [|exact (Hall s0 Hs0)].
           exists e, h. split; [exact He|]. split; [reflexivity|].
           apply (compareHands_le_trans h b0 e Hhb).
           rewrite (compareHands_antisym e b0). lia.
        -- intros b1 [= <-]. exists h. split; [reflexivity | exact Hhb].
        -- destruct Hfrom as [E|(s0 & Hs0 & E)]; [left; exact E|].
           right. exists s0. split; [apply list_elem_of_further; exact Hs0 | exact E].
    + intros Hrun. apply (Hstep None Hrun). intros b0 Hb0. discriminate.
Qed.

Lemma bestOf_total (subsets : list (list (option Card))) :
  (forall s, s ∈ subsets -> exists e, evaluateFiveCardHand s = Some e) ->
  forall b, exists r, bestOf subsets b = Some r.
Proof.
  induction subsets as [|s rest IH]; intros Hall b; simpl; [eauto|].
  destruct (Hall s (list_elem_of_here _ _)) as [e ->]. cbn [mbind option_bind].
  assert (Hrest : forall s0, s0 ∈ rest -> exists e0, evaluateFiveCardHand s0 = Some e0)
    by (intros s0 Hs0; apply Hall; apply list_elem_of_further; exact Hs0).
  destruct b as [b0|]; [destruct (compareHands e b0 <? 0)|]; apply (IH Hrest).
Qed.

Lemma definedCards_all (cards : list (option Card)) :
  (exists cs, definedCards cards = Some cs) <-> None ∉ cards.
Proof.
  induction cards as [|[c|] cards IH]; simpl.
  - split; [intros _ H; inversion H | eauto].
  - rewrite not_elem_of_cons. split.
    + intros [cs Hcs]. split; [discriminate|]. apply IH.
      destruct (definedCards cards) as [cs'|]; [eauto | discriminate].
    + intros [_ Hno]. apply IH in Hno. destruct Hno as [cs' ->]. simpl. eauto.
  - split; [intros [cs Hcs]; discriminate|].
    intros Hno. exfalso. apply Hno. apply list_elem_of_here.
Qed.

Lemma sublist_through {A : Type} (l : list A) (x : A) (n : nat) :
  x ∈ l -> (1 <= n <= length l)%nat ->
  exists s, s `sublist_of` l /\ length s = n /\ x ∈ s.
Proof.
  intros Hx Hn. apply list_elem_of_split in Hx. destruct Hx as (l1 & l2 & ->).
  rewrite length_app in Hn. simpl in Hn.
  exists (take (Nat.min (n - 1) (length l1)) l1
          ++ x :: take (n - 1 - Nat.min (n - 1) (length l1)) l2).
  split; [|split].
  - apply sublist_app; [apply sublist_take|]. apply sublist_skip, sublist_take.
  - rewrite length_app. simpl. rewrite !length_take. lia.
  - apply elem_of_app. right. apply list_elem_of_here.
Qed.

(** Five cards or more, none of them [undefined]: every choice of five
    evaluates. *)
Lemma five_evaluate (cards s : list (option Card)) :
  None ∉ cards -> s `sublist_of` cards -> length s = 5%nat ->
  exists e, evaluateFiveCardHand s = Some e.
Proof.
  intros Hno Hsub Hlen.
  assert (Hs : None ∉ s) by (intros Hin; apply Hno; exact (elem_of_sublist _ _ _ Hin Hsub)).
  apply definedCards_all in Hs. destruct Hs as [cs Hcs].
  pose proof (definedCards_nonempty s cs Hcs) as Hl.
  destruct cs as [|c cs]; [simpl in Hl; lia|].
  exact (evaluateFiveCardHand_total s c cs Hcs).
Qed.

(** X20.  [evaluateHand] on five cards or more: the result is the
    evaluation of five of the cards, taken in the order of the array, and
    no choice of five of them compares as stronger. *)
Theorem evaluateHand_best (cards : list (option Card)) (h : HandEval) :
  (5 <= length cards)%nat ->
  evaluateHand cards = Some h ->
  (exists s, s `sublist_of` cards /\ length s = 5%nat /\
             evaluateFiveCardHand s = Some h) /\
  forall s, s `sublist_of` cards -> length s = 5%nat ->
    exists e, evaluateFiveCardHand s = Some e /\ compareHands h e <= 0.
Proof.
  intros Hlen. unfold evaluateHand.
  rewrite (proj2 (Nat.ltb_ge (length cards) 5) Hlen).
  destruct (bestOf (combos 5 cards) None) as [r|] eqn:Hrun; [|discriminate].
  cbn [mbind option_bind]. intros [= <-].
  destruct (bestOf_spec (combos 5 cards) None r Hrun) as (Hall & _ & Hfrom).
  assert (Hfirst : take 5 cards ∈ combos 5 cards).
  { apply combos_sublist. split; [apply sublist_take|]. rewrite length_take. lia. }
  destruct (Hall _ Hfirst) as (e0 & h & _ & -> & _). simpl. split.
  - destruct Hfrom as [E|(s & Hs & E)]; [discriminate|].
    apply combos_sublist in Hs. destruct Hs as [Hsub Hl]. eauto.
  - intros s Hsub Hl.
    destruct (Hall s (proj2 (combos_sublist cards 5 s) (conj Hsub Hl)))
      as (e & h' & He & [= <-] & Hle).
    eauto.
Qed.

(** X21.  When [evaluateHand] returns.  On fewer than five cards it
    returns the empty High Card whatever the entries are; on five or
    more it returns exactly when no entry is [undefined]. *)
Theorem evaluateHand_returns (cards : list (option Card)) :
  ((length cards < 5)%nat -> evaluateHand cards = Some noHand) /\
  ((5 <= length cards)%nat ->
   ((exists h, evaluateHand cards = Some h) <-> None ∉ cards)).
Proof.
  split.
  - intros Hlt. unfold evaluateHand.
    rewrite (proj2 (Nat.ltb_lt (length cards) 5) Hlt). reflexivity.
  - intros Hlen. unfold evaluateHand.
    rewrite (proj2 (Nat.ltb_ge (length cards) 5) Hlen). split.
    + intros [h Hh] Hin.
      destruct (bestOf (combos 5 cards) None) as [r|] eqn:Hrun; [|discriminate].
      destruct (bestOf_spec (combos 5 cards) None r Hrun) as (Hall & _).
      destruct (sublist_through cards None 5 Hin ltac:(lia)) as (s & Hsub & Hl & Hs).
      destruct (Hall s (proj2 (combos_sublist cards 5 s) (conj Hsub Hl)))
        as (e & _ & He & _).
      assert (Hdef : exists cs, definedCards s = Some cs).
      { unfold evaluateFiveCardHand in He.
        destruct (definedCards s) as [cs|]; [eauto | discriminate]. }
      apply definedCards_all in Hdef. contradiction.
    + intros Hno.
      destruct (bestOf_total (combos 5 cards)) with (b := @None HandEval) as [r ->].
      * intros s Hs. apply combos_sublist in Hs. destruct Hs as [Hsub Hl].
        exact (five_evaluate cards s Hno Hsub Hl).
      * cbn [mbind option_bind]. eauto.
Qed.

Lemma evaluateFiveCardHand_groups_witness :
  exists cs,
    definedCards kingsAndQueens = Some cs /\
    occurrences 13 cs = 2 /\ occurrences 12 cs = 2.
Proof.
  destruct (evaluateFiveCardHand_groups kingsAndQueens (Hand.mk 2 "Two Pair" [13; 12] 13)
              eq_refl)
    as (cs & Hcs & _ & _ & _ & _ & _ & _ & _ & H2 & _).
  destruct (H2 eq_refl) as (lowPair & Hk & _ & Hhi & Hlo).
  injection Hk as <-.
  exists cs. split; [exact Hcs|]. split; [exact Hhi | exact Hlo].
Defined.

Lemma side_cards_do_not_count_witness :
  exists h1 h2,
    evaluateFiveCardHand kingsWithAce = Some h1 /\
    evaluateFiveCardHand kingsWithSeven = Some h2 /\
    Hand.kickers h1 = [13] /\ compareHands h1 h2 = 0.
Proof.
  exists (Hand.mk 1 "Pair" [13] 13), (Hand.mk 1 "Pair" [13] 13).
  split; [reflexivity|]. split; [reflexivity|]. split; [reflexivity|].
  apply (side_cards_do_not_count kingsWithAce kingsWithSeven); try reflexivity.
  left. reflexivity.
Defined.

Lemma evaluateHand_best_witness :
  exists h s,
    evaluateHand sevenCards = Some h /\ Hand.rank h = 1 /\
    s `sublist_of` sevenCards /\ evaluateFiveCardHand s = Some h.
Proof.
  assert (Hrun : exists h, evaluateHand sevenCards = Some h /\ Hand.rank h = 1)
    by (eexists; split; [vm_compute; reflexivity | reflexivity]).
  destruct Hrun as (h & Hrun & Hr).
  destruct (evaluateHand_best sevenCards h) as ((s & Hsub & _ & Hs) & _).
  - simpl. lia.
  - exact Hrun.
  - exists h, s. split; [exact Hrun|]. split; [exact Hr|]. split; [exact Hsub | exact Hs].
Defined.

(** ** Eliminations *)

(** X22.  [checkForEliminations] marks the seats without chips and
    leaves every other field of every seat alone; no mark is ever taken
    back, so the seats in the tournament afterwards are among those
    before; a second pass changes nothing; and the tournament counts as
    complete afterwards exactly when one seat that was not eliminated has
    chips. *)
Theorem checkForEliminations_marks (g : GameState) :
  (forall i p, players g !! i = Some p ->
     players (checkForEliminations g) !! i
     = Some (setEliminated (eliminated p || (chips p =? 0)) p)) /\
  checkForEliminations (checkForEliminations g) = checkForEliminations g /\
  stillIn (players (checkForEliminations g)) ⊆ stillIn (players g) /\
  (checkTournamentComplete (checkForEliminations g) = true <->
   exists w, refs survives (players g) = [w]).
Proof.
  split; [|split; [|split]].
  - intros i p Hp. unfold checkForEliminations. cbn [players setPlayers].
    rewrite list_lookup_fmap, Hp. simpl. f_equal.
    destruct p as [i0 n c h b f a po co ha e]. simpl.
    destruct (c =? 0), e; reflexivity.
  - unfold checkForEliminations. cbn [players setPlayers].
    unfold setPlayers. simpl. f_equal. rewrite <- list_fmap_compose.
    apply list_fmap_ext. intros i p _. simpl.
    destruct ((chips p =? 0) && negb (eliminated p)) eqn:E; [|rewrite E; reflexivity].
    simpl. rewrite andb_false_r. reflexivity.
  - rewrite checkForEliminations_stillIn. intros i Hi.
    apply elem_of_refs in Hi. destruct Hi as (p & Hp & Hs).
    apply elem_of_refs. exists p. split; [exact Hp|].
    unfold survives in Hs. apply andb_true_iff in Hs. exact (proj1 Hs).
  - unfold checkTournamentComplete.
    rewrite (filter_length_refs (fun p => negb (eliminated p))).
    change (refs (fun p => negb (eliminated p)) (players (checkForEliminations g)))
      with (stillIn (players (checkForEliminations g))).
    rewrite checkForEliminations_stillIn, Nat.eqb_eq.
    destruct (refs survives (players g)) as [|w [|w' l]]; simpl; split;
      try discriminate; try (intros [w0 H]; discriminate); eauto.
Qed.

(** ** The names and the first deal *)

Lemma generatePlayerNames_lookup (userPosition : nat) (customName : string) :
  (userPosition <= 5)%nat ->
  generatePlayerNames userPosition customName !! userPosition = Some customName /\
  forall e, (e < userPosition)%nat ->
    generatePlayerNames userPosition customName !! e = genericNames !! e.
Proof.
  intros Hle. unfold generatePlayerNames.
  assert (Hl : length (take userPosition genericNames) = userPosition)
    by (rewrite length_take; simpl; lia).
  split.
  - rewrite lookup_app_r by lia. rewrite Hl, Nat.sub_diag. reflexivity.
  - intros e He. rewrite lookup_app_l by lia. apply lookup_take_lt. exact He.
Qed.

(** X23.  [generatePlayerNames]: six names, the typed one at the drawn
    position and the generic ones around it in their order.  A typed name
    that is none of the generic names makes the six distinct, and the
    look-up of a seat by name, which is how the engine finds the human
    seat, gives the drawn position.  A typed name that is also a generic
    name standing before the drawn position makes that look-up give the
    generic seat instead. *)
Theorem generatePlayerNames_seat (userPosition : nat) (customName : string) :
  (userPosition <= 5)%nat ->
  length (generatePlayerNames userPosition customName) = 6%nat /\
  generatePlayerNames userPosition customName !! userPosition = Some customName /\
  delete userPosition (generatePlayerNames userPosition customName) = genericNames /\
  (customName ∉ genericNames ->
   NoDup (generatePlayerNames userPosition customName) /\
   findIndex (fun n => String.eqb n customName)
             (generatePlayerNames userPosition customName) = Some userPosition) /\
  (forall k, genericNames !! k = Some customName -> (k < userPosition)%nat ->
     findIndex (fun n => String.eqb n customName)
               (generatePlayerNames userPosition customName) = Some k).
Proof.
  intros Hle.
  destruct (generatePlayerNames_lookup userPosition customName Hle) as [Hat Hbefore].
  assert (Hnd : NoDup genericNames).
  { unfold genericNames. repeat (apply NoDup_cons; split);
      [..|apply NoDup_nil_2];
      rewrite ?not_elem_of_cons; repeat split; try discriminate; apply not_elem_of_nil. }
  split; [|split; [exact Hat|split; [|split]]].
  - unfold generatePlayerNames. rewrite length_app. simpl.
    rewrite length_take, length_drop. simpl. lia.
  - unfold generatePlayerNames.
    do 6 (destruct userPosition as [|userPosition]; [reflexivity|]). lia.
  - intros Hno. split.
    + unfold generatePlayerNames.
      assert (Hperm : take userPosition genericNames
                        ++ customName :: drop userPosition genericNames
                      ≡ₚ customName :: genericNames)
        by (rewrite <- Permutation_middle, take_drop; reflexivity).
      rewrite Hperm. apply NoDup_cons. split; assumption.
    + apply (findIndex_first (fun n => String.eqb n customName) _ userPosition customName
               Hat (String.eqb_refl _)).
      intros e y He Hy. rewrite (Hbefore e He) in Hy.
      apply String.eqb_neq. intros ->. apply Hno.
      apply list_elem_of_lookup. eauto.
  - intros k Hk Hlt.
    apply (findIndex_first (fun n => String.eqb n customName) _ k customName);
      [|apply String.eqb_refl|].
    + rewrite (Hbefore k Hlt). exact Hk.
    + intros e y He Hy. rewrite (Hbefore e ltac:(lia)) in Hy.
      apply String.eqb_neq. intros ->.
      pose proof (NoDup_lookup _ _ _ _ Hnd Hy Hk). lia.
Qed.

Lemma generatePlayerNames_seat_witness :
  generatePlayerNames 2 "Hero" = ["Player 1"; "Player 2"; "Hero"; "Player 3";
                                  "Player 4"; "Player 5"]%string /\
  findIndex (fun n => String.eqb n "Hero") (generatePlayerNames 2 "Hero") = Some 2%nat /\
  findIndex (fun n => String.eqb n "Player 1") (generatePlayerNames 2 "Player 1")
  = Some 0%nat.
Proof.
  split; [reflexivity|]. split.
  - refine (proj2 (proj1 (proj2 (proj2 (proj2
              (generatePlayerNames_seat 2 "Hero" _)))) _)).
    + lia.
    + unfold genericNames. rewrite !not_elem_of_cons.
      repeat split; try discriminate. apply not_elem_of_nil.
  - refine (proj2 (proj2 (proj2 (proj2
              (generatePlayerNames_seat 2 "Player 1" _)))) 0%nat eq_refl _); lia.
Defined.


Lemma refsFrom_all (f : Player -> bool) (ps : list Player) :
  Forall (fun p => f p = true) ps ->
  forall k, length (refsFrom f k ps) = length ps.
Proof.
  induction 1 as [|p ps Hp _ IH]; intros k; simpl; [reflexivity|].
  rewrite Hp. simpl. rewrite IH. reflexivity.
Qed.

Lemma nearestAfter_all (f : Player -> bool) (ps : list Player) (from i : nat) :
  Forall (fun p => f p = true) ps ->
  nearestAfter f ps from i -> i = ((from + 1) mod length ps)%nat.
Proof.
  intros Hall (a & Ha & -> & _ & Hbefore). unfold seatAfter in *.
  destruct a as [|a]; [rewrite Nat.add_0_r; reflexivity|]. exfalso.
  assert (Hpos : (0 < length ps)%nat) by lia.
  destruct (lookup_lt_is_Some_2 ps ((from + 1 + 0) mod length ps)%nat) as [p Hp];
    [apply Nat.mod_upper_bound; lia|].
  pose proof (Hbefore 0%nat p ltac:(lia) Hp) as Hno.
  rewrite Forall_forall in Hall.
  rewrite (Hall p) in Hno; [discriminate|]. apply list_elem_of_lookup. eauto.
Qed.

Lemma stacksOf_all (ps : list Player) (c : Z) :
  Forall (fun p => chips p = c) ps -> stacksOf ps = c * Z.of_nat (length ps).
Proof.
  induction 1 as [|p ps Hp _ IH]; [unfold stacksOf; simpl; lia|].
  rewrite stacksOf_cons, IH, Hp. cbn [length]. lia.
Qed.

(** X24.  [startNewGame] for two names or more, which is
    [initializeGame] followed by [dealCards]: the game starts before the
    flop at hand 1 with the dealer at seat 0; seat 1 has posted 10 and
    the seat after it 20 from stacks of 1000, going round the table, and
    the one after that is to act; seat [i] has the names' entry [i] and
    the deck entries [2i] and [2i + 1] of the shuffled deck; the chips in
    front of the seats are 1000 for each name. *)
Theorem startNewGame_table (stamp : string) (draw : nat -> nat) (names : list string)
        (mode_ : Mode) :
  (2 <= length names)%nat ->
  exists g',
    startNewGame stamp draw names mode_ = Some g' /\
    phase g' = preflop /\ handNumber g' = 1 /\ dealerIndex g' = 0%nat /\
    activePlayerIndex g' = (3 mod length names)%nat /\
    currentBet g' = 20 /\ pot g' = 0 /\ bettingComplete g' = false /\
    deck g' = createDeck draw /\ deckIndex g' = (2 * length names)%nat /\
    seatChips (players g') = 1000 * Z.of_nat (length names) /\
    forall i n, names !! i = Some n ->
      exists q,
        players g' !! i = Some q /\ name q = n /\
        hand q = holeCards (createDeck draw) 0 i /\
        bet q = (if (i =? 1 mod length names)%nat then 10
                 else if (i =? 2 mod length names)%nat then 20 else 0) /\
        chips q = 1000 - bet q /\
        hasActed q = (i =? 2 mod length names)%nat /\
        allIn q = false /\ folded q = false /\ eliminated q = false.
Proof.
  intros Hn. unfold startNewGame.
  set (g0 := initializeGame stamp draw names mode_).
  assert (Hlook : forall i, players g0 !! i
            = (fun n => Player.mk (String.append "player_" (pretty i)) n 1000 [] 0
                                  false false i true false false) <$> names !! i).
  { intros i. unfold g0, initializeGame. cbn [players]. apply list_lookup_imap. }
  assert (Hlen : length (players g0) = length names)
    by (unfold g0, initializeGame; cbn [players]; apply length_imap).
  assert (Hall : Forall (fun p => notEliminated p = true) (players g0)).
  { apply Forall_lookup_2. intros i p Hp. rewrite Hlook in Hp.
    destruct (names !! i); [|discriminate]. injection Hp as <-. reflexivity. }
  assert (Hstacks : Forall (fun p => chips p = 1000) (players g0)).
  { apply Forall_lookup_2. intros i p Hp. rewrite Hlook in Hp.
    destruct (names !! i); [|discriminate]. injection Hp as <-. reflexivity. }
  assert (Hstill : length (stillIn (players g0)) = length names)
    by (unfold stillIn, refs; rewrite (refsFrom_all _ _ Hall); exact Hlen).
  assert (Hlen2 : (2 <= length (stillIn (players g0)))%nat) by lia.
  assert (F1 : deckIndex g0 = 0%nat) by reflexivity.
  assert (F2 : deck g0 = createDeck draw) by reflexivity.
  assert (F3 : dealerIndex g0 = 0%nat) by reflexivity.
  assert (F4 : smallBlind g0 = 10) by reflexivity.
  assert (F5 : bigBlind g0 = 20) by reflexivity.
  assert (F6 : handNumber g0 = 1) by reflexivity.
  clearbody g0.
  destruct (dealCards_slots g0 Hlen2)
    as (g' & sb & bb & pS & pB & Hrun & Hsb & Hbb & Ht & Hne & HpS & HpB & HS & HB
        & Hothers & Hcur & Hpot & Hph & Hbc & Hdi & Hchips & Hseat).
  destruct (dealCards_table g0 g' Hrun) as (Hdk & Hdx & _ & _ & _ & Hhn & _).
  assert (Hdealer : exists d, stillIn (players g0) !! d = Some (dealerIndex g0)).
  { apply list_elem_of_lookup. apply elem_of_refs. rewrite F3.
    destruct (lookup_lt_is_Some_2 (players g0) 0%nat) as [p Hp]; [lia|].
    exists p. split; [exact Hp|]. rewrite Forall_forall in Hall. apply Hall.
    apply list_elem_of_lookup. eauto. }
  destruct Hdealer as [d Hd].
  destruct (dealer_slots g0 d sb bb _ Hd Hsb Hbb Ht) as (N1 & N2 & N3).
  apply (nearestAfter_all _ _ _ _ Hall) in N1, N2, N3.
  rewrite Hlen in N1, N2, N3. rewrite F3 in N1.
  assert (Esb : sb = (1 mod length names)%nat) by exact N1.
  assert (Ebb : bb = (2 mod length names)%nat).
  { rewrite N2, Esb, Nat.Div0.add_mod_idemp_l. reflexivity. }
  assert (Eturn : activePlayerIndex g' = (3 mod length names)%nat).
  { rewrite N3, Ebb, Nat.Div0.add_mod_idemp_l. reflexivity. }
  assert (HcS : chips pS = 1000).
  { rewrite Forall_forall in Hstacks. apply Hstacks. apply list_elem_of_lookup. eauto. }
  assert (HcB : chips pB = 1000).
  { rewrite Forall_forall in Hstacks. apply Hstacks. apply list_elem_of_lookup. eauto. }
  exists g'. split; [exact Hrun|]. split; [exact Hph|]. split; [congruence|].
  split; [congruence|]. split; [exact Eturn|].
  split; [rewrite Hcur, HcB, F5; reflexivity|]. split; [exact Hpot|]. split; [exact Hbc|].
  split; [congruence|]. split; [rewrite Hdx, Hstill, F1; lia|].
  split; [rewrite Hchips; rewrite (stacksOf_all _ 1000 Hstacks), Hlen; reflexivity|].
  intros i n Hi.
  assert (Hp : players g0 !! i
               = Some (Player.mk (String.append "player_" (pretty i)) n 1000 [] 0
                                 false false i true false false))
    by (rewrite Hlook, Hi; reflexivity).
  destruct (Hseat i _ Hp) as (q & Hq & _ & Hname & Hel & Hfo & Hhand).
  cbn [eliminated name] in Hname, Hel, Hfo, Hhand.
  assert (Htake : length (stillIn (take i (players g0))) = i).
  { unfold stillIn, refs.
    rewrite (refsFrom_all notEliminated (take i (players g0))).
    - rewrite length_take. apply lookup_lt_Some in Hp. lia.
    - apply Forall_take. exact Hall. }
  rewrite Htake, F1, F2 in Hhand.
  exists q. split; [exact Hq|]. split; [exact Hname|]. split; [exact Hhand|].
  rewrite <- Esb, <- Ebb.
  destruct (Nat.eqb_spec i sb) as [Eis|Nis].
  - subst i. destruct HS as (q' & Hq' & Hb & Hc & Ha & Hact & _).
    rewrite Hq in Hq'. injection Hq' as <-.
    rewrite HcS, F4 in Hb, Hc, Ha.
    destruct (Nat.eqb_spec sb bb); [contradiction|].
    rewrite Hb, Hc, Ha, Hact. repeat split; assumption.
  - destruct (Nat.eqb_spec i bb) as [Eib|Nib].
    + subst i. destruct HB as (q' & Hq' & Hb & Hc & Ha & Hact & _).
      rewrite Hq in Hq'. injection Hq' as <-.
      rewrite HcB, F5 in Hb, Hc, Ha.
      rewrite Hb, Hc, Ha, Hact. repeat split; assumption.
    + destruct (Hothers i _ Nis Nib Hp) as (q' & Hq' & Hc & Hb & Ha & Hact).
      rewrite Hq in Hq'. injection Hq' as <-. cbn [chips] in Hc.
      rewrite Hb, Hc, Ha, Hact. repeat split; assumption.
Qed.

Lemma startNewGame_table_witness :
  exists g',
    startNewGame "0" (fun i => i) (generatePlayerNames 2 "Hero") standard = Some g' /\
    activePlayerIndex g' = 3%nat /\ currentBet g' = 20 /\
    seatChips (players g') = 6000.
Proof.
  destruct (startNewGame_table "0" (fun i => i) (generatePlayerNames 2 "Hero") standard)
    as (g' & Hrun & _ & _ & _ & Ht & Hc & _ & _ & _ & _ & Hs & _).
  - simpl. lia.
  - exists g'. split; [exact Hrun|]. split; [exact Ht|]. split; [exact Hc | exact Hs].
Defined.

(** ** The auto-play effect *)

Lemma handOver_closed (g : GameState) : handOver g = false -> bettingComplete g = false.
Proof.
  unfold handOver. intros H.
  apply orb_false_iff in H as [H _]. apply orb_false_iff in H as [_ H]. exact H.
Qed.

(** X25.  The effect never arranges a phase advance: its branch with
    [setTimeout(() => advancePhase(), 1000)] asks for a closed round, and
    a closed round has already made the effect return.  So with the round
    closed nothing is arranged at all.  When the effect arranges the
    policy move, the updater of the timer, run on that same state, is
    [executeAIAction]: its own guards do not stop it. *)
Theorem autoPlay_never_advances
        (policy : Player -> GameState -> option Decision) (playerName : string)
        (g : GameState) :
  autoPlay playerName g <> Some advanceScheduled /\
  (bettingComplete g = true -> autoPlay playerName g = Some nothingScheduled) /\
  (autoPlay playerName g = Some policyScheduled ->
   policyTick policy playerName g = executeAIAction policy g).
Proof.
  unfold autoPlay, policyTick. split; [|split].
  - destruct (handOver g) eqn:Hover; [discriminate|].
    rewrite (handOver_closed g Hover). simpl.
    destruct (players g !! activePlayerIndex g) as [p|]; [|discriminate]. simpl.
    destruct (_ && negb (hasActed p)); discriminate.
  - intros Hc. unfold handOver. rewrite Hc, !orb_true_r. reflexivity.
  - destruct (handOver g) eqn:Hover; [discriminate|].
    rewrite (handOver_closed g Hover). simpl.
    destruct (players g !! activePlayerIndex g) as [p|]; [|discriminate]. simpl.
    destruct (String.eqb (name p) playerName), (folded p), (allIn p), (eliminated p),
             (hasActed p); simpl; try discriminate. reflexivity.
Qed.

(** X26.  A state nobody can leave without the seat to act.  With the
    round open before the showdown and no seat able to act (each is
    folded, all-in or eliminated), the effect arranges nothing, the
    updater of a timer still pending changes nothing, [advancePhase]
    refuses, and [handlePlayerAction] refuses every action of a user who
    is not the seat to act. *)
Theorem run_out_deadlock
        (policy : Player -> GameState -> option Decision) (playerName : string)
        (g : GameState) (p : Player) :
  bettingComplete g = false -> phase g <> showdown ->
  Forall (fun q => canAct q = false) (players g) ->
  players g !! activePlayerIndex g = Some p ->
  name p <> playerName ->
  autoPlay playerName g = Some nothingScheduled /\
  policyTick policy playerName g = Some g /\
  advancePhase g = Some g /\
  forall a amt, handlePlayerAction playerName a amt g = Some g.
Proof.
  intros Hopen Hph Hnone Hp Hname.
  assert (Hcan : canAct p = false).
  { rewrite Forall_forall in Hnone. apply Hnone. apply list_elem_of_lookup. eauto. }
  unfold canAct in Hcan.
  split; [|split; [|split]].
  - unfold autoPlay. destruct (handOver g); [reflexivity|].
    rewrite Hopen, Hp. simpl.
    destruct (folded p), (allIn p), (eliminated p); simpl in Hcan; try discriminate;
      rewrite ?andb_false_r; reflexivity.
  - unfold policyTick. destruct (handOver g); [reflexivity|].
    rewrite Hp. simpl.
    destruct (folded p), (allIn p), (eliminated p); simpl in Hcan; try discriminate;
      rewrite ?orb_true_r; reflexivity.
  - unfold advancePhase. rewrite Hopen. simpl.
    rewrite bool_decide_eq_false_2 by exact Hph. reflexivity.
  - intros a amt. unfold handlePlayerAction.
    destruct (String.eqb playerName ""); [reflexivity|].
    destruct (findIndex _ (players g)) as [i|] eqn:Hi; [|reflexivity].
    destruct (Nat.eqb_spec i (activePlayerIndex g)) as [->|N]; [|reflexivity].
    exfalso. apply findIndex_lookup in Hi. destruct Hi as (x & Hx & Hnx).
    rewrite Hp in Hx. injection Hx as <-. apply String.eqb_eq in Hnx. contradiction.
Qed.

Lemma run_out_deadlock_witness :
  exists g,
    advancePhase allInHeadsUp = Some g /\ phase g = flop /\
    autoPlay "Hero" g = Some nothingScheduled /\
    advancePhase g = Some g /\
    handlePlayerAction "Hero" call None g = Some g.
Proof.
  assert (Hrun : exists g, advancePhase allInHeadsUp = Some g /\ phase g = flop /\
                   bettingComplete g = false /\
                   Forall (fun q => canAct q = false) (players g) /\
                   exists p, players g !! activePlayerIndex g = Some p /\
                             name p = "Player 1"%string).
  { eexists. split; [vm_compute; reflexivity|]. split; [reflexivity|].
    split; [reflexivity|]. split; [repeat constructor|].
    eexists. split; reflexivity. }
  destruct Hrun as (g & Hrun & Hflop & Hopen & Hnone & p & Hp & Hname).
  destruct (run_out_deadlock alwaysCall "Hero" g p Hopen) as (Ha & _ & Hadv & Hact).
  - rewrite Hflop. discriminate.
  - exact Hnone.
  - exact Hp.
  - rewrite Hname. discriminate.
  - exists g. split; [exact Hrun|]. split; [exact Hflop|]. split; [exact Ha|].
    split; [exact Hadv | exact (Hact call None)].
Defined.

(** ** Collecting the bets *)

Lemma dealPhase_flags (g dealt : GameState) :
  phase g <> river ->
  dealPhase g (collectBets g) = Some dealt ->
  currentBet dealt = 0 /\ bettingComplete dealt = false /\ winner dealt = winner g /\
  pot dealt = pot g + totalBetsOf (players g).
Proof.
  intros Hr. unfold dealPhase.
  destruct (phase g); try contradiction; intros [= <-]; repeat split.
Qed.

(** X27.  An accepted phase advance out of a phase other than the river
    moves every live bet into the pot and leaves the seats as they were
    but for [bet], now 0, and [hasActed], now false: stacks, hands and
    flags stay.  The bet to match is 0, the round is open again and no
    winner is touched.  Before the showdown a second advance right after
    it is therefore refused. *)
Theorem advancePhase_collects (g g' : GameState) :
  bettingComplete g = true -> phase g <> river -> advancePhase g = Some g' ->
  pot g' = pot g + totalBetsOf (players g) /\
  players g' = map (fun p => setHasActed false (setBet 0 p)) (players g) /\
  currentBet g' = 0 /\ bettingComplete g' = false /\
  winner g' = winner g /\ dealerIndex g' = dealerIndex g /\
  (phase g' <> showdown -> advancePhase g' = Some g').
Proof.
  intros Hc Hr Hrun.
  destruct (advancePhase_accepted g g' Hc Hrun) as (dealt & Hd & Hcase).
  destruct (dealPhase_flags g dealt Hr Hd) as (Hcb & Hbc & Hw & Hpot).
  destruct (dealPhase_seats g dealt Hr Hd) as (Hps & Hdi).
  assert (Hsame : players g' = players dealt /\ pot g' = pot dealt /\
                  currentBet g' = currentBet dealt /\
                  bettingComplete g' = bettingComplete dealt /\
                  winner g' = winner dealt /\ dealerIndex g' = dealerIndex dealt).
  { destruct Hcase as [[_ ->]|(_ & first & _ & Hloop)]; [repeat split|].
    apply settleLoop_only_turn in Hloop. rewrite Hloop. repeat split. }
  destruct Hsame as (E1 & E2 & E3 & E4 & E5 & E6).
  split; [congruence|]. split; [congruence|]. split; [congruence|].
  split; [congruence|]. split; [congruence|]. split; [congruence|].
  intros Hph. unfold advancePhase.
  rewrite E4, Hbc. simpl. rewrite bool_decide_eq_false_2 by exact Hph. reflexivity.
Qed.

Lemma advancePhase_collects_witness :
  exists g',
    advancePhase closedPreflop = Some g' /\ pot g' = 0 + 60 /\
    advancePhase g' = Some g'.
Proof.
  assert (Hrun : exists g', advancePhase closedPreflop = Some g' /\ phase g' = flop)
    by (eexists; split; [vm_compute; reflexivity | reflexivity]).
  destruct Hrun as (g' & Hrun & Hflop).
  destruct (advancePhase_collects closedPreflop g' eq_refl) as (Hpot & _ & _ & _ & _ & _ & Hagain).
  - discriminate.
  - exact Hrun.
  - exists g'. split; [exact Hrun|]. split; [exact Hpot|].
    apply Hagain. rewrite Hflop. discriminate.
Defined.

(** ** The early win *)

Lemma filter_length_le (f h : Player -> bool) (ps : list Player) :
  (forall p, f p = true -> h p = true) ->
  (length (List.filter f ps) <= length (List.filter h ps))%nat.
Proof.
  intros Hfh. induction ps as [|p ps IH]; simpl; [lia|].
  destruct (f p) eqn:Hf.
  - rewrite (Hfh p Hf). simpl. lia.
  - destruct (h p); simpl; lia.
Qed.

Lemma canAct_inHand (p : Player) : canAct p = true -> inHand p = true.
Proof.
  unfold canAct, inHand. destruct (folded p), (allIn p), (eliminated p); simpl; congruence.
Qed.

(** X28.  Whenever the action a policy seat takes through
    [executeAIAction] leaves exactly one seat neither folded nor
    eliminated, the round counts as closed and that seat is paid at once:
    its stack grows by the pot and every live bet, every bet is cleared
    and no other stack changes; the seat is recorded as the winner, the
    phase is the showdown, the bet to match is 0, and the turn is not
    passed.  The pot field is not emptied: it shows the amount paid. *)
Theorem early_win_contract
        (policy : Player -> GameState -> option Decision) (g s : GameState) (w : nat) :
  aiActed policy g = Some s ->
  refs inHand (players s) = [w] ->
  exists g' p p',
    executeAIAction policy g = Some g' /\
    players s !! w = Some p /\ players g' !! w = Some p' /\
    chips p' = chips p + (pot s + totalBetsOf (players s)) /\
    (forall j q, j <> w -> players s !! j = Some q ->
       exists q', players g' !! j = Some q' /\ chips q' = chips q) /\
    totalBetsOf (players g') = 0 /\
    pot g' = pot s + totalBetsOf (players s) /\
    winner g' = Some w /\ phase g' = showdown /\
    bettingComplete g' = true /\ currentBet g' = 0 /\
    activePlayerIndex g' = activePlayerIndex g.
Proof.
  intros Hact Hone.
  destruct (aiActed_inv policy g s Hact) as (pa & d & n & _ & _ & Hsw & Hs).
  destruct (aiSwitch_tableKept d _ g n Hsw) as [_ Hturn].
  assert (Hps : players s = players n) by (rewrite Hs; reflexivity).
  assert (Hclosed : bettingComplete s = true).
  { rewrite Hs. cbn [bettingComplete setBettingComplete]. unfold isBettingComplete.
    pose proof (filter_length_le canAct inHand (players n) canAct_inHand) as Hle.
    rewrite (filter_length_refs inHand) in Hle.
    rewrite Hps in Hone. rewrite Hone in Hle. cbn [length] in Hle.
    cbv zeta.
    destruct (Nat.leb_spec (length (List.filter canAct (players n))) 1);
      [reflexivity | lia]. }
  assert (Hearly : earlyWinner s = Some w)
    by (unfold earlyWinner; rewrite Hclosed, Hone; reflexivity).
  destruct (earlyWinner_seat s w Hearly) as (_ & _ & p & Hp & _).
  destruct (payEarly_effect w s p Hp) as (_ & Hbets & Hpot & Hph & Hw & (p' & Hp' & Hc) & Hrest).
  exists (payEarly w s), p, p'.
  split; [rewrite (executeAIAction_staged policy g s Hact); unfold aiFinish;
          rewrite Hearly; reflexivity|].
  split; [exact Hp|]. split; [exact Hp'|]. split; [exact Hc|]. split; [exact Hrest|].
  split; [exact Hbets|]. split; [exact Hpot|]. split; [exact Hw|]. split; [exact Hph|].
  split; [reflexivity|]. split; [reflexivity|].
  rewrite <- Hturn, Hs. reflexivity.
Qed.

Lemma early_win_contract_witness :
  exists g' p',
    executeAIAction alwaysFold headsUpLeft = Some g' /\
    players g' !! 2%nat = Some p' /\ chips p' = 800 + (0 + 270) /\
    winner g' = Some 2%nat.
Proof.
  assert (Hact : exists s, aiActed alwaysFold headsUpLeft = Some s /\
                           refs inHand (players s) = [2%nat] /\
                           pot s + totalBetsOf (players s) = 0 + 270 /\
                           players s !! 2%nat
                           = Some (seatOf "Player 2" 2 800 200 false true []))
    by (eexists; split; [vm_compute; reflexivity|]; repeat split).
  destruct Hact as (s & Hact & Hone & Hpaid & Hseat).
  destruct (early_win_contract alwaysFold headsUpLeft s 2 Hact Hone)
    as (g' & p & p' & Hrun & Hp & Hp' & Hc & _ & _ & _ & Hw & _).
  exists g', p'. split; [exact Hrun|]. split; [exact Hp'|]. split; [|exact Hw].
  rewrite Hseat in Hp. injection Hp as <-. rewrite Hc, Hpaid. reflexivity.
Defined.

(** ** Two Pair *)

Lemma maxOf_ge (l : list Z) (m x : Z) : maxOf l = Some m -> x ∈ l -> x <= m.
Proof.
  destruct l as [|y r]; [discriminate|]. simpl. intros [= <-].
  revert y. induction r as [|z r IH]; intros y Hx; simpl.
  - apply list_elem_of_singleton in Hx. lia.
  - pose proof (fold_left_max_ge r (Z.max y z)) as Hge.
    apply elem_of_cons in Hx as [E|Hx]; [lia|].
    apply elem_of_cons in Hx as [E|Hx]; [lia|].
    apply IH. apply list_elem_of_further. exact Hx.
Qed.

Lemma minOf_le (l : list Z) (m x : Z) : minOf l = Some m -> x ∈ l -> m <= x.
Proof.
  destruct l as [|y r]; [discriminate|]. simpl. intros [= <-].
  revert y. induction r as [|z r IH]; intros y Hx; simpl.
  - apply list_elem_of_singleton in Hx. lia.
  - pose proof (fold_left_min_le r (Z.min y z)) as Hle.
    apply elem_of_cons in Hx as [E|Hx]; [lia|].
    apply elem_of_cons in Hx as [E|Hx]; [lia|].
    apply IH. apply list_elem_of_further. exact Hx.
Qed.

(** Two entries of the sorted counts that are 2 come from two keys of
    the rank table. *)
Lemma two_keys_with_count (rc : RankCounts) (n : Z) :
  keysAscend rc ->
  (2 <= length (List.filter (fun c => (c =? n)%Z) (map snd rc)))%nat ->
  exists k1 k2, k1 < k2 /\ (k1, n) ∈ rc /\ (k2, n) ∈ rc.
Proof.
  induction rc as [|[k c] rc IH]; intros Ha Hlen; [simpl in Hlen; lia|].
  destruct Ha as [Hk Hrest]. simpl in Hlen.
  destruct (Z.eqb_spec c n) as [->|N].
  - simpl in Hlen.
    destruct (List.filter (fun c => (c =? n)%Z) (map snd rc)) as [|c2 l] eqn:E;
      [simpl in Hlen; lia|].
    assert (Hin : In c2 (List.filter (fun c => (c =? n)%Z) (map snd rc)))
      by (rewrite E; left; reflexivity).
    apply filter_In in Hin. destruct Hin as [Hin Hc2]. apply Z.eqb_eq in Hc2. subst c2.
    apply list_elem_of_In, list_elem_of_fmap in Hin.
    destruct Hin as ([k2 c2] & E2 & Hin). simpl in E2. subst c2.
    exists k, k2. split; [|split].
    + rewrite Forall_forall in Hk. exact (Hk _ Hin).
    + apply list_elem_of_here.
    + apply list_elem_of_further. exact Hin.
  - destruct (IH Hrest Hlen) as (k1 & k2 & Hlt & H1 & H2).
    exists k1, k2. split; [exact Hlt|].
    split; apply list_elem_of_further; assumption.
Qed.

Lemma filter_length_perm (f : Z -> bool) (l l' : list Z) :
  l ≡ₚ l' -> length (List.filter f l) = length (List.filter f l').
Proof.
  induction 1 as [|x l l' _ IH|x y l|l l' l'' _ IH1 _ IH2]; simpl.
  - reflexivity.
  - destruct (f x); simpl; rewrite IH; reflexivity.
  - destruct (f x), (f y); reflexivity.
  - congruence.
Qed.

(** A Two Pair result, in terms of the cards: the kickers are two
    different values, the higher first, each held by exactly two of the
    cards. *)
Lemma two_pair_values (cards : list (option Card)) (e : HandEval) :
  evaluateFiveCardHand cards = Some e -> Hand.rank e = 2 ->
  exists cs highPair lowPair,
    definedCards cards = Some cs /\
    Hand.kickers e = [highPair; lowPair] /\ lowPair < highPair /\
    Hand.highCard e = highPair /\ Hand.name e = "Two Pair"%string /\
    occurrences highPair cs = 2 /\ occurrences lowPair cs = 2.
Proof.
  unfold evaluateFiveCardHand.
  destruct (definedCards cards) as [cs|]; [|discriminate].
  cbn [mbind option_bind]. cbv zeta.
  set (sorted := jsSort (fun a b => Card.value b - Card.value a) cs).
  change (fold_left (fun m card => bump (Card.value card) m) sorted [])
    with (countRanks sorted []).
  set (rc := countRanks sorted []).
  set (counts := jsSort (fun a b => b - a) (map snd rc)).
  set (pairs := jsSort (fun a b => b - a) (map fst (filter (fun e => 2 <= snd e) rc))).
  destruct (countRanks_counts sorted [] I (Forall_nil_2 _)) as (Ha & _ & _).
  fold rc in Ha.
  assert (Hocc : forall k n, (k, n) ∈ rc -> n = occurrences k cs).
  { intros k n Hin. apply countRanks_entry in Hin. destruct Hin as [-> _].
    apply occurrences_perm. apply jsSort_perm. }
  destruct (sorted !! 0%nat) as [c0|]; [|discriminate].
  cbn [mbind option_bind].
  destruct (_ && (length (remove_dups (map Card.suit sorted)) =? 1)%nat).
  { destruct (_ =? 14); intros [= <-]; discriminate. }
  destruct (countIs counts 0 4).
  { destruct (findKey 4 rc); [|discriminate]. intros [= <-]. discriminate. }
  destruct (countIs counts 0 3 && countIs counts 1 2).
  { destruct (findKey 3 rc); [|discriminate]. cbn [mbind option_bind].
    destruct (findKey 2 rc); [|discriminate]. intros [= <-]. discriminate. }
  destruct (length (remove_dups (map Card.suit sorted)) =? 1)%nat.
  { intros [= <-]. discriminate. }
  match goal with
  | |- context [if ?b then Some (Hand.mk 4 _ _ _) else _] => destruct b
  end.
  { intros [= <-]. discriminate. }
  destruct (countIs counts 0 3).
  { destruct (findKey 3 rc); [|discriminate]. intros [= <-]. discriminate. }
  destruct (countIs counts 0 2 && countIs counts 1 2) eqn:H22.
  - apply andb_true_iff in H22. destruct H22 as [H0 H1].
    destruct (counts_head rc 2 H0) as [_ Hmax].
    assert (Htwo : exists k1 k2, k1 < k2 /\ (k1, 2) ∈ rc /\ (k2, 2) ∈ rc).
    { apply (two_keys_with_count rc 2 Ha).
      rewrite <- (filter_length_perm _ counts (map snd rc))
        by apply (jsSort_perm (fun a b => b - a)).
      unfold countIs in H0, H1.
      destruct counts as [|x0 [|x1 r]]; try discriminate.
      simpl in H0, H1. simpl. rewrite H0, H1. simpl. lia. }
    destruct Htwo as (k1 & k2 & Hlt & Hk1 & Hk2).
    assert (Hin : forall k, (k, 2) ∈ rc -> k ∈ pairs).
    { intros k Hk. unfold pairs. rewrite (jsSort_perm (fun a b => b - a)).
      apply list_elem_of_fmap. exists (k, 2). split; [reflexivity|].
      apply list_elem_of_filter. split; [simpl; lia | exact Hk]. }
    assert (Hpair : forall p, p ∈ pairs -> occurrences p cs = 2).
    { intros p Hp. destruct (pairs_entry rc p Hp) as (c & Hc & Hge).
      pose proof (Hmax p c Hc) as Hle. rewrite <- (Hocc p c Hc). lia. }
    destruct (maxOf pairs) as [hi|] eqn:Hhi; [|discriminate].
    cbn [mbind option_bind].
    destruct (minOf pairs) as [lo|] eqn:Hlo; [|discriminate].
    cbn [mbind option_bind]. intros [= <-] _.
    exists cs, hi, lo. split; [reflexivity|]. split; [reflexivity|].
    split.
    { pose proof (minOf_le pairs lo k1 Hlo (Hin k1 Hk1)).
      pose proof (maxOf_ge pairs hi k2 Hhi (Hin k2 Hk2)). lia. }
    split; [reflexivity|]. split; [reflexivity|].
    destruct pairs as [|x r] eqn:Ep; [discriminate|].
    simpl in Hhi, Hlo. injection Hhi as <-. injection Hlo as <-.
    split; apply Hpair; [apply fold_max_elem | apply fold_min_elem].
  - destruct (countIs counts 0 2).
    + destruct (pairs !! 0%nat); [|discriminate]. intros [= <-]. discriminate.
    + intros [= <-]. discriminate.
Qed.

(** C7.  For every hand that [evaluateFiveCardHand] ranks Two Pair the
    kickers are the two pair values and nothing else: two different
    values, the higher first, each held by exactly two of the cards, so a
    value that does not make a pair (the fifth card) is not a kicker; the
    high card reported is the high pair.  The two hands of the claim are
    both Two Pair, with kickers (13, 12) and (13, 11); they first differ
    at position 1, and there the first hand is the stronger one:
    [compareHands] gives 11 - 12 = -1. *)
Theorem two_pair_tie_break :
  (forall cards e,
     evaluateFiveCardHand cards = Some e -> Hand.rank e = 2 ->
     exists cs highPair lowPair,
       definedCards cards = Some cs /\
       Hand.kickers e = [highPair; lowPair] /\ lowPair < highPair /\
       Hand.highCard e = highPair /\ Hand.name e = "Two Pair"%string /\
       occurrences highPair cs = 2 /\ occurrences lowPair cs = 2 /\
       forall v, occurrences v cs <> 2 -> v ∉ Hand.kickers e) /\
  evaluateFiveCardHand kingsAndQueens = Some (Hand.mk 2 "Two Pair" [13; 12] 13) /\
  evaluateFiveCardHand kingsAndJacks = Some (Hand.mk 2 "Two Pair" [13; 11] 13) /\
  firstDifference (Hand.mk 2 "Two Pair" [13; 12] 13)
                  (Hand.mk 2 "Two Pair" [13; 11] 13) 1 /\
  compareHands (Hand.mk 2 "Two Pair" [13; 12] 13)
               (Hand.mk 2 "Two Pair" [13; 11] 13) = -1.
Proof.
  split.
  { intros cards e He Hr.
    destruct (two_pair_values cards e He Hr)
      as (cs & hi & lo & Hcs & Hk & Hlt & Hhc & Hn & Hhi & Hlo).
    exists cs, hi, lo. repeat (split; [assumption|]).
    intros v Hv Hin. rewrite Hk in Hin.
    apply elem_of_cons in Hin as [->|Hin]; [contradiction|].
    apply list_elem_of_singleton in Hin. subst v. contradiction. }
  split; [vm_compute; reflexivity|]. split; [vm_compute; reflexivity|].
  split; [|vm_compute; reflexivity].
  split.
  - intros [|i] Hi; [reflexivity | lia].
  - vm_compute. discriminate.
Qed.

(** ** The refused raise *)

Lemma raise_not_above (a : Z) (g : GameState) :
  a <= currentBet g -> raiseAccepted (Some a) g = None.
Proof.
  intros Hle. unfold raiseAccepted.
  destruct (Z.ltb_spec (currentBet g) a); [lia|]. rewrite andb_false_r. reflexivity.
Qed.

(** A raise of the policy that is not accepted still runs the rest of
    [executeAIAction]. *)
Lemma refused_policy_raise_runs_tail
      (policy : Player -> GameState -> option Decision) (g : GameState) (p : Player)
      (amt : option Z) :
  players g !! activePlayerIndex g = Some p ->
  policy p g = Some (mkDecision raise amt) ->
  raiseAccepted amt g = None ->
  executeAIAction policy g
  = Some (aiFinish (setBettingComplete (isBettingComplete g) g)).
Proof.
  intros Hp Hpol Hno. unfold executeAIAction, aiActed.
  rewrite Hp. cbn [mbind option_bind]. rewrite Hpol. cbn [mbind option_bind].
  unfold aiSwitch. cbn [action amount]. unfold doRaise. rewrite Hno.
  reflexivity.
Qed.

(** The first qualifying seat after [from] is another seat as soon as
    another seat qualifies. *)
Lemma nearestAfter_moves (f : Player -> bool) (ps : list Player) (from i : nat) :
  nearestAfter f ps from i -> (from < length ps)%nat ->
  (exists j q, j <> from /\ ps !! j = Some q /\ f q = true) ->
  i <> from.
Proof.
  intros (a & Ha & Hi & _ & Hbefore) Hfrom (j & q & Hj & Hq & Hfq) E.
  unfold seatAfter in *. set (n := length ps) in *.
  assert (Ea : a = (n - 1)%nat).
  { destruct (decide (from + 1 + a < n)%nat) as [Hs|Hs].
    - rewrite Nat.mod_small in Hi by exact Hs. lia.
    - assert (Em : ((from + 1 + a) mod n = from + 1 + a - n)%nat).
      { replace (from + 1 + a)%nat with ((from + 1 + a - n) + 1 * n)%nat at 1 by lia.
        rewrite Nat.Div0.mod_add. apply Nat.mod_small. lia. }
      lia. }
  assert (Hjn : (j < n)%nat) by (apply lookup_lt_Some in Hq; exact Hq).
  destruct (round_reaches (from + 1) n j Hjn) as (k & Hk & Ek).
  assert (Hkn : k <> (n - 1)%nat).
  { intros ->. apply Hj. rewrite <- Ek.
    replace (from + 1 + (n - 1))%nat with (from + 1 * n)%nat by lia.
    rewrite Nat.Div0.mod_add. apply Nat.mod_small. exact Hfrom. }
  assert (Hno : f q = false).
  { apply (Hbefore k q); [lia|]. rewrite Ek. exact Hq. }
  congruence.
Qed.

(** C2 (the code departs from the claim).  A raise the policy seat answers
    with an amount that is not above the current bet is not accepted, yet
    [executeAIAction] does not return the state as it was: it goes on to
    recompute the round-closed flag and, with the round open, to pass the
    turn.  Seats, current bet and pot stay, the seat has not acted, but
    the active seat is the next one that can act, another seat as soon as
    another seat can act.  On the six-seat table the short stack at seat
    1, facing a bet of 510 with 110 in all, answers with a raise to 110:
    the turn goes to seat 2.  [handlePlayerAction] has the same
    missing return when it is called with such an amount. *)
Theorem refused_policy_raise_passes_turn :
  (forall policy g p a,
     players g !! activePlayerIndex g = Some p ->
     policy p g = Some (mkDecision raise (Some a)) ->
     a <= currentBet g ->
     executeAIAction policy g
     = Some (aiFinish (setBettingComplete (isBettingComplete g) g)) /\
     (isBettingComplete g = false ->
      exists g',
        executeAIAction policy g = Some g' /\
        players g' = players g /\ currentBet g' = currentBet g /\
        pot g' = pot g /\ bettingComplete g' = false /\
        activePlayerIndex g' = getNextActivePlayer g /\
        ((exists j q, j <> activePlayerIndex g /\ players g !! j = Some q /\
                      canAct q = true) ->
         activePlayerIndex g' <> activePlayerIndex g /\ g' <> g))) /\
  (exists g' p,
     players shortStackFacingRaise !! 1%nat = Some p /\
     shortStackRaise p shortStackFacingRaise = Some (mkDecision raise (Some 110)) /\
     110 <= currentBet shortStackFacingRaise /\
     executeAIAction shortStackRaise shortStackFacingRaise = Some g' /\
     players g' = players shortStackFacingRaise /\
     currentBet g' = currentBet shortStackFacingRaise /\
     pot g' = pot shortStackFacingRaise /\
     bettingComplete g' = bettingComplete shortStackFacingRaise /\
     hasActed p = false /\
     activePlayerIndex shortStackFacingRaise = 1%nat /\
     activePlayerIndex g' = 2%nat /\
     g' <> shortStackFacingRaise) /\
  (forall playerName amt g,
     hasTurn playerName g -> raiseAccepted amt g = None ->
     handlePlayerAction playerName raise amt g = Some (closeOrPass g)).
Proof.
  split; [|split].
  - intros policy g p a Hp Hpol Hle.
    pose proof (refused_policy_raise_runs_tail policy g p (Some a) Hp Hpol
                  (raise_not_above a g Hle)) as Hrun.
    split; [exact Hrun|]. intros Hopen.
    exists (setActivePlayerIndex (getNextActivePlayer g) (setBettingComplete false g)).
    split.
    { rewrite Hrun, Hopen. unfold aiFinish, earlyWinner.
      cbn [bettingComplete setBettingComplete negb]. reflexivity. }
    repeat (split; [reflexivity|]).
    intros Hother.
    assert (Hmove : getNextActivePlayer g <> activePlayerIndex g).
    { apply (nearestAfter_moves canAct (players g)).
      - apply (scan_nearest canAct (players g) (activePlayerIndex g)).
        destruct Hother as (j & q & _ & Hq & Hc). eauto.
      - apply lookup_lt_Some in Hp. exact Hp.
      - exact Hother. }
    split; [exact Hmove|].
    intros E. apply (f_equal activePlayerIndex) in E. exact (Hmove E).
  - eexists _, _. split; [reflexivity|]. split; [reflexivity|].
    split; [simpl; lia|]. split; [vm_compute; reflexivity|].
    repeat (split; [reflexivity|]).
    intros E. apply (f_equal activePlayerIndex) in E. discriminate E.
  - intros playerName amt g [Hname Hfind] Hno.
    exact (refused_raise_runs_tail playerName amt g Hname Hfind Hno).
Qed.

(** ** Where the turn goes after an advance *)

Lemma findIndex_none {A : Type} (f : A -> bool) (l : list A) :
  (forall x, x ∈ l -> f x = false) -> findIndex f l = None.
Proof.
  induction l as [|y l IH]; intros H; simpl; [reflexivity|].
  rewrite (H y (list_elem_of_here _ _)).
  rewrite IH; [reflexivity|]. intros x Hx. apply H. apply list_elem_of_further. exact Hx.
Qed.

(** The seat [firstToAct] names: with the dealer still in the tournament,
    the first seat still in after the dealer, going round the table; with
    the dealer out of it, the first seat still in, in seat order. *)
Lemma firstToAct_seat (d : GameState) (first : nat) :
  firstToAct d = Some first ->
  (dealerIndex d ∈ stillIn (players d) ->
   nearestAfter notEliminated (players d) (dealerIndex d) first) /\
  (dealerIndex d ∉ stillIn (players d) -> head (stillIn (players d)) = Some first).
Proof.
  unfold firstToAct.
  change (refs (fun p => negb (eliminated p)) (players d)) with (stillIn (players d)).
  cbv zeta.
  pose proof (NoDup_refsFrom notEliminated (players d) 0) as Hnd.
  change (refsFrom notEliminated 0 (players d)) with (stillIn (players d)) in Hnd.
  set (L := stillIn (players d)) in *.
  destruct L as [|x l] eqn:EL; [discriminate|].
  intros Hf. split.
  - intros Hin. apply list_elem_of_lookup in Hin. destruct Hin as [pos Hpos].
    rewrite (findIndex_position (x :: l) pos (dealerIndex d) Hnd Hpos) in Hf.
    destruct (lookup_lt_is_Some_2 (x :: l) (S pos mod length (x :: l))%nat) as [idx Hidx];
      [apply Nat.mod_upper_bound; simpl; lia|].
    rewrite Hidx in Hf.
    assert (E : first = idx).
    { destruct (Nat.eqb_spec idx 0) as [E0|N]; injection Hf as <-; [|reflexivity].
      rewrite E0 in Hidx. rewrite E0.
      apply (first_ref_is_zero notEliminated (players d) (S pos mod length (x :: l))).
      - fold (stillIn (players d)). fold L. rewrite EL. reflexivity.
      - fold (stillIn (players d)). fold L. rewrite EL. exact Hidx. }
    subst idx.
    apply (refs_cyclic_next notEliminated (players d) pos).
    + fold (stillIn (players d)). fold L. rewrite EL. exact Hpos.
    + fold (stillIn (players d)). fold L. rewrite EL.
      rewrite Nat.add_1_r. exact Hidx.
  - intros Hout.
    rewrite findIndex_none in Hf.
    + rewrite Nat.Div0.mod_0_l in Hf. cbn [lookup list_lookup] in Hf.
      destruct (x =? 0)%nat; injection Hf as <-; reflexivity.
    + intros y Hy. apply Nat.eqb_neq. intros ->. contradiction.
Qed.

(** X10.  When an accepted phase advance returns before the showdown.
    The loop that settles the turn starts at a seat that is not
    eliminated: with the dealer still in the tournament, the first seat
    still in after the dealer, going round the table; with the dealer
    eliminated, the first seat still in, in seat order.  If that seat has
    not folded (it may be all-in) the turn is there; if it has folded,
    the turn is at the first seat after it that is not folded, not all-in
    and not eliminated.  Either way the seat to act is neither folded nor
    eliminated, and nothing but the turn differs from the state on entry
    to the loop. *)
Theorem turn_after_advance (g g' : GameState) :
  bettingComplete g = true -> advancePhase g = Some g' -> phase g' <> showdown ->
  exists first q,
    (dealerIndex g ∈ stillIn (players g) ->
     nearestAfter notEliminated (players g) (dealerIndex g) first) /\
    (dealerIndex g ∉ stillIn (players g) -> head (stillIn (players g)) = Some first) /\
    players g !! first = Some q /\ eliminated q = false /\
    (folded q = false -> activePlayerIndex g' = first) /\
    (folded q = true -> nearestAfter canAct (players g') first (activePlayerIndex g')) /\
    (exists p, players g' !! activePlayerIndex g' = Some p /\
               folded p = false /\ eliminated p = false) /\
    exists s,
      beforeSettle g s /\ activePlayerIndex s = first /\
      g' = setActivePlayerIndex
             (if folded q then getNextActivePlayer s else first) s.
Proof.
  intros Hbc H Hns.
  destruct (advancePhase_accepted g g' Hbc H)
    as (d & Hd & [[E ->] | (Hnd & f & Hf & Hloop)]); [contradiction|].
  pose proof (settleLoop_in_hand _ _ _ Hloop) as Hseat.
  assert (Hnr : phase g <> river).
  { intros Er. destruct (dealPhase_board g d Hd) as (_ & _ & _ & Hp).
    rewrite Er in Hp. exact (Hnd Hp). }
  destruct (dealPhase_seats g d Hnr Hd) as [Hps Hdi].
  assert (Hstill : stillIn (players d) = stillIn (players g)).
  { unfold stillIn, refs. rewrite Hps. apply refsFrom_map. reflexivity. }
  destruct (firstToAct_seat d f Hf) as [Hin Hout].
  rewrite Hstill, Hdi in Hin, Hout.
  assert (Hnear : dealerIndex g ∈ stillIn (players g) ->
                  nearestAfter notEliminated (players g) (dealerIndex g) f).
  { intros Y. specialize (Hin Y). rewrite Hps in Hin.
    exact (nearestAfter_map notEliminated notEliminated
             (fun p => setHasActed false (setBet 0 p)) (players g) _ _
             (fun p => eq_refl) Hin). }
  clear Hin.
  set (s := setActivePlayerIndex f d) in *.
  assert (Hlen : exists n, length (players d) = S n).
  { destruct (players d) as [|x l] eqn:E; [|eexists; reflexivity].
    unfold firstToAct in Hf. rewrite E in Hf. discriminate. }
  destruct Hlen as [n Hn]. change (players d) with (players s) in Hn.
  change (length (players d)) with (length (players s)) in Hloop.
  rewrite Hn, settleLoop_fuel in Hloop. cbn [settleLoop] in Hloop.
  destruct (players s !! activePlayerIndex s) as [q|] eqn:Hq; [|discriminate].
  cbn [mbind option_bind] in Hloop.
  assert (Hq0 : exists q0, players g !! f = Some q0 /\
                           q = setHasActed false (setBet 0 q0)).
  { cbn [players activePlayerIndex s setActivePlayerIndex] in Hq.
    rewrite Hps, list_lookup_fmap in Hq.
    destruct (players g !! f) as [q0|]; [|discriminate]. injection Hq as <-. eauto. }
  destruct Hq0 as (q0 & Hq0 & Eq).
  assert (Hfold : folded q = folded q0) by (rewrite Eq; reflexivity).
  assert (Helim : eliminated q = eliminated q0) by (rewrite Eq; reflexivity).
  assert (Hel0 : eliminated q0 = false).
  { assert (Hfin : f ∈ stillIn (players g)).
    { destruct (decide (dealerIndex g ∈ stillIn (players g))) as [Y|N].
      - destruct (Hnear Y) as (_ & _ & _ & (p & Hp & Hpe) & _).
        apply elem_of_refs. eauto.
      - specialize (Hout N). destruct (stillIn (players g)) as [|y l]; [discriminate|].
        injection Hout as ->. apply list_elem_of_here. }
    apply elem_of_refs in Hfin. destruct Hfin as (p & Hp & Hpe).
    rewrite Hq0 in Hp. injection Hp as <-.
    unfold notEliminated in Hpe. apply negb_true_iff in Hpe. exact Hpe. }
  rewrite Helim, Hel0, orb_false_r, Hfold in Hloop.
  exists f, q0.
  split; [exact Hnear|].
  split; [exact Hout|]. split; [exact Hq0|]. split; [exact Hel0|].
  destruct (folded q0) eqn:Hf0.
  - set (s1 := setActivePlayerIndex (getNextActivePlayer s) s) in *.
    destruct (players s1 !! activePlayerIndex s1) as [q1|] eqn:Hq1; [|discriminate].
    cbn [mbind option_bind] in Hloop.
    destruct (folded q1 || eliminated q1) eqn:Hq1f; [discriminate|].
    injection Hloop as <-.
    split; [intros F; discriminate|]. split.
    { intros _. cbn [players activePlayerIndex s1 setActivePlayerIndex].
      change f with (activePlayerIndex s) at 1.
      apply (scan_nearest canAct (players s) (activePlayerIndex s)).
      destruct (decide (Forall (fun x => canAct x = false) (players s))) as [Hnone|Hsome].
      - exfalso.
        pose proof (scanLoop_bounded canAct (players s) (activePlayerIndex s))
          as (_ & _ & _ & Hback).
        specialize (Hback Hnone).
        assert (Es : players s1 !! activePlayerIndex s1 = Some q).
        { cbn [players activePlayerIndex s1 setActivePlayerIndex].
          change (getNextActivePlayer s) with
            (scanResult (activePlayerIndex s)
               (scanLoop canAct (players s) (length (players s))
                  ((activePlayerIndex s + 1) mod length (players s)) 0)).
          rewrite Hback. exact Hq. }
        rewrite Hq1 in Es. injection Es as ->.
        rewrite Hfold in Hq1f. discriminate.
      - apply not_Forall_Exists in Hsome; [|intros x; apply _].
        apply Exists_exists in Hsome. destruct Hsome as (x & Hx & Hcx).
        apply list_elem_of_lookup in Hx. destruct Hx as [j Hj].
        exists j, x. split; [exact Hj|]. destruct (canAct x) eqn:Ecx; [reflexivity | exfalso; exact (Hcx Ecx)]. }
    split; [exact Hseat|].
    exists s. split; [exists d, f; repeat split; assumption|].
    split; reflexivity.
  - injection Hloop as <-.
    split; [intros _; reflexivity|]. split; [intros F; discriminate|].
    split; [exact Hseat|].
    exists s. split; [exists d, f; repeat split; assumption|].
    split; [reflexivity|]. destruct d; reflexivity.
Qed.

Lemma turn_after_advance_witness :
  exists g' p,
    advancePhase closedPreflop = Some g' /\
    nearestAfter notEliminated (players closedPreflop) 0 (activePlayerIndex g') /\
    activePlayerIndex g' = 1%nat /\
    players g' !! activePlayerIndex g' = Some p /\ folded p = false.
Proof.
  assert (Hrun : exists g', advancePhase closedPreflop = Some g' /\ phase g' = flop /\
                            activePlayerIndex g' = 1%nat)
    by (eexists; split; [vm_compute; reflexivity | split; reflexivity]).
  destruct Hrun as (g' & Hrun & Hflop & Hturn).
  destruct (turn_after_advance closedPreflop g' eq_refl Hrun)
    as (first & q & Hnear & _ & Hq & _ & Hstay & _ & (p & Hp & Hf & _) & _).
  - rewrite Hflop. discriminate.
  - assert (Hdealer : dealerIndex closedPreflop ∈ stillIn (players closedPreflop))
      by (apply elem_of_refs; eexists; split; reflexivity).
    specialize (Hnear Hdealer).
    assert (Hfirst : first = 1%nat).
    { destruct (decide (first = 1%nat)) as [E|N]; [exact E|]. exfalso.
      destruct first as [|[|[|k]]]; try (injection Hq as <-);
        try (rewrite (Hstay eq_refl) in Hturn; discriminate);
        try contradiction; discriminate. }
    subst first.
    exists g', p. split; [exact Hrun|]. rewrite Hturn.
    split; [exact Hnear|]. split; [reflexivity|]. rewrite Hturn in Hp.
    split; [exact Hp | exact Hf].
Defined.
